(** * Metadata block accessors and the tree checker

    A shallow embedding of [struct-funcs.c] (the paged little-endian field
    accessors of a metadata block) and of [tree-checker.c] (the leaf, node
    and item validators), with the properties stated for them.

    Integers are [Z] with the wrap-around of their C type written out, a
    page is a list of bytes, the pages of a block are a list of pages, and
    a multi-byte value is assembled with coqutil's little-endian
    [le_combine] / [le_split]. *)

From Stdlib Require Import String ZArith List Lia Bool.
From coqutil Require Import Byte Word.LittleEndianList.
Import ListNotations.
Local Open Scope Z_scope.

(** ** C integer types *)

Definition u8 (x : Z) : Z := x mod 2 ^ 8.
Definition u16 (x : Z) : Z := x mod 2 ^ 16.
Definition u32 (x : Z) : Z := x mod 2 ^ 32.
Definition u64 (x : Z) : Z := x mod 2 ^ 64.
(** [unsigned long] and [unsigned] of a 64-bit kernel. *)
Definition ulong (x : Z) : Z := x mod 2 ^ 64.
Definition uint (x : Z) : Z := x mod 2 ^ 32.

(** ** Blocks, pages and the outcome of an access *)

Definition page := list byte.

(** The super block copies, with the accessors the checker reads them
    through, and the fields of [struct apfs_fs_info] it uses. *)
Record apfs_super_block := {
  apfs_super_generation : Z;
  apfs_super_incompat_flags : Z
}.

Record apfs_nx_superblock := {
  apfs_is_case_insensitive : bool
}.

Record apfs_fs_info := {
  sectorsize : Z;
  nodesize : Z;
  csum_size : Z;
  super_copy : apfs_super_block;
  __super_copy : apfs_nx_superblock
}.

(** [struct extent_buffer]: the fields used by the two files. *)
Record extent_buffer := {
  start : Z;
  len : Z;
  pages : list page;
  fs_info : apfs_fs_info
}.

(** One memory access: page index, offset in that page, byte count. *)
Inductive access :=
| Rd (pg o n : Z)
| Wr (pg o n : Z).

(** What a call does: it returns with the list of the accesses it made, it
    stops at a failed [ASSERT], or it touches memory outside a page. *)
Inductive outcome (A : Type) :=
| Done (a : A) (tr : list access)
| AssertFailed
| BadAccess.
Arguments Done {A} a tr.
Arguments AssertFailed {A}.
Arguments BadAccess {A}.

Definition ret {A} (a : A) : outcome A := Done a [].

Definition bind {A B} (m : outcome A) (f : A -> outcome B) : outcome B :=
  match m with
  | Done a tr =>
      match f a with
      | Done b tr' => Done b (tr ++ tr')
      | AssertFailed => AssertFailed
      | BadAccess => BadAccess
      end
  | AssertFailed => AssertFailed
  | BadAccess => BadAccess
  end.

Declare Scope outcome_scope.
Delimit Scope outcome_scope with outcome.
Notation "x <- m ;; k" := (bind m (fun x => k))
  (at level 61, m at next level, right associativity) : outcome_scope.
Notation "m ;;; k" := (bind m (fun _ => k))
  (at level 61, right associativity) : outcome_scope.
Local Open Scope outcome_scope.

(** A list with element [k] replaced, and a list with the bytes [bs] copied
    over it from position [o]. *)
Definition upd {A} (k : nat) (x : A) (l : list A) : list A :=
  firstn k l ++ x :: skipn (S k) l.

Definition splice {A} (o : nat) (bs p : list A) : list A :=
  firstn o p ++ bs ++ skipn (o + length bs) p.

(** A [char *kaddr]: NULL, or the address of page [k] of the block. *)
Definition kptr := option Z.

(** [struct apfs_map_token]. [tok_eb] is the block [token->eb] points to. *)
Record apfs_map_token := {
  tok_eb : extent_buffer;
  tok_kaddr : kptr;
  tok_offset : Z
}.

Inductive ubits := U8 | U16 | U32 | U64.

Definition nbits (b : ubits) : Z :=
  match b with U8 => 8 | U16 => 16 | U32 => 32 | U64 => 64 end.

(** [sizeof(u##bits)] *)
Definition sizeof_u (b : ubits) : Z :=
  match b with U8 => 1 | U16 => 2 | U32 => 4 | U64 => 8 end.

Module StructFuncs.

Section Paged.

(** [PAGE_SHIFT] of the kernel and whether [ASSERT] is compiled in. *)
Variable PAGE_SHIFT : Z.
Variable assert_enabled : bool.

Definition PAGE_SIZE : Z := Z.shiftl 1 PAGE_SHIFT.

(** [ASSERT(c)] *)
Definition ASSERT (c : bool) : outcome unit :=
  if assert_enabled && negb c then AssertFailed else ret tt.

(** Modelled from the spec: [get_eb_page_index] and [get_eb_offset_in_page]
    of extent_io.h, which is not among the sources: a byte offset resolves to
    a page index and an offset in that page. *)
Definition get_eb_page_index (member_offset : Z) : Z :=
  Z.shiftr member_offset PAGE_SHIFT.

Definition get_eb_offset_in_page (eb : extent_buffer) (member_offset : Z) : Z :=
  Z.land member_offset (PAGE_SIZE - 1).

(** [page_address(eb->pages[idx])] *)
Definition page_address (eb : extent_buffer) (idx : Z) : kptr := Some idx.

(** Reading [n] bytes at [kaddr + o]. *)
Definition read_bytes (eb : extent_buffer) (kaddr : kptr) (o n : Z)
  : outcome (list byte) :=
  match kaddr with
  | None => BadAccess
  | Some k =>
      match nth_error (pages eb) (Z.to_nat k) with
      | Some p =>
          if (0 <=? k) && (0 <=? o) && (0 <=? n)
             && (o + n <=? Z.of_nat (length p))
          then Done (firstn (Z.to_nat n) (skipn (Z.to_nat o) p)) [Rd k o n]
          else BadAccess
      | None => BadAccess
      end
  end.

Definition set_pages (eb : extent_buffer) (ps : list page) : extent_buffer :=
  {| start := start eb; len := len eb; pages := ps; fs_info := fs_info eb |}.

(** Writing the bytes [bs] at [kaddr + o]. *)
Definition write_bytes (eb : extent_buffer) (kaddr : kptr) (o : Z)
  (bs : list byte) : outcome extent_buffer :=
  match kaddr with
  | None => BadAccess
  | Some k =>
      match nth_error (pages eb) (Z.to_nat k) with
      | Some p =>
          let n := Z.of_nat (length bs) in
          if (0 <=? k) && (0 <=? o) && (o + n <=? Z.of_nat (length p))
          then
            Done (set_pages eb
                    (upd (Z.to_nat k) (splice (Z.to_nat o) bs p) (pages eb)))
                 [Wr k o n]
          else BadAccess
      | None => BadAccess
      end
  end.

(** [get_unaligned_le##bits(kaddr + o)] and [put_unaligned_le##bits(val,
    kaddr + o)] on a page; on the local array [lebytes] they are
    [le_combine] and [le_split]. *)
Definition get_unaligned_le (b : ubits) (eb : extent_buffer) (kaddr : kptr)
  (o : Z) : outcome Z :=
  bs <- read_bytes eb kaddr o (sizeof_u b) ;;
  ret (le_combine bs).

Definition put_unaligned_le (b : ubits) (val : Z) (eb : extent_buffer)
  (kaddr : kptr) (o : Z) : outcome extent_buffer :=
  write_bytes eb kaddr o (le_split (Z.to_nat (sizeof_u b)) val).

Definition check_setget_bounds (eb : extent_buffer) (ptr off size : Z) : bool :=
  let member_offset := ulong (ptr + uint off) in
  if len eb <? member_offset then false
  else if len eb <? ulong (member_offset + size) then false
  else true.

(** *** [DEFINE_APFS_SETGET_BITS(bits)] *)

Definition is_null (k : kptr) : bool :=
  match k with None => true | Some _ => false end.

Definition with_kaddr (t : apfs_map_token) (k : kptr) (o : Z) : apfs_map_token :=
  {| tok_eb := tok_eb t; tok_kaddr := k; tok_offset := o |}.

Definition with_eb (t : apfs_map_token) (eb : extent_buffer) : apfs_map_token :=
  {| tok_eb := eb; tok_kaddr := tok_kaddr t; tok_offset := tok_offset t |}.

Definition apfs_get_token_bits (b : ubits) (token : apfs_map_token)
  (ptr off : Z) : outcome (Z * apfs_map_token) :=
  let member_offset := ulong (ptr + off) in
  let idx := get_eb_page_index member_offset in
  let oip := get_eb_offset_in_page (tok_eb token) member_offset in
  let size := sizeof_u b in
  let part := PAGE_SIZE - oip in
  ASSERT true ;;;
  ASSERT (negb (is_null (tok_kaddr token))) ;;;
  ASSERT (check_setget_bounds (tok_eb token) ptr off size) ;;;
  if (tok_offset token <=? member_offset)
     && (ulong (member_offset + size) <=? ulong (tok_offset token + PAGE_SIZE))
  then
    v <- get_unaligned_le b (tok_eb token) (tok_kaddr token) oip ;;
    ret (v, token)
  else
    let token := with_kaddr token (page_address (tok_eb token) idx)
                   (ulong (Z.shiftl idx PAGE_SHIFT)) in
    if oip + size <=? PAGE_SIZE then
      v <- get_unaligned_le b (tok_eb token) (tok_kaddr token) oip ;;
      ret (v, token)
    else
      lebytes1 <- read_bytes (tok_eb token) (tok_kaddr token) oip part ;;
      let token := with_kaddr token (page_address (tok_eb token) (idx + 1))
                     (ulong (Z.shiftl (idx + 1) PAGE_SHIFT)) in
      lebytes2 <- read_bytes (tok_eb token) (tok_kaddr token) 0 (size - part) ;;
      ret (le_combine (lebytes1 ++ lebytes2), token).

Definition apfs_get_bits (b : ubits) (eb : extent_buffer) (ptr off : Z)
  : outcome Z :=
  let member_offset := ulong (ptr + off) in
  let oip := get_eb_offset_in_page eb member_offset in
  let idx := get_eb_page_index member_offset in
  let kaddr := page_address eb idx in
  let size := sizeof_u b in
  let part := PAGE_SIZE - oip in
  ASSERT (check_setget_bounds eb ptr off size) ;;;
  if oip + size <=? PAGE_SIZE then get_unaligned_le b eb kaddr oip
  else
    lebytes1 <- read_bytes eb kaddr oip part ;;
    let kaddr := page_address eb (idx + 1) in
    lebytes2 <- read_bytes eb kaddr 0 (size - part) ;;
    ret (le_combine (lebytes1 ++ lebytes2)).

Definition apfs_set_token_bits (b : ubits) (token : apfs_map_token)
  (ptr off val : Z) : outcome apfs_map_token :=
  let member_offset := ulong (ptr + off) in
  let idx := get_eb_page_index member_offset in
  let oip := get_eb_offset_in_page (tok_eb token) member_offset in
  let size := sizeof_u b in
  let part := PAGE_SIZE - oip in
  ASSERT true ;;;
  ASSERT (negb (is_null (tok_kaddr token))) ;;;
  ASSERT (check_setget_bounds (tok_eb token) ptr off size) ;;;
  if (tok_offset token <=? member_offset)
     && (ulong (member_offset + size) <=? ulong (tok_offset token + PAGE_SIZE))
  then
    eb' <- put_unaligned_le b val (tok_eb token) (tok_kaddr token) oip ;;
    ret (with_eb token eb')
  else
    let token := with_kaddr token (page_address (tok_eb token) idx)
                   (ulong (Z.shiftl idx PAGE_SHIFT)) in
    if oip + size <=? PAGE_SIZE then
      eb' <- put_unaligned_le b val (tok_eb token) (tok_kaddr token) oip ;;
      ret (with_eb token eb')
    else
      let lebytes := le_split (Z.to_nat size) val in
      eb1 <- write_bytes (tok_eb token) (tok_kaddr token) oip
               (firstn (Z.to_nat part) lebytes) ;;
      let token := with_kaddr (with_eb token eb1)
                     (page_address eb1 (idx + 1))
                     (ulong (Z.shiftl (idx + 1) PAGE_SHIFT)) in
      eb2 <- write_bytes (tok_eb token) (tok_kaddr token) 0
               (firstn (Z.to_nat (size - part))
                  (skipn (Z.to_nat part) lebytes)) ;;
      ret (with_eb token eb2).

Definition apfs_set_bits (b : ubits) (eb : extent_buffer) (ptr off val : Z)
  : outcome extent_buffer :=
  let member_offset := ulong (ptr + off) in
  let oip := get_eb_offset_in_page eb member_offset in
  let idx := get_eb_page_index member_offset in
  let kaddr := page_address eb idx in
  let size := sizeof_u b in
  let part := PAGE_SIZE - oip in
  ASSERT (check_setget_bounds eb ptr off size) ;;;
  if oip + size <=? PAGE_SIZE then put_unaligned_le b val eb kaddr oip
  else
    let lebytes := le_split (Z.to_nat size) val in
    eb1 <- write_bytes eb kaddr oip (firstn (Z.to_nat part) lebytes) ;;
    let kaddr := page_address eb1 (idx + 1) in
    write_bytes eb1 kaddr 0
      (firstn (Z.to_nat (size - part)) (skipn (Z.to_nat part) lebytes)).

(** *** Well-formed blocks and tokens, valid accesses, runs of accesses *)

(** Every page holds [PAGE_SIZE] bytes, the pages cover the block and their
    total size is an [unsigned long]. *)
Definition wf_eb (eb : extent_buffer) : Prop :=
  Forall (fun p : page => Z.of_nat (length p) = PAGE_SIZE) (pages eb) /\
  0 <= len eb <= PAGE_SIZE * Z.of_nat (length (pages eb)) /\
  PAGE_SIZE * Z.of_nat (length (pages eb)) < 2 ^ 64.

(** The contract of the accessors: the member lies inside the block. *)
Definition valid_access (eb : extent_buffer) (ptr off size : Z) : Prop :=
  0 <= ptr /\ 0 <= off /\ ptr + off + size <= len eb.

(** The token caches page [k] of its block and the offset of that page. *)
Definition token_ok (t : apfs_map_token) : Prop :=
  exists k, tok_kaddr t = Some k /\ tok_offset t = k * PAGE_SIZE /\
            0 <= k < Z.of_nat (length (pages (tok_eb t))).

Inductive op :=
| OpGet (b : ubits) (ptr off : Z)
| OpSet (b : ubits) (ptr off val : Z).

Definition op_valid (eb : extent_buffer) (o : op) : Prop :=
  match o with
  | OpGet b ptr off => valid_access eb ptr off (sizeof_u b)
  | OpSet b ptr off _ => valid_access eb ptr off (sizeof_u b)
  end.

(** A sequence of accesses through the plain accessors, and the same
    sequence through the token accessors: the values read, in order, and
    the block (the token) at the end. *)
Fixpoint run_plain (eb : extent_buffer) (ops : list op)
  : outcome (list Z * extent_buffer) :=
  match ops with
  | [] => ret ([], eb)
  | OpGet b ptr off :: rest =>
      v <- apfs_get_bits b eb ptr off ;;
      r <- run_plain eb rest ;;
      ret (v :: fst r, snd r)
  | OpSet b ptr off val :: rest =>
      eb' <- apfs_set_bits b eb ptr off val ;;
      run_plain eb' rest
  end.

Fixpoint run_token (token : apfs_map_token) (ops : list op)
  : outcome (list Z * apfs_map_token) :=
  match ops with
  | [] => ret ([], token)
  | OpGet b ptr off :: rest =>
      vt <- apfs_get_token_bits b token ptr off ;;
      r <- run_token (snd vt) rest ;;
      ret (fst vt :: fst r, snd r)
  | OpSet b ptr off val :: rest =>
      token' <- apfs_set_token_bits b token ptr off val ;;
      run_token token' rest
  end.

(** The logical byte range [pg * PAGE_SIZE + o, +n) of an access lies in
    [lo, hi). *)
Definition access_within (lo hi : Z) (a : access) : Prop :=
  match a with
  | Rd pg o n | Wr pg o n =>
      0 <= o /\ 0 < n /\ o + n <= PAGE_SIZE /\
      lo <= pg * PAGE_SIZE + o /\ pg * PAGE_SIZE + o + n <= hi
  end.

Definition access_page (a : access) : Z :=
  match a with Rd pg _ _ | Wr pg _ _ => pg end.

(** Every access of the trace is to page [idx] or [idx + 1] and to bytes of
    the block. *)
Definition trace_in_bounds (eb : extent_buffer) (idx : Z) (tr : list access)
  : Prop :=
  Forall (fun a => (access_page a = idx \/ access_page a = idx + 1) /\
                   access_within 0 (len eb) a) tr.

End Paged.

(** The sixteen functions the macro defines. *)
Definition apfs_get_token_8 ps ae := apfs_get_token_bits ps ae U8.
Definition apfs_get_8 ps ae := apfs_get_bits ps ae U8.
Definition apfs_set_token_8 ps ae := apfs_set_token_bits ps ae U8.
Definition apfs_set_8 ps ae := apfs_set_bits ps ae U8.
Definition apfs_get_token_16 ps ae := apfs_get_token_bits ps ae U16.
Definition apfs_get_16 ps ae := apfs_get_bits ps ae U16.
Definition apfs_set_token_16 ps ae := apfs_set_token_bits ps ae U16.
Definition apfs_set_16 ps ae := apfs_set_bits ps ae U16.
Definition apfs_get_token_32 ps ae := apfs_get_token_bits ps ae U32.
Definition apfs_get_32 ps ae := apfs_get_bits ps ae U32.
Definition apfs_set_token_32 ps ae := apfs_set_token_bits ps ae U32.
Definition apfs_set_32 ps ae := apfs_set_bits ps ae U32.
Definition apfs_get_token_64 ps ae := apfs_get_token_bits ps ae U64.
Definition apfs_get_64 ps ae := apfs_get_bits ps ae U64.
Definition apfs_set_token_64 ps ae := apfs_set_token_bits ps ae U64.
Definition apfs_set_64 ps ae := apfs_set_bits ps ae U64.

End StructFuncs.

(** The bytes of a block in one range: its pages one after the other. *)
Definition contents (eb : extent_buffer) : list byte := concat (pages eb).

(** ** The tree checker *)

(** [struct apfs_key] *)
Record apfs_key := { objectid : Z; type : Z; offset : Z }.

(** One line of the kernel log: the format of the prefix, its string and
    integer arguments, the slot the reporter was given and the format of the
    message. The arguments of the message are not kept. *)
Record log_entry := {
  log_head : string;
  log_sargs : list string;
  log_args : list Z;
  log_slot : Z;
  log_fmt : string
}.

(** What a checker returns: the [int] and the lines it logged. *)
Definition verdict := (Z * list log_entry)%type.

(** A call returns, stops at a failed [ASSERT], or is still in its loop when
    the fuel of the model is spent. *)
Inductive run (A : Type) :=
| Returns (a : A)
| AssertionFailed
| OutOfFuel.
Arguments Returns {A} a.
Arguments AssertionFailed {A}.
Arguments OutOfFuel {A}.

Definition run_bind {A B} (m : run A) (f : A -> run B) : run B :=
  match m with
  | Returns a => f a
  | AssertionFailed => AssertionFailed
  | OutOfFuel => OutOfFuel
  end.

(** The [int] a call returns, when it returns. *)
Definition returned_code (r : run verdict) : option Z :=
  match r with
  | Returns v => Some (fst v)
  | _ => None
  end.

Declare Scope run_scope.
Delimit Scope run_scope with run.
Notation "x <~ m ;; k" := (run_bind m (fun x => k))
  (at level 61, m at next level, right associativity) : run_scope.

(** [return v;] followed by statements that are never reached. *)
Definition RETURN_BEFORE {A} (v : A) (unreached : A) : A := v.

Definition EUCLEAN : Z := 117.
Definition OK : verdict := (0, []).
Definition corrupt (e : log_entry) : verdict := (- EUCLEAN, [e]).

(** *** Kernel macros *)

(** [IS_ALIGNED(x, a)], [ALIGN(x, a)] on a [u64], [check_add_overflow] on
    [u64], [is_power_of_2], [hweight64]. *)
Definition IS_ALIGNED (x a : Z) : bool := Z.land x (a - 1) =? 0.
Definition ALIGN (x a : Z) : Z := Z.land (u64 (x + (a - 1))) (Z.lnot (a - 1)).
Definition check_add_overflow (a b : Z) : bool * Z :=
  (negb (a + b =? u64 (a + b)), u64 (a + b)).
Definition is_power_of_2 (n : Z) : bool :=
  negb (n =? 0) && (Z.land n (u64 (n - 1)) =? 0).

Fixpoint popcount_pos (p : positive) : Z :=
  match p with
  | xH => 1
  | xO q => popcount_pos q
  | xI q => 1 + popcount_pos q
  end.
Definition hweight64 (n : Z) : Z :=
  match u64 n with Zpos p => popcount_pos p | _ => 0 end.

(** Modelled from the spec: [has_single_bit_set] of misc.h, which is not
    among the sources: exactly one bit of the value is set. *)
Definition has_single_bit_set (n : Z) : bool :=
  negb (n =? 0) && (Z.land n (u64 (n - 1)) =? 0).

(** [linux/stat.h] *)
Definition S_IFMT : Z := 61440.
Definition S_IFSOCK : Z := 49152.
Definition S_IFLNK : Z := 40960.
Definition S_IFREG : Z := 32768.
Definition S_IFBLK : Z := 24576.
Definition S_IFDIR : Z := 16384.
Definition S_IFCHR : Z := 8192.
Definition S_IFIFO : Z := 4096.
Definition S_ISUID : Z := 2048.
Definition S_ISGID : Z := 1024.
Definition S_ISVTX : Z := 512.
Definition S_ISLNK (m : Z) : bool := Z.land m S_IFMT =? S_IFLNK.
Definition S_ISBLK (m : Z) : bool := Z.land m S_IFMT =? S_IFBLK.
Definition S_ISSOCK (m : Z) : bool := Z.land m S_IFMT =? S_IFSOCK.
Definition S_ISDIR (m : Z) : bool := Z.land m S_IFMT =? S_IFDIR.
(** [linux/limits.h] *)
Definition XATTR_NAME_MAX : Z := 255.
Definition SZ_4K : Z := 4096.

(** *** What the headers that are not among the sources declare

    The constants, structure sizes and field accessors of ctree.h, volumes.h
    and the other headers [tree-checker.c] includes. A pointer into a block
    is the byte offset it is cast from. *)
Class ctree := {
  (** whether [ASSERT] is compiled in *)
  CONFIG_APFS_ASSERT : bool;
  (** key types *)
  APFS_INODE_ITEM_KEY : Z;
  APFS_INODE_REF_KEY : Z;
  APFS_XATTR_ITEM_KEY : Z;
  APFS_DIR_ITEM_KEY : Z;
  APFS_DIR_INDEX_KEY : Z;
  APFS_EXTENT_DATA_KEY : Z;
  APFS_EXTENT_CSUM_KEY : Z;
  APFS_ROOT_ITEM_KEY : Z;
  APFS_EXTENT_ITEM_KEY : Z;
  APFS_METADATA_ITEM_KEY : Z;
  APFS_TREE_BLOCK_REF_KEY : Z;
  APFS_EXTENT_DATA_REF_KEY : Z;
  APFS_SHARED_BLOCK_REF_KEY : Z;
  APFS_SHARED_DATA_REF_KEY : Z;
  APFS_BLOCK_GROUP_ITEM_KEY : Z;
  APFS_DEV_ITEM_KEY : Z;
  APFS_CHUNK_ITEM_KEY : Z;
  (** object ids *)
  APFS_ROOT_TREE_OBJECTID : Z;
  APFS_EXTENT_TREE_OBJECTID : Z;
  APFS_CHUNK_TREE_OBJECTID : Z;
  APFS_DEV_TREE_OBJECTID : Z;
  APFS_FS_TREE_OBJECTID : Z;
  APFS_ROOT_TREE_DIR_OBJECTID : Z;
  APFS_DATA_RELOC_TREE_OBJECTID : Z;
  APFS_TREE_RELOC_OBJECTID : Z;
  APFS_EXTENT_CSUM_OBJECTID : Z;
  APFS_FREE_INO_OBJECTID : Z;
  APFS_FIRST_FREE_OBJECTID : Z;
  APFS_LAST_FREE_OBJECTID : Z;
  APFS_FIRST_CHUNK_TREE_OBJECTID : Z;
  APFS_DEV_ITEMS_OBJECTID : Z;
  (** limits and flags *)
  APFS_MAX_LEVEL : Z;
  APFS_NAME_LEN : Z;
  APFS_FT_XATTR : Z;
  APFS_FT_MAX : Z;
  APFS_FILE_EXTENT_INLINE : Z;
  APFS_NR_FILE_EXTENT_TYPES : Z;
  APFS_COMPRESS_NONE : Z;
  APFS_NR_COMPRESS_TYPES : Z;
  APFS_FILE_EXTENT_INLINE_DATA_START : Z;
  APFS_STRIPE_LEN : Z;
  APFS_SUPER_INFO_OFFSET : Z;
  APFS_HEADER_FLAG_RELOC : Z;
  APFS_BLOCK_GROUP_DATA : Z;
  APFS_BLOCK_GROUP_SYSTEM : Z;
  APFS_BLOCK_GROUP_METADATA : Z;
  APFS_BLOCK_GROUP_RAID1 : Z;
  APFS_BLOCK_GROUP_DUP : Z;
  APFS_BLOCK_GROUP_RAID10 : Z;
  APFS_BLOCK_GROUP_RAID5 : Z;
  APFS_BLOCK_GROUP_RAID6 : Z;
  APFS_BLOCK_GROUP_TYPE_MASK : Z;
  APFS_BLOCK_GROUP_PROFILE_MASK : Z;
  APFS_FEATURE_INCOMPAT_MIXED_GROUPS : Z;
  APFS_INODE_FLAG_MASK : Z;
  APFS_ROOT_SUBVOL_RDONLY : Z;
  APFS_ROOT_SUBVOL_DEAD : Z;
  APFS_EXTENT_FLAG_DATA : Z;
  APFS_EXTENT_FLAG_TREE_BLOCK : Z;
  APFS_BLOCK_FLAG_FULL_BACKREF : Z;
  APFS_LEAF_DATA_SIZE : apfs_fs_info -> Z;
  APFS_MAX_XATTR_SIZE : apfs_fs_info -> Z;
  apfs_fs_incompat_SKINNY_METADATA : apfs_fs_info -> bool;
  is_fstree : Z -> bool;
  (** [apfs_raid_array[i].ncopies], [.nparity] *)
  apfs_bg_flags_to_raid_index : Z -> Z;
  apfs_raid_array_ncopies : Z -> Z;
  apfs_raid_array_nparity : Z -> Z;
  (** [sizeof] and [offsetof] *)
  sizeof_apfs_file_extent_item : Z;
  sizeof_apfs_dir_item : Z;
  sizeof_apfs_block_group_item : Z;
  sizeof_apfs_chunk : Z;
  sizeof_apfs_root_item : Z;
  sizeof_apfs_extent_item : Z;
  sizeof_apfs_tree_block_info : Z;
  sizeof_apfs_extent_inline_ref : Z;
  offsetof_apfs_extent_inline_ref_offset : Z;
  sizeof_apfs_shared_data_ref : Z;
  sizeof_apfs_extent_data_ref : Z;
  sizeof_apfs_inode_ref : Z;
  sizeof_pointer : Z;
  apfs_chunk_item_size : Z -> Z;
  apfs_legacy_root_item_size : Z;
  apfs_extent_inline_ref_size : Z -> Z;
  (** block header, item table, node pointers *)
  apfs_header_level : extent_buffer -> Z;
  apfs_header_nritems : extent_buffer -> Z;
  apfs_header_owner : extent_buffer -> Z;
  apfs_header_bytenr : extent_buffer -> Z;
  apfs_header_flag : extent_buffer -> Z -> bool;
  apfs_item_key_to_cpu : extent_buffer -> Z -> apfs_key;
  apfs_item_size_nr : extent_buffer -> Z -> Z;
  apfs_item_offset_nr : extent_buffer -> Z -> Z;
  apfs_item_end_nr : extent_buffer -> Z -> Z;
  apfs_item_ptr_offset : extent_buffer -> Z -> Z;
  apfs_item_ptr : extent_buffer -> Z -> Z;
  apfs_node_blockptr : extent_buffer -> Z -> Z;
  apfs_node_key_to_cpu : extent_buffer -> Z -> apfs_key;
  read_extent_buffer : extent_buffer -> Z -> Z -> list byte;
  (** file extents *)
  apfs_file_extent_type : extent_buffer -> Z -> Z;
  apfs_file_extent_compression : extent_buffer -> Z -> Z;
  apfs_file_extent_encryption : extent_buffer -> Z -> Z;
  apfs_file_extent_ram_bytes : extent_buffer -> Z -> Z;
  apfs_file_extent_disk_bytenr : extent_buffer -> Z -> Z;
  apfs_file_extent_disk_num_bytes : extent_buffer -> Z -> Z;
  apfs_file_extent_offset : extent_buffer -> Z -> Z;
  apfs_file_extent_num_bytes : extent_buffer -> Z -> Z;
  (** directory entries *)
  apfs_dir_item_key_to_cpu : extent_buffer -> Z -> apfs_key;
  apfs_dir_type : extent_buffer -> Z -> Z;
  apfs_dir_name_len : extent_buffer -> Z -> Z;
  apfs_dir_data_len : extent_buffer -> Z -> Z;
  apfs_name_hash : list byte -> Z -> bool -> Z;
  (** block groups, chunks, devices *)
  apfs_stack_block_group_chunk_objectid : list byte -> Z;
  apfs_stack_block_group_used : list byte -> Z;
  apfs_stack_block_group_flags : list byte -> Z;
  apfs_chunk_length : extent_buffer -> Z -> Z;
  apfs_chunk_stripe_len : extent_buffer -> Z -> Z;
  apfs_chunk_num_stripes : extent_buffer -> Z -> Z;
  apfs_chunk_sub_stripes : extent_buffer -> Z -> Z;
  apfs_chunk_type : extent_buffer -> Z -> Z;
  apfs_chunk_sector_size : extent_buffer -> Z -> Z;
  apfs_device_id : extent_buffer -> Z -> Z;
  apfs_device_bytes_used : extent_buffer -> Z -> Z;
  apfs_device_total_bytes : extent_buffer -> Z -> Z;
  (** inodes and roots *)
  apfs_inode_generation : extent_buffer -> Z -> Z;
  apfs_inode_transid : extent_buffer -> Z -> Z;
  apfs_inode_mode : extent_buffer -> Z -> Z;
  apfs_inode_nlink : extent_buffer -> Z -> Z;
  apfs_inode_flags : extent_buffer -> Z -> Z;
  apfs_inode_ref_name_len : extent_buffer -> Z -> Z;
  apfs_root_generation : list byte -> Z;
  apfs_root_generation_v2 : list byte -> Z;
  apfs_root_last_snapshot : list byte -> Z;
  apfs_root_bytenr : list byte -> Z;
  apfs_root_level : list byte -> Z;
  apfs_root_drop_level : list byte -> Z;
  apfs_root_flags : list byte -> Z;
  (** extents and back references *)
  apfs_extent_flags : extent_buffer -> Z -> Z;
  apfs_extent_refs : extent_buffer -> Z -> Z;
  apfs_extent_generation : extent_buffer -> Z -> Z;
  apfs_tree_block_level : extent_buffer -> Z -> Z;
  apfs_extent_inline_ref_type : extent_buffer -> Z -> Z;
  apfs_extent_inline_ref_offset : extent_buffer -> Z -> Z;
  apfs_extent_data_ref_offset : extent_buffer -> Z -> Z;
  apfs_extent_data_ref_count : extent_buffer -> Z -> Z;
  apfs_shared_data_ref_count : extent_buffer -> Z -> Z
}.

(** Modelled from the spec: [apfs_comp_cpu_keys] of ctree.c, which is not
    among the sources: the order of keys is lexicographic on (objectid,
    type, offset); the result is negative, zero or positive. *)
Definition apfs_comp_cpu_keys (eb : extent_buffer) (k1 k2 : apfs_key) : Z :=
  if objectid k2 <? objectid k1 then 1
  else if objectid k1 <? objectid k2 then -1
  else if type k2 <? type k1 then 1
  else if type k1 <? type k2 then -1
  else if offset k2 <? offset k1 then 1
  else if offset k1 <? offset k2 then -1
  else 0.

Module TreeChecker.

Section Checker.

Context {C : ctree}.
Local Open Scope run_scope.

(** [ASSERT(c)] *)
Definition ASSERT (c : bool) : run unit :=
  if CONFIG_APFS_ASSERT && negb c then AssertionFailed else Returns tt.

(** *** The reporters *)

Definition block_kind (eb : extent_buffer) : string :=
  if apfs_header_level eb =? 0 then "leaf" else "node".

Definition generic_err (eb : extent_buffer) (slot : Z) (fmt : string)
  : log_entry :=
  {| log_head := "corrupt %s: root=%llu block=%llu slot=%d, %pV";
     log_sargs := [block_kind eb];
     log_args := [apfs_header_owner eb; apfs_header_bytenr eb; slot];
     log_slot := slot;
     log_fmt := fmt |}.

Definition file_extent_err (eb : extent_buffer) (slot : Z) (fmt : string)
  : log_entry :=
  let key := apfs_item_key_to_cpu eb slot in
  {| log_head :=
       "corrupt %s: root=%llu block=%llu slot=%d ino=%llu file_offset=%llu, %pV";
     log_sargs := [block_kind eb];
     log_args := [apfs_header_owner eb; apfs_header_bytenr eb; slot;
                  objectid key; offset key];
     log_slot := slot;
     log_fmt := fmt |}.

(** [CHECK_FE_ALIGNED(leaf, slot, fi, name, alignment)]: [field] is
    [apfs_file_extent_##name]. The value is 1 when the field is not
    aligned. *)
Definition CHECK_FE_ALIGNED (leaf : extent_buffer) (slot fi : Z)
  (field : extent_buffer -> Z -> Z) (name : string) (alignment : Z)
  : bool * list log_entry :=
  if negb (IS_ALIGNED (field leaf fi) alignment) then
    let e := file_extent_err leaf slot
               "invalid %s for file extent, have %llu, should be aligned to %u" in
    (true, [{| log_head := log_head e; log_sargs := log_sargs e ++ [name];
               log_args := log_args e; log_slot := log_slot e;
               log_fmt := log_fmt e |}])
  else (false, []).

(** [a || b] on two such values: [b] is evaluated when [a] is 0. *)
Definition or_else (a b : bool * list log_entry) : bool * list log_entry :=
  if fst a then a else (fst b, snd a ++ snd b).

Definition file_extent_end (leaf : extent_buffer) (key : apfs_key)
  (extent : Z) : Z :=
  if apfs_file_extent_type leaf extent =? APFS_FILE_EXTENT_INLINE then
    let len := apfs_file_extent_ram_bytes leaf extent in
    ALIGN (u64 (offset key + len)) (sectorsize (fs_info leaf))
  else
    let len := apfs_file_extent_num_bytes leaf extent in
    u64 (offset key + len).

Definition dir_item_err (eb : extent_buffer) (slot : Z) (fmt : string)
  : log_entry :=
  let key := apfs_item_key_to_cpu eb slot in
  {| log_head := "corrupt %s: root=%llu block=%llu slot=%d ino=%llu, %pV";
     log_sargs := [block_kind eb];
     log_args := [apfs_header_owner eb; apfs_header_bytenr eb; slot;
                  objectid key];
     log_slot := slot;
     log_fmt := fmt |}.

Definition check_prev_ino (leaf : extent_buffer) (key : apfs_key) (slot : Z)
  (prev_key : apfs_key) : run (bool * list log_entry) :=
  if slot =? 0 then Returns (true, [])
  else
    _ <~ ASSERT ((type key =? APFS_XATTR_ITEM_KEY)
                 || (type key =? APFS_INODE_REF_KEY)
                 || (type key =? APFS_DIR_INDEX_KEY)
                 || (type key =? APFS_DIR_ITEM_KEY)
                 || (type key =? APFS_EXTENT_DATA_KEY)) ;;
    if negb (is_fstree (apfs_header_owner leaf)) then Returns (true, [])
    else if objectid key =? objectid prev_key then Returns (true, [])
    else
      Returns (false,
        [dir_item_err leaf slot
           "invalid previous key objectid, have %llu expect %llu"]).

Definition check_extent_data_item (leaf : extent_buffer) (key : apfs_key)
  (slot : Z) (prev_key : apfs_key) : run verdict :=
  let fs_info := fs_info leaf in
  let sectorsize := u32 (sectorsize fs_info) in
  let item_size := u32 (apfs_item_size_nr leaf slot) in
  if negb (IS_ALIGNED (offset key) sectorsize) then
    Returns (corrupt (file_extent_err leaf slot
      "unaligned file_offset for file extent, have %llu should be aligned to %u"))
  else
  prev <~ check_prev_ino leaf key slot prev_key ;;
  if negb (fst prev) then Returns (- EUCLEAN, snd prev)
  else
  let fi := apfs_item_ptr leaf slot in
  if item_size <? APFS_FILE_EXTENT_INLINE_DATA_START then
    Returns (corrupt (file_extent_err leaf slot
      "invalid item size, have %u expect [%zu, %u)"))
  else if APFS_NR_FILE_EXTENT_TYPES <=? apfs_file_extent_type leaf fi then
    Returns (corrupt (file_extent_err leaf slot
      "invalid type for file extent, have %u expect range [0, %u]"))
  else if APFS_NR_COMPRESS_TYPES <=? apfs_file_extent_compression leaf fi then
    Returns (corrupt (file_extent_err leaf slot
      "invalid compression for file extent, have %u expect range [0, %u]"))
  else if negb (apfs_file_extent_encryption leaf fi =? 0) then
    Returns (corrupt (file_extent_err leaf slot
      "invalid encryption for file extent, have %u expect 0"))
  else if apfs_file_extent_type leaf fi =? APFS_FILE_EXTENT_INLINE then
    if negb (offset key =? 0) then
      Returns (corrupt (file_extent_err leaf slot
        "invalid file_offset for inline file extent, have %llu expect 0"))
    else if negb (apfs_file_extent_compression leaf fi =? APFS_COMPRESS_NONE)
    then Returns OK
    else if negb (item_size =?
                  u64 (APFS_FILE_EXTENT_INLINE_DATA_START
                       + apfs_file_extent_ram_bytes leaf fi)) then
      Returns (corrupt (file_extent_err leaf slot
        "invalid ram_bytes for uncompressed inline extent, have %u expect %llu"))
    else Returns OK
  else if negb (item_size =? sizeof_apfs_file_extent_item) then
    Returns (corrupt (file_extent_err leaf slot
      "invalid item size for reg/prealloc file extent, have %u expect %zu"))
  else
  let unaligned :=
    or_else (CHECK_FE_ALIGNED leaf slot fi apfs_file_extent_ram_bytes
               "ram_bytes" sectorsize)
   (or_else (CHECK_FE_ALIGNED leaf slot fi apfs_file_extent_disk_bytenr
               "disk_bytenr" sectorsize)
   (or_else (CHECK_FE_ALIGNED leaf slot fi apfs_file_extent_disk_num_bytes
               "disk_num_bytes" sectorsize)
   (or_else (CHECK_FE_ALIGNED leaf slot fi apfs_file_extent_offset
               "offset" sectorsize)
            (CHECK_FE_ALIGNED leaf slot fi apfs_file_extent_num_bytes
               "num_bytes" sectorsize)))) in
  if fst unaligned then Returns (- EUCLEAN, snd unaligned)
  else
  let '(overflow, extent_end) :=
    check_add_overflow (apfs_file_extent_num_bytes leaf fi) (offset key) in
  if overflow then
    Returns (corrupt (file_extent_err leaf slot
      "extent end overflow, have file offset %llu extent num bytes %llu"))
  else
  if (0 <? slot) && (objectid prev_key =? objectid key)
     && (type prev_key =? APFS_EXTENT_DATA_KEY) then
    let prev_fi := apfs_item_ptr leaf (slot - 1) in
    let prev_end := file_extent_end leaf prev_key prev_fi in
    if offset key <? prev_end then
      Returns (corrupt (file_extent_err leaf (slot - 1)
        "file extent end range (%llu) goes beyond start offset (%llu) of the next file extent"))
    else Returns OK
  else Returns OK.

Definition check_csum_item (leaf : extent_buffer) (key : apfs_key) (slot : Z)
  (prev_key : apfs_key) : verdict :=
  let fs_info := fs_info leaf in
  let sectorsize := u32 (sectorsize fs_info) in
  let csumsize := u32 (csum_size fs_info) in
  if negb (objectid key =? APFS_EXTENT_CSUM_OBJECTID) then
    corrupt (generic_err leaf slot
      "invalid key objectid for csum item, have %llu expect %llu")
  else if negb (IS_ALIGNED (offset key) sectorsize) then
    corrupt (generic_err leaf slot
      "unaligned key offset for csum item, have %llu should be aligned to %u")
  else if negb (IS_ALIGNED (apfs_item_size_nr leaf slot) csumsize) then
    corrupt (generic_err leaf slot
      "unaligned item size for csum item, have %u should be aligned to %u")
  else if (0 <? slot) && (type prev_key =? APFS_EXTENT_CSUM_KEY) then
    let prev_item_size := u32 (apfs_item_size_nr leaf (slot - 1)) in
    let prev_csum_end := u32 ((prev_item_size / csumsize) * sectorsize) in
    let prev_csum_end := u64 (prev_csum_end + offset prev_key) in
    if offset key <? prev_csum_end then
      corrupt (generic_err leaf (slot - 1)
        "csum end range (%llu) goes beyond the start range (%llu) of the next csum item")
    else OK
  else OK.

(** [inode_item_err] is [dir_item_err]. *)
Definition inode_item_err := dir_item_err.

Definition check_inode_key (leaf : extent_buffer) (key : apfs_key) (slot : Z)
  : verdict :=
  let item_key := apfs_item_key_to_cpu leaf slot in
  let is_inode_item := type item_key =? APFS_INODE_ITEM_KEY in
  if type item_key =? APFS_XATTR_ITEM_KEY then
    if negb (objectid key =? 0) || negb (type key =? 0)
       || negb (offset key =? 0)
    then (- EUCLEAN, [])
    else OK
  else if ((objectid key <? APFS_FIRST_FREE_OBJECTID)
           || (APFS_LAST_FREE_OBJECTID <? objectid key))
          && negb (objectid key =? APFS_ROOT_TREE_DIR_OBJECTID)
          && negb (objectid key =? APFS_FREE_INO_OBJECTID) then
    if is_inode_item then
      corrupt (generic_err leaf slot
        "invalid key objectid: has %llu expect %llu or [%llu, %llu] or %llu")
    else
      corrupt (dir_item_err leaf slot
        "invalid location key objectid: has %llu expect %llu or [%llu, %llu] or %llu")
  else if negb (offset key =? 0) then
    if is_inode_item then
      corrupt (inode_item_err leaf slot "invalid key offset: has %llu expect 0")
    else
      corrupt (dir_item_err leaf slot
        "invalid location key offset:has %llu expect 0")
  else OK.

Definition check_root_key (leaf : extent_buffer) (key : apfs_key) (slot : Z)
  : verdict :=
  let item_key := apfs_item_key_to_cpu leaf slot in
  let is_root_item := type item_key =? APFS_ROOT_ITEM_KEY in
  if objectid key =? 0 then
    if is_root_item then corrupt (generic_err leaf slot "invalid root id 0")
    else corrupt (dir_item_err leaf slot "invalid location key root id 0")
  else if negb (is_fstree (objectid key)) && negb is_root_item then
    corrupt (dir_item_err leaf slot
      "invalid location key objectid, have %llu expect [%llu, %llu]")
  else if (objectid key =? APFS_TREE_RELOC_OBJECTID) && (offset key =? 0) then
    corrupt (generic_err leaf slot "invalid root id 0 for reloc tree")
  else OK.

(** The [while (cur < item_size)] loop of [check_dir_item] and the
    [return 0;] after it. *)
Fixpoint check_dir_item_loop (fuel : nat) (leaf : extent_buffer)
  (key : apfs_key) (slot item_size cur di : Z) : run verdict :=
  if negb (cur <? item_size) then Returns OK
  else
  match fuel with
  | O => OutOfFuel
  | S fuel' =>
    let fs_info := fs_info leaf in
    if item_size <? cur + sizeof_apfs_dir_item then
      Returns (corrupt (dir_item_err leaf slot
        "dir item header crosses item boundary, have %zu boundary %u"))
    else
    let location_key := apfs_dir_item_key_to_cpu leaf di in
    let ret :=
      if type location_key =? APFS_ROOT_ITEM_KEY then
        check_root_key leaf location_key slot
      else if (type location_key =? APFS_INODE_ITEM_KEY)
              || (type location_key =? 0) then
        check_inode_key leaf location_key slot
      else
        corrupt (dir_item_err leaf slot
          "invalid location key type, have %u, expect %u or %u") in
    if fst ret <? 0 then Returns ret
    else
    let dir_type := u8 (apfs_dir_type leaf di) in
    if APFS_FT_MAX <=? dir_type then
      Returns (corrupt (dir_item_err leaf slot
        "invalid dir item type, have %u expect [0, %u)"))
    else if (type key =? APFS_XATTR_ITEM_KEY)
            && negb (dir_type =? APFS_FT_XATTR) then
      Returns (corrupt (dir_item_err leaf slot
        "invalid dir item type for XATTR key, have %u expect %u"))
    else if (dir_type =? APFS_FT_XATTR)
            && negb (type key =? APFS_XATTR_ITEM_KEY) then
      Returns (corrupt (dir_item_err leaf slot
        "xattr dir type found for non-XATTR key"))
    else
    let max_name_len :=
      if dir_type =? APFS_FT_XATTR then XATTR_NAME_MAX else APFS_NAME_LEN in
    let name_len := u32 (apfs_dir_name_len leaf di) in
    let data_len := u32 (apfs_dir_data_len leaf di) in
    if max_name_len <? name_len then
      Returns (corrupt (dir_item_err leaf slot
        "dir item name len too long, have %u max %u"))
    else if APFS_MAX_XATTR_SIZE fs_info <? u32 (name_len + data_len) then
      Returns (corrupt (dir_item_err leaf slot
        "dir item name and data len too long, have %u max %u"))
    else if negb (data_len =? 0) && negb (dir_type =? APFS_FT_XATTR) then
      Returns (corrupt (dir_item_err leaf slot
        "dir item with invalid data len, have %u expect 0"))
    else
    let total_size := u32 (sizeof_apfs_dir_item + name_len + data_len) in
    if item_size <? u32 (cur + total_size) then
      Returns (corrupt (dir_item_err leaf slot
        "dir item data crosses item boundary, have %u boundary %u"))
    else
    let hash_mismatch :=
      if (type key =? APFS_DIR_ITEM_KEY) || (type key =? APFS_XATTR_ITEM_KEY)
      then
        let namebuf :=
          read_extent_buffer leaf (di + sizeof_apfs_dir_item) name_len in
        let name_hash :=
          u32 (apfs_name_hash namebuf name_len
                 (apfs_is_case_insensitive (__super_copy fs_info))) in
        negb (offset key =? name_hash)
      else false in
    if hash_mismatch then
      Returns (corrupt (dir_item_err leaf slot
        "name hash mismatch with key, have 0x%016x expect 0x%016llx"))
    else
      check_dir_item_loop fuel' leaf key slot item_size
        (u32 (cur + total_size)) (di + total_size)
  end.

(** A round that passes moves [cur] forward; the fuel is the size of the
    item. *)
Definition check_dir_item (leaf : extent_buffer) (key prev_key : apfs_key)
  (slot : Z) : run verdict :=
  let item_size := u32 (apfs_item_size_nr leaf slot) in
  let cur := 0 in
  prev <~ check_prev_ino leaf key slot prev_key ;;
  if negb (fst prev) then Returns (- EUCLEAN, snd prev)
  else
    let di := apfs_item_ptr leaf slot in
    check_dir_item_loop (Z.to_nat item_size) leaf key slot item_size cur di.

Definition block_group_err (eb : extent_buffer) (slot : Z) (fmt : string)
  : log_entry :=
  let key := apfs_item_key_to_cpu eb slot in
  {| log_head :=
       "corrupt %s: root=%llu block=%llu slot=%d bg_start=%llu bg_len=%llu, %pV";
     log_sargs := [block_kind eb];
     log_args := [apfs_header_owner eb; apfs_header_bytenr eb; slot;
                  objectid key; offset key];
     log_slot := slot;
     log_fmt := fmt |}.

Definition check_block_group_item (leaf : extent_buffer) (key : apfs_key)
  (slot : Z) : verdict :=
  let item_size := u32 (apfs_item_size_nr leaf slot) in
  if offset key =? 0 then
    corrupt (block_group_err leaf slot "invalid block group size 0")
  else if negb (item_size =? sizeof_apfs_block_group_item) then
    corrupt (block_group_err leaf slot "invalid item size, have %u expect %zu")
  else
  let bgi := read_extent_buffer leaf (apfs_item_ptr_offset leaf slot)
               sizeof_apfs_block_group_item in
  if negb (apfs_stack_block_group_chunk_objectid bgi
           =? APFS_FIRST_CHUNK_TREE_OBJECTID) then
    corrupt (block_group_err leaf slot
      "invalid block group chunk objectid, have %llu expect %llu")
  else if offset key <? apfs_stack_block_group_used bgi then
    corrupt (block_group_err leaf slot
      "invalid block group used, have %llu expect [0, %llu)")
  else
  let flags := u64 (apfs_stack_block_group_flags bgi) in
  if 1 <? hweight64 (Z.land flags APFS_BLOCK_GROUP_PROFILE_MASK) then
    corrupt (block_group_err leaf slot
      "invalid profile flags, have 0x%llx (%lu bits set) expect no more than 1 bit set")
  else
  let type := Z.land flags APFS_BLOCK_GROUP_TYPE_MASK in
  if negb (type =? APFS_BLOCK_GROUP_DATA)
     && negb (type =? APFS_BLOCK_GROUP_METADATA)
     && negb (type =? APFS_BLOCK_GROUP_SYSTEM)
     && negb (type =? Z.lor APFS_BLOCK_GROUP_METADATA APFS_BLOCK_GROUP_DATA)
  then
    corrupt (block_group_err leaf slot
      "invalid type, have 0x%llx (%lu bits set) expect either 0x%llx, 0x%llx, 0x%llx or 0x%llx")
  else OK.

(** The slot search of [chunk_err]: the first [i] from [i] on, [n] slots
    left, whose item starts at [chunk]; -1 when there is none. *)
Fixpoint chunk_err_slot (n : nat) (leaf : extent_buffer) (chunk i : Z) : Z :=
  match n with
  | O => -1
  | S n' =>
      if apfs_item_ptr_offset leaf i =? chunk then i
      else chunk_err_slot n' leaf chunk (i + 1)
  end.

Definition chunk_err (leaf : extent_buffer) (chunk logical : Z) (fmt : string)
  : log_entry :=
  let is_sb := start leaf =? APFS_SUPER_INFO_OFFSET in
  let slot :=
    if negb is_sb
    then chunk_err_slot (Z.to_nat (apfs_header_nritems leaf)) leaf chunk 0
    else -1 in
  if is_sb then
    {| log_head := "corrupt superblock syschunk array: chunk_start=%llu, %pV";
       log_sargs := [];
       log_args := [logical];
       log_slot := slot;
       log_fmt := fmt |}
  else
    {| log_head :=
         "corrupt leaf: root=%llu block=%llu slot=%d chunk_start=%llu, %pV";
       log_sargs := [];
       log_args := [APFS_CHUNK_TREE_OBJECTID; start leaf; slot; logical];
       log_slot := slot;
       log_fmt := fmt |}.

Definition apfs_check_chunk_valid (leaf : extent_buffer) (chunk logical : Z)
  : verdict :=
  let fs_info := fs_info leaf in
  let length := u64 (apfs_chunk_length leaf chunk) in
  let stripe_len := u64 (apfs_chunk_stripe_len leaf chunk) in
  let num_stripes := u16 (apfs_chunk_num_stripes leaf chunk) in
  let sub_stripes := u16 (apfs_chunk_sub_stripes leaf chunk) in
  let type := u64 (apfs_chunk_type leaf chunk) in
  let raid_index := apfs_bg_flags_to_raid_index type in
  let ncopies := apfs_raid_array_ncopies raid_index in
  let nparity := apfs_raid_array_nparity raid_index in
  if num_stripes =? 0 then
    corrupt (chunk_err leaf chunk logical "invalid chunk num_stripes, have %u")
  else if num_stripes <? ncopies then
    corrupt (chunk_err leaf chunk logical
      "invalid chunk num_stripes < ncopies, have %u < %d")
  else if negb (nparity =? 0) && (num_stripes =? nparity) then
    corrupt (chunk_err leaf chunk logical
      "invalid chunk num_stripes == nparity, have %u == %d")
  else if negb (IS_ALIGNED logical (sectorsize fs_info)) then
    corrupt (chunk_err leaf chunk logical
      "invalid chunk logical, have %llu should aligned to %u")
  else if negb (apfs_chunk_sector_size leaf chunk =? sectorsize fs_info) then
    corrupt (chunk_err leaf chunk logical
      "invalid chunk sectorsize, have %u expect %u")
  else if (length =? 0) || negb (IS_ALIGNED length (sectorsize fs_info)) then
    corrupt (chunk_err leaf chunk logical "invalid chunk length, have %llu")
  else if fst (check_add_overflow logical length) then
    corrupt (chunk_err leaf chunk logical
      "invalid chunk logical start and length, have logical start %llu length %llu")
  else if negb (is_power_of_2 stripe_len)
          || negb (stripe_len =? APFS_STRIPE_LEN) then
    corrupt (chunk_err leaf chunk logical "invalid chunk stripe length: %llu")
  else if negb (Z.land type
                  (Z.lnot (Z.lor APFS_BLOCK_GROUP_TYPE_MASK
                             APFS_BLOCK_GROUP_PROFILE_MASK)) =? 0) then
    corrupt (chunk_err leaf chunk logical "unrecognized chunk type: 0x%llx")
  else if negb (has_single_bit_set (Z.land type APFS_BLOCK_GROUP_PROFILE_MASK))
          && negb (Z.land type APFS_BLOCK_GROUP_PROFILE_MASK =? 0) then
    corrupt (chunk_err leaf chunk logical
      "invalid chunk profile flag: 0x%llx, expect 0 or 1 bit set")
  else if Z.land type APFS_BLOCK_GROUP_TYPE_MASK =? 0 then
    corrupt (chunk_err leaf chunk logical
      "missing chunk type flag, have 0x%llx one bit must be set in 0x%llx")
  else if negb (Z.land type APFS_BLOCK_GROUP_SYSTEM =? 0)
          && negb (Z.land type (Z.lor APFS_BLOCK_GROUP_METADATA
                                  APFS_BLOCK_GROUP_DATA) =? 0) then
    corrupt (chunk_err leaf chunk logical
      "system chunk with data or metadata type: 0x%llx")
  else
  let features := u64 (apfs_super_incompat_flags (super_copy fs_info)) in
  let mixed :=
    negb (Z.land features APFS_FEATURE_INCOMPAT_MIXED_GROUPS =? 0) in
  if negb mixed
     && negb (Z.land type APFS_BLOCK_GROUP_METADATA =? 0)
     && negb (Z.land type APFS_BLOCK_GROUP_DATA =? 0) then
    corrupt (chunk_err leaf chunk logical
      "mixed chunk type in non-mixed mode: 0x%llx")
  else if (negb (Z.land type APFS_BLOCK_GROUP_RAID10 =? 0)
             && negb (sub_stripes =? 2))
          || (negb (Z.land type APFS_BLOCK_GROUP_RAID1 =? 0)
                && negb (num_stripes =? 2))
          || (negb (Z.land type APFS_BLOCK_GROUP_RAID5 =? 0)
                && (num_stripes <? 2))
          || (negb (Z.land type APFS_BLOCK_GROUP_RAID6 =? 0)
                && (num_stripes <? 3))
          || (negb (Z.land type APFS_BLOCK_GROUP_DUP =? 0)
                && negb (num_stripes =? 2))
          || ((Z.land type APFS_BLOCK_GROUP_PROFILE_MASK =? 0)
                && negb (num_stripes =? 1)) then
    corrupt (chunk_err leaf chunk logical
      "invalid num_stripes:sub_stripes %u:%u for profile %llu")
  else OK.

Definition check_leaf_chunk_item (leaf : extent_buffer) (chunk : Z)
  (key : apfs_key) (slot : Z) : verdict :=
  if apfs_item_size_nr leaf slot <? sizeof_apfs_chunk then
    corrupt (chunk_err leaf chunk (offset key)
      "invalid chunk item size: have %u expect [%zu, %u)")
  else
  let num_stripes := apfs_chunk_num_stripes leaf chunk in
  if num_stripes =? 0 then apfs_check_chunk_valid leaf chunk (offset key)
  else if negb (apfs_chunk_item_size num_stripes
                =? apfs_item_size_nr leaf slot) then
    corrupt (chunk_err leaf chunk (offset key)
      "invalid chunk item size: have %u expect %lu")
  else apfs_check_chunk_valid leaf chunk (offset key).

Definition dev_item_err (eb : extent_buffer) (slot : Z) (fmt : string)
  : log_entry :=
  let key := apfs_item_key_to_cpu eb slot in
  {| log_head := "corrupt %s: root=%llu block=%llu slot=%d devid=%llu %pV";
     log_sargs := [block_kind eb];
     log_args := [apfs_header_owner eb; apfs_header_bytenr eb; slot;
                  objectid key];
     log_slot := slot;
     log_fmt := fmt |}.

Definition check_dev_item (leaf : extent_buffer) (key : apfs_key) (slot : Z)
  : verdict :=
  if negb (objectid key =? APFS_DEV_ITEMS_OBJECTID) then
    corrupt (dev_item_err leaf slot "invalid objectid: has=%llu expect=%llu")
  else
  let ditem := apfs_item_ptr leaf slot in
  if negb (apfs_device_id leaf ditem =? offset key) then
    corrupt (dev_item_err leaf slot
      "devid mismatch: key has=%llu item has=%llu")
  else if apfs_device_total_bytes leaf ditem
          <? apfs_device_bytes_used leaf ditem then
    corrupt (dev_item_err leaf slot
      "invalid bytes used: have %llu expect [0, %llu]")
  else OK.

Definition check_inode_item (leaf : extent_buffer) (key : apfs_key) (slot : Z)
  : verdict :=
  let fs_info := fs_info leaf in
  let super_gen := u64 (apfs_super_generation (super_copy fs_info)) in
  let valid_mask :=
    Z.lor (Z.lor (Z.lor (Z.lor S_IFMT S_ISUID) S_ISGID) S_ISVTX) 511 in
  let ret := check_inode_key leaf key slot in
  if fst ret <? 0 then ret
  else
  let iitem := apfs_item_ptr leaf slot in
  if u64 (super_gen + 1) <? apfs_inode_generation leaf iitem then
    corrupt (inode_item_err leaf slot
      "invalid inode generation: has %llu expect (0, %llu]")
  else if u64 (super_gen + 1) <? apfs_inode_transid leaf iitem then
    corrupt (inode_item_err leaf slot
      "invalid inode transid: has %llu expect [0, %llu]")
  else
  let mode := u32 (apfs_inode_mode leaf iitem) in
  if negb (Z.land mode (Z.lnot valid_mask) =? 0) then
    corrupt (inode_item_err leaf slot "unknown mode bit detected: 0x%x")
  else if negb (has_single_bit_set (Z.land mode S_IFMT))
          && (negb (S_ISLNK mode) && negb (S_ISBLK mode)
              && negb (S_ISSOCK mode)) then
    corrupt (inode_item_err leaf slot
      "invalid mode: has 0%o expect valid S_IF* bit(s)")
  else if S_ISDIR mode && (1 <? apfs_inode_nlink leaf iitem) then
    corrupt (inode_item_err leaf slot
      "invalid nlink: has %u expect no more than 1 for dir")
  else if negb (Z.land (apfs_inode_flags leaf iitem)
                  (Z.lnot APFS_INODE_FLAG_MASK) =? 0) then
    corrupt (inode_item_err leaf slot "unknown flags detected: 0x%llx")
  else OK.

Definition check_root_item (leaf : extent_buffer) (key : apfs_key) (slot : Z)
  : verdict :=
  let fs_info := fs_info leaf in
  let valid_root_flags := Z.lor APFS_ROOT_SUBVOL_RDONLY APFS_ROOT_SUBVOL_DEAD in
  let ret := check_root_key leaf key slot in
  if fst ret <? 0 then ret
  else if negb (apfs_item_size_nr leaf slot =? sizeof_apfs_root_item)
          && negb (apfs_item_size_nr leaf slot =? apfs_legacy_root_item_size)
  then
    corrupt (generic_err leaf slot
      "invalid root item size, have %u expect %zu or %u")
  else
  (* [ri] starts as zeros; the item is copied over its first bytes *)
  let ri :=
    read_extent_buffer leaf (apfs_item_ptr_offset leaf slot)
      (apfs_item_size_nr leaf slot)
    ++ repeat Byte.x00
         (Z.to_nat (sizeof_apfs_root_item - apfs_item_size_nr leaf slot)) in
  let gen_max := u64 (apfs_super_generation (super_copy fs_info) + 1) in
  if gen_max <? apfs_root_generation ri then
    corrupt (generic_err leaf slot
      "invalid root generation, have %llu expect (0, %llu]")
  else if gen_max <? apfs_root_generation_v2 ri then
    corrupt (generic_err leaf slot
      "invalid root v2 generation, have %llu expect (0, %llu]")
  else if gen_max <? apfs_root_last_snapshot ri then
    corrupt (generic_err leaf slot
      "invalid root last_snapshot, have %llu expect (0, %llu]")
  else if negb (IS_ALIGNED (apfs_root_bytenr ri) (sectorsize fs_info)) then
    corrupt (generic_err leaf slot
      "invalid root bytenr, have %llu expect to be aligned to %u")
  else if APFS_MAX_LEVEL <=? apfs_root_level ri then
    corrupt (generic_err leaf slot "invalid root level, have %u expect [0, %u]")
  else if APFS_MAX_LEVEL <=? apfs_root_drop_level ri then
    corrupt (generic_err leaf slot "invalid root level, have %u expect [0, %u]")
  else if negb (Z.land (apfs_root_flags ri) (Z.lnot valid_root_flags) =? 0) then
    corrupt (generic_err leaf slot
      "invalid root flags, have 0x%llx expect mask 0x%llx")
  else OK.

Definition extent_err (eb : extent_buffer) (slot : Z) (fmt : string)
  : log_entry :=
  let key := apfs_item_key_to_cpu eb slot in
  let bytenr := objectid key in
  let len :=
    if (type key =? APFS_METADATA_ITEM_KEY)
       || (type key =? APFS_TREE_BLOCK_REF_KEY)
       || (type key =? APFS_SHARED_BLOCK_REF_KEY)
    then nodesize (fs_info eb) else offset key in
  {| log_head :=
       "corrupt %s: block=%llu slot=%d extent bytenr=%llu len=%llu %pV";
     log_sargs := [block_kind eb];
     log_args := [start eb; slot; bytenr; len];
     log_slot := slot;
     log_fmt := fmt |}.

(** The [while (ptr < end)] loop of [check_extent_item] over the inline
    references. [inl v]: the function returned [v] from inside the loop;
    [inr (ptr, inline_refs)]: the loop ended with these values. *)
Fixpoint check_inline_refs (fuel : nat) (leaf : extent_buffer)
  (slot end_ ptr inline_refs : Z) : run (verdict + Z * Z) :=
  if negb (ptr <? end_) then Returns (inr (ptr, inline_refs))
  else
  match fuel with
  | O => OutOfFuel
  | S fuel' =>
    let fs_info := fs_info leaf in
    if end_ <? ulong (ptr + sizeof_apfs_extent_inline_ref) then
      Returns (inl (corrupt (extent_err leaf slot
        "inline ref item overflows extent item, ptr %lu iref size %zu end %lu")))
    else
    let iref := ptr in
    let inline_type := u8 (apfs_extent_inline_ref_type leaf iref) in
    let inline_offset := u64 (apfs_extent_inline_ref_offset leaf iref) in
    if end_ <? ulong (ptr + apfs_extent_inline_ref_size inline_type) then
      Returns (inl (corrupt (extent_err leaf slot
        "inline ref item overflows extent item, ptr %lu iref size %u end %lu")))
    else
    let switch : verdict + Z :=
      if inline_type =? APFS_TREE_BLOCK_REF_KEY then
        inr (u64 (inline_refs + 1))
      else if inline_type =? APFS_SHARED_BLOCK_REF_KEY then
        if negb (IS_ALIGNED inline_offset (sectorsize fs_info)) then
          inl (corrupt (extent_err leaf slot
            "invalid tree parent bytenr, have %llu expect aligned to %u"))
        else inr (u64 (inline_refs + 1))
      else if inline_type =? APFS_EXTENT_DATA_REF_KEY then
        let dref := iref + offsetof_apfs_extent_inline_ref_offset in
        let dref_offset := u64 (apfs_extent_data_ref_offset leaf dref) in
        if negb (IS_ALIGNED dref_offset (sectorsize fs_info)) then
          inl (corrupt (extent_err leaf slot
            "invalid data ref offset, have %llu expect aligned to %u"))
        else inr (u64 (inline_refs + apfs_extent_data_ref_count leaf dref))
      else if inline_type =? APFS_SHARED_DATA_REF_KEY then
        let sref := iref + sizeof_apfs_extent_inline_ref in
        if negb (IS_ALIGNED inline_offset (sectorsize fs_info)) then
          inl (corrupt (extent_err leaf slot
            "invalid data parent bytenr, have %llu expect aligned to %u"))
        else inr (u64 (inline_refs + apfs_shared_data_ref_count leaf sref))
      else
        inl (corrupt (extent_err leaf slot "unknown inline ref type: %u")) in
    match switch with
    | inl v => Returns (inl v)
    | inr inline_refs =>
        check_inline_refs fuel' leaf slot end_
          (ulong (ptr + apfs_extent_inline_ref_size inline_type)) inline_refs
    end
  end.

(** Each round of the loop moves [ptr] forward by the size of a reference;
    the fuel is the distance to [end]. *)
Definition check_extent_item (leaf : extent_buffer) (key : apfs_key)
  (slot : Z) : run verdict :=
  let fs_info := fs_info leaf in
  let item_size := u32 (apfs_item_size_nr leaf slot) in
  let inline_refs := 0 in
  if (type key =? APFS_METADATA_ITEM_KEY)
     && negb (apfs_fs_incompat_SKINNY_METADATA fs_info) then
    Returns (corrupt (generic_err leaf slot
      "invalid key type, METADATA_ITEM type invalid when SKINNY_METADATA feature disabled"))
  else if negb (IS_ALIGNED (objectid key) (sectorsize fs_info)) then
    Returns (corrupt (generic_err leaf slot
      "invalid key objectid, have %llu expect to be aligned to %u"))
  else if (type key =? APFS_METADATA_ITEM_KEY)
          && (APFS_MAX_LEVEL <=? offset key) then
    Returns (corrupt (extent_err leaf slot
      "invalid tree level, have %llu expect [0, %u]"))
  else if item_size <? sizeof_apfs_extent_item then
    Returns (corrupt (extent_err leaf slot
      "invalid item size, have %u expect [%zu, %u)"))
  else
  let end_ := ulong (item_size + apfs_item_ptr_offset leaf slot) in
  let ei := apfs_item_ptr leaf slot in
  let flags := u64 (apfs_extent_flags leaf ei) in
  let total_refs := u64 (apfs_extent_refs leaf ei) in
  let generation := u64 (apfs_extent_generation leaf ei) in
  if u64 (apfs_super_generation (super_copy fs_info) + 1) <? generation then
    Returns (corrupt (extent_err leaf slot
      "invalid generation, have %llu expect (0, %llu]"))
  else if negb (has_single_bit_set
                  (Z.land flags (Z.lor APFS_EXTENT_FLAG_DATA
                                   APFS_EXTENT_FLAG_TREE_BLOCK))) then
    Returns (corrupt (extent_err leaf slot
      "invalid extent flag, have 0x%llx expect 1 bit set in 0x%llx"))
  else
  let is_tree_block := negb (Z.land flags APFS_EXTENT_FLAG_TREE_BLOCK =? 0) in
  let flag_err : option verdict :=
    if is_tree_block then
      if (type key =? APFS_EXTENT_ITEM_KEY)
         && negb (offset key =? nodesize fs_info) then
        Some (corrupt (extent_err leaf slot
          "invalid extent length, have %llu expect %u"))
      else None
    else
      if negb (type key =? APFS_EXTENT_ITEM_KEY) then
        Some (corrupt (extent_err leaf slot
          "invalid key type, have %u expect %u for data backref"))
      else if negb (IS_ALIGNED (offset key) (sectorsize fs_info)) then
        Some (corrupt (extent_err leaf slot
          "invalid extent length, have %llu expect aligned to %u"))
      else if negb (Z.land flags APFS_BLOCK_FLAG_FULL_BACKREF =? 0) then
        Some (corrupt (extent_err leaf slot
          "invalid extent flag, data has full backref set"))
      else None in
  match flag_err with
  | Some v => Returns v
  | None =>
  let ptr := ulong (ei + sizeof_apfs_extent_item) in
  let info_err : verdict + Z :=
    if is_tree_block && negb (type key =? APFS_METADATA_ITEM_KEY) then
      let info := ptr in
      if APFS_MAX_LEVEL <=? apfs_tree_block_level leaf info then
        inl (corrupt (extent_err leaf slot
          "invalid tree block info level, have %u expect [0, %u]"))
      else inr (ulong (info + sizeof_apfs_tree_block_info))
    else inr ptr in
  match info_err with
  | inl v => Returns v
  | inr ptr =>
  r <~ check_inline_refs (Z.to_nat (end_ - ptr)) leaf slot end_ ptr
         inline_refs ;;
  match r with
  | inl v => Returns v
  | inr (ptr, inline_refs) =>
      if negb (ptr =? end_) then
        Returns (corrupt (extent_err leaf slot
          "invalid extent item size, padding bytes found"))
      else if total_refs <? inline_refs then
        Returns (corrupt (extent_err leaf slot
          "invalid extent refs, have %llu expect >= inline %llu"))
      else Returns OK
  end
  end
  end.

Definition check_simple_keyed_refs (leaf : extent_buffer) (key : apfs_key)
  (slot : Z) : verdict :=
  let expect_item_size :=
    if type key =? APFS_SHARED_DATA_REF_KEY then sizeof_apfs_shared_data_ref
    else 0 in
  if negb (apfs_item_size_nr leaf slot =? expect_item_size) then
    corrupt (generic_err leaf slot
      "invalid item size, have %u expect %u for key type %u")
  else if negb (IS_ALIGNED (objectid key) (sectorsize (fs_info leaf))) then
    corrupt (generic_err leaf slot
      "invalid key objectid for shared block ref, have %llu expect aligned to %u")
  else if negb (type key =? APFS_TREE_BLOCK_REF_KEY)
          && negb (IS_ALIGNED (offset key) (sectorsize (fs_info leaf))) then
    corrupt (extent_err leaf slot
      "invalid tree parent bytenr, have %llu expect aligned to %u")
  else OK.

(** The [for (; ptr < end; ptr += sizeof *dref)] loop of
    [check_extent_data_ref]. *)
Fixpoint check_extent_data_ref_loop (fuel : nat) (leaf : extent_buffer)
  (slot end_ ptr : Z) : run verdict :=
  if negb (ptr <? end_) then Returns OK
  else
  match fuel with
  | O => OutOfFuel
  | S fuel' =>
    let dref := ptr in
    let offset := u64 (apfs_extent_data_ref_offset leaf dref) in
    if negb (IS_ALIGNED offset (sectorsize (fs_info leaf))) then
      Returns (corrupt (extent_err leaf slot
        "invalid extent data backref offset, have %llu expect aligned to %u"))
    else
      check_extent_data_ref_loop fuel' leaf slot end_
        (ulong (ptr + sizeof_apfs_extent_data_ref))
  end.

Definition check_extent_data_ref (leaf : extent_buffer) (key : apfs_key)
  (slot : Z) : run verdict :=
  let ptr := ulong (apfs_item_ptr_offset leaf slot) in
  let end_ := ulong (ptr + apfs_item_size_nr leaf slot) in
  if negb (apfs_item_size_nr leaf slot mod sizeof_apfs_extent_data_ref =? 0)
  then
    Returns (corrupt (generic_err leaf slot
      "invalid item size, have %u expect aligned to %zu for key type %u"))
  else if negb (IS_ALIGNED (objectid key) (sectorsize (fs_info leaf))) then
    Returns (corrupt (generic_err leaf slot
      "invalid key objectid for shared block ref, have %llu expect aligned to %u"))
  else
    check_extent_data_ref_loop (Z.to_nat (end_ - ptr)) leaf slot end_ ptr.

(** [inode_ref_err] is [inode_item_err]. *)
Definition inode_ref_err := inode_item_err.

(** The [while (ptr < end)] loop of [check_inode_ref]. The first test adds
    [sizeof(iref)], the size of the pointer. *)
Fixpoint check_inode_ref_loop (fuel : nat) (leaf : extent_buffer)
  (slot end_ ptr : Z) : run verdict :=
  if negb (ptr <? end_) then Returns OK
  else
  match fuel with
  | O => OutOfFuel
  | S fuel' =>
    if end_ <? ulong (ptr + sizeof_pointer) then
      Returns (corrupt (inode_ref_err leaf slot
        "inode ref overflow, ptr %lu end %lu inode_ref_size %zu"))
    else
    let iref := ptr in
    let namelen := u16 (apfs_inode_ref_name_len leaf iref) in
    if end_ <? ulong (ptr + sizeof_apfs_inode_ref + namelen) then
      Returns (corrupt (inode_ref_err leaf slot
        "inode ref overflow, ptr %lu end %lu namelen %u"))
    else
      check_inode_ref_loop fuel' leaf slot end_
        (ulong (ptr + sizeof_apfs_inode_ref + namelen))
  end.

Definition check_inode_ref (leaf : extent_buffer) (key prev_key : apfs_key)
  (slot : Z) : run verdict :=
  prev <~ check_prev_ino leaf key slot prev_key ;;
  if negb (fst prev) then Returns (- EUCLEAN, snd prev)
  else if apfs_item_size_nr leaf slot <=? sizeof_apfs_inode_ref then
    Returns (corrupt (inode_ref_err leaf slot
      "invalid item size, have %u expect (%zu, %u)"))
  else
    let ptr := ulong (apfs_item_ptr_offset leaf slot) in
    let end_ := ulong (ptr + apfs_item_size_nr leaf slot) in
    check_inode_ref_loop (Z.to_nat (end_ - ptr)) leaf slot end_ ptr.

(** *** The dispatch, the leaf and the node *)

Definition check_leaf_item (leaf : extent_buffer) (key : apfs_key) (slot : Z)
  (prev_key : apfs_key) : run verdict :=
  let ret := OK in
  if type key =? APFS_EXTENT_DATA_KEY then
    check_extent_data_item leaf key slot prev_key
  else if type key =? APFS_EXTENT_CSUM_KEY then
    Returns (check_csum_item leaf key slot prev_key)
  else if (type key =? APFS_DIR_ITEM_KEY) || (type key =? APFS_DIR_INDEX_KEY)
          || (type key =? APFS_XATTR_ITEM_KEY) then
    check_dir_item leaf key prev_key slot
  else if type key =? APFS_INODE_REF_KEY then
    check_inode_ref leaf key prev_key slot
  else if type key =? APFS_BLOCK_GROUP_ITEM_KEY then
    Returns (check_block_group_item leaf key slot)
  else if type key =? APFS_CHUNK_ITEM_KEY then
    let chunk := apfs_item_ptr leaf slot in
    Returns (check_leaf_chunk_item leaf chunk key slot)
  else if type key =? APFS_DEV_ITEM_KEY then
    Returns (check_dev_item leaf key slot)
  else if type key =? APFS_INODE_ITEM_KEY then
    Returns (check_inode_item leaf key slot)
  else if type key =? APFS_ROOT_ITEM_KEY then
    Returns (check_root_item leaf key slot)
  else if (type key =? APFS_EXTENT_ITEM_KEY)
          || (type key =? APFS_METADATA_ITEM_KEY) then
    check_extent_item leaf key slot
  else if (type key =? APFS_TREE_BLOCK_REF_KEY)
          || (type key =? APFS_SHARED_DATA_REF_KEY)
          || (type key =? APFS_SHARED_BLOCK_REF_KEY) then
    Returns (check_simple_keyed_refs leaf key slot)
  else if type key =? APFS_EXTENT_DATA_REF_KEY then
    check_extent_data_ref leaf key slot
  else Returns ret.

(** The [for (slot = 0; slot < nritems; slot++)] loop of [check_leaf], [n]
    slots left. A checker that returns 0 has logged nothing. *)
Fixpoint check_leaf_loop (n : nat) (leaf : extent_buffer)
  (check_item_data : bool) (slot : Z) (prev_key : apfs_key) : run verdict :=
  match n with
  | O => Returns OK
  | S n' =>
    let fs_info := fs_info leaf in
    let key := apfs_item_key_to_cpu leaf slot in
    if 0 <=? apfs_comp_cpu_keys leaf prev_key key then
      Returns (corrupt (generic_err leaf slot
        "bad key order, prev (%llu %u %llu) current (%llu %u %llu)"))
    else
    let item_end_expected :=
      if slot =? 0 then u32 (APFS_LEAF_DATA_SIZE fs_info)
      else u32 (apfs_item_offset_nr leaf (slot - 1)) in
    if negb (apfs_item_end_nr leaf slot =? item_end_expected) then
      Returns (corrupt (generic_err leaf slot
        "unexpected item end, have %u expect %u"))
    else if APFS_LEAF_DATA_SIZE fs_info <? apfs_item_end_nr leaf slot then
      Returns (corrupt (generic_err leaf slot
        "slot end outside of leaf, have %u expect range [0, %u]"))
    else
      ret <~ (if check_item_data
              then check_leaf_item leaf key slot prev_key
              else Returns OK) ;;
      if fst ret <? 0 then Returns ret
      else check_leaf_loop n' leaf check_item_data (slot + 1) key
  end.

(** The statements of [check_leaf] that follow its [return 0;]. *)
Definition check_leaf_unreached (leaf : extent_buffer)
  (check_item_data : bool) : run verdict :=
  let prev_key := {| objectid := 0; type := 0; offset := 0 |} in
  let nritems := u32 (apfs_header_nritems leaf) in
  if negb (apfs_header_level leaf =? 0) then
    Returns (corrupt (generic_err leaf 0
      "invalid level for leaf, have %d expect 0"))
  else if (nritems =? 0)
          && negb (apfs_header_flag leaf APFS_HEADER_FLAG_RELOC) then
    let owner := u64 (apfs_header_owner leaf) in
    if (owner =? APFS_ROOT_TREE_OBJECTID)
       || (owner =? APFS_CHUNK_TREE_OBJECTID)
       || (owner =? APFS_EXTENT_TREE_OBJECTID)
       || (owner =? APFS_DEV_TREE_OBJECTID)
       || (owner =? APFS_FS_TREE_OBJECTID)
       || (owner =? APFS_DATA_RELOC_TREE_OBJECTID) then
      Returns (corrupt (generic_err leaf 0
        "invalid root, root %llu must never be empty"))
    else if owner =? 0 then
      Returns (corrupt (generic_err leaf 0
        "invalid owner, root 0 is not defined"))
    else Returns OK
  else if nritems =? 0 then Returns OK
  else check_leaf_loop (Z.to_nat nritems) leaf check_item_data 0 prev_key.

Definition check_leaf (leaf : extent_buffer) (check_item_data : bool)
  : run verdict :=
  RETURN_BEFORE (Returns OK) (check_leaf_unreached leaf check_item_data).

Definition apfs_check_leaf_full (leaf : extent_buffer) : run verdict :=
  check_leaf leaf true.

Definition apfs_check_leaf_relaxed (leaf : extent_buffer) : run verdict :=
  check_leaf leaf false.

(** The [for (slot = 0; slot < nr - 1; slot++)] loop of [apfs_check_node],
    [n] slots left; its value is [ret] at the label [out]. *)
Fixpoint apfs_check_node_loop (n : nat) (node : extent_buffer) (slot : Z)
  : verdict :=
  match n with
  | O => OK
  | S n' =>
    let fs_info := fs_info node in
    let bytenr := u64 (apfs_node_blockptr node slot) in
    let key := apfs_node_key_to_cpu node slot in
    let next_key := apfs_node_key_to_cpu node (slot + 1) in
    if bytenr =? 0 then
      corrupt (generic_err node slot "invalid NULL node pointer")
    else if negb (IS_ALIGNED bytenr (sectorsize fs_info)) then
      corrupt (generic_err node slot
        "unaligned pointer, have %llu should be aligned to %u")
    else if 0 <=? apfs_comp_cpu_keys node key next_key then
      corrupt (generic_err node slot
        "bad key order, current (%llu %u %llu) next (%llu %u %llu)")
    else apfs_check_node_loop n' node (slot + 1)
  end.

(** The statements of [apfs_check_node] that follow its [return 0;]. *)
Definition apfs_check_node_unreached (node : extent_buffer) : verdict :=
  let nr := ulong (apfs_header_nritems node) in
  let level := apfs_header_level node in
  if (level <=? 0) || (APFS_MAX_LEVEL <=? level) then
    corrupt (generic_err node 0
      "invalid level for node, have %d expect [1, %d]")
  else if nr =? 0 then
    corrupt {| log_head := "corrupt node: root=%llu block=%llu, have 0 items";
               log_sargs := [];
               log_args := [apfs_header_owner node; start node];
               log_slot := 0;
               log_fmt := EmptyString |}
  else apfs_check_node_loop (Z.to_nat (nr - 1)) node 0.

Definition apfs_check_node (node : extent_buffer) : verdict :=
  RETURN_BEFORE OK (apfs_check_node_unreached node).

(** *** Keys in order, payloads in place *)

(** The key the leaf loop compares the key of [slot] with: the zero key for
    slot 0, the key of the slot before for the others. *)
Definition prev_key_of (leaf : extent_buffer) (slot : Z) : apfs_key :=
  if slot =? 0 then {| objectid := 0; type := 0; offset := 0 |}
  else apfs_item_key_to_cpu leaf (slot - 1).

Definition key_in_order (leaf : extent_buffer) (slot : Z) : bool :=
  apfs_comp_cpu_keys leaf (prev_key_of leaf slot)
    (apfs_item_key_to_cpu leaf slot) <? 0.

(** The payload of [slot] ends where the one before starts (at the end of
    the data area for slot 0) and inside the data area. *)
Definition payload_in_place (leaf : extent_buffer) (slot : Z) : bool :=
  (apfs_item_end_nr leaf slot
   =? (if slot =? 0 then u32 (APFS_LEAF_DATA_SIZE (fs_info leaf))
       else u32 (apfs_item_offset_nr leaf (slot - 1))))
  && (apfs_item_end_nr leaf slot <=? APFS_LEAF_DATA_SIZE (fs_info leaf)).

(** Pointer [slot] of a node holds a non-null aligned address, and its key
    is below the key of the next pointer. *)
Definition pointer_in_order (node : extent_buffer) (slot : Z) : bool :=
  apfs_comp_cpu_keys node (apfs_node_key_to_cpu node slot)
    (apfs_node_key_to_cpu node (slot + 1)) <? 0.

Definition pointer_valid (node : extent_buffer) (slot : Z) : bool :=
  negb (u64 (apfs_node_blockptr node slot) =? 0)
  && IS_ALIGNED (u64 (apfs_node_blockptr node slot))
       (sectorsize (fs_info node)).

(** *** Chunks of profile RAID1 *)






(** *** The inline references of an extent item, read apart from the checker *)

(** The key types [check_leaf_item] has a case for. *)
Definition handled_key_types : list Z :=
  [APFS_EXTENT_DATA_KEY; APFS_EXTENT_CSUM_KEY; APFS_DIR_ITEM_KEY;
   APFS_DIR_INDEX_KEY; APFS_XATTR_ITEM_KEY; APFS_INODE_REF_KEY;
   APFS_BLOCK_GROUP_ITEM_KEY; APFS_CHUNK_ITEM_KEY; APFS_DEV_ITEM_KEY;
   APFS_INODE_ITEM_KEY; APFS_ROOT_ITEM_KEY; APFS_EXTENT_ITEM_KEY;
   APFS_METADATA_ITEM_KEY; APFS_TREE_BLOCK_REF_KEY; APFS_SHARED_DATA_REF_KEY;
   APFS_SHARED_BLOCK_REF_KEY; APFS_EXTENT_DATA_REF_KEY].

(** The fields of the inline reference of type [ty] at [ptr] are valid: the
    type is one of the four, and the parent address or the file offset it
    holds is a multiple of the sector size. *)
Definition inline_ref_ok (leaf : extent_buffer) (ty ptr : Z) : bool :=
  let ss := sectorsize (fs_info leaf) in
  if ty =? APFS_TREE_BLOCK_REF_KEY then true
  else if ty =? APFS_SHARED_BLOCK_REF_KEY then
    IS_ALIGNED (u64 (apfs_extent_inline_ref_offset leaf ptr)) ss
  else if ty =? APFS_EXTENT_DATA_REF_KEY then
    IS_ALIGNED
      (u64 (apfs_extent_data_ref_offset leaf
              (ptr + offsetof_apfs_extent_inline_ref_offset))) ss
  else if ty =? APFS_SHARED_DATA_REF_KEY then
    IS_ALIGNED (u64 (apfs_extent_inline_ref_offset leaf ptr)) ss
  else false.

(** The references an inline reference stands for: one for a tree block or
    shared block reference, the count it holds for the two data
    references. *)
Definition inline_ref_count (leaf : extent_buffer) (r : Z * Z) : Z :=
  let '(ty, ptr) := r in
  if ty =? APFS_TREE_BLOCK_REF_KEY then 1
  else if ty =? APFS_SHARED_BLOCK_REF_KEY then 1
  else if ty =? APFS_EXTENT_DATA_REF_KEY then
    apfs_extent_data_ref_count leaf
      (ptr + offsetof_apfs_extent_inline_ref_offset)
  else if ty =? APFS_SHARED_DATA_REF_KEY then
    apfs_shared_data_ref_count leaf (ptr + sizeof_apfs_extent_inline_ref)
  else 0.

(** The list of inline references, (type, place) each, that fills
    [ptr, end_) exactly: each holds its header and itself inside the item,
    has valid fields and a size of its own, and the next one follows it.
    At most [n] references are read. *)
Fixpoint inline_refs_at (n : nat) (leaf : extent_buffer) (end_ ptr : Z)
  : option (list (Z * Z)) :=
  if ptr =? end_ then Some []
  else
  match n with
  | O => None
  | S n' =>
    let ty := u8 (apfs_extent_inline_ref_type leaf ptr) in
    let size := apfs_extent_inline_ref_size ty in
    if (ptr <? end_) && (ptr + sizeof_apfs_extent_inline_ref <=? end_)
       && (0 <? size) && (ptr + size <=? end_) && inline_ref_ok leaf ty ptr
    then
      match inline_refs_at n' leaf end_ (ptr + size) with
      | Some rest => Some ((ty, ptr) :: rest)
      | None => None
      end
    else None
  end.

Definition inline_refs_total (leaf : extent_buffer) (refs : list (Z * Z)) : Z :=
  fold_right (fun r s => inline_ref_count leaf r + s) 0 refs.

(** Where the extent item of [slot] ends and where its inline references
    start: after the item header, and after the tree block info when the
    item of a tree block has an EXTENT_ITEM key. *)
Definition extent_item_end (leaf : extent_buffer) (slot : Z) : Z :=
  ulong (u32 (apfs_item_size_nr leaf slot) + apfs_item_ptr_offset leaf slot).

Definition extent_is_tree_block (leaf : extent_buffer) (slot : Z) : bool :=
  negb (Z.land (u64 (apfs_extent_flags leaf (apfs_item_ptr leaf slot)))
          APFS_EXTENT_FLAG_TREE_BLOCK =? 0).

Definition inline_refs_start (leaf : extent_buffer) (key : apfs_key)
  (slot : Z) : Z :=
  let ptr := ulong (apfs_item_ptr leaf slot + sizeof_apfs_extent_item) in
  if extent_is_tree_block leaf slot
     && negb (type key =? APFS_METADATA_ITEM_KEY)
  then ulong (ptr + sizeof_apfs_tree_block_info)
  else ptr.

(** The inline references of the extent item of [slot]. *)
Definition inline_refs_of (leaf : extent_buffer) (key : apfs_key) (slot : Z)
  : option (list (Z * Z)) :=
  let end_ := extent_item_end leaf slot in
  let ptr := inline_refs_start leaf key slot in
  inline_refs_at (Z.to_nat (end_ - ptr)) leaf end_ ptr.

(** The key and the fields ahead of the inline references are valid. *)
Definition extent_item_header_ok (leaf : extent_buffer) (key : apfs_key)
  (slot : Z) : bool :=
  let fi := fs_info leaf in
  let ei := apfs_item_ptr leaf slot in
  let flags := u64 (apfs_extent_flags leaf ei) in
  (* a METADATA_ITEM key needs the skinny metadata feature and holds a level *)
  (negb (type key =? APFS_METADATA_ITEM_KEY)
   || (apfs_fs_incompat_SKINNY_METADATA fi && (offset key <? APFS_MAX_LEVEL)))
  && IS_ALIGNED (objectid key) (sectorsize fi)
  && (sizeof_apfs_extent_item <=? u32 (apfs_item_size_nr leaf slot))
  && (u64 (apfs_extent_generation leaf ei)
      <=? u64 (apfs_super_generation (super_copy fi) + 1))
  && has_single_bit_set
       (Z.land flags (Z.lor APFS_EXTENT_FLAG_DATA APFS_EXTENT_FLAG_TREE_BLOCK))
  && (if extent_is_tree_block leaf slot then
        (negb (type key =? APFS_EXTENT_ITEM_KEY)
         || (offset key =? nodesize fi))
        && ((type key =? APFS_METADATA_ITEM_KEY)
            || (apfs_tree_block_level leaf
                  (ulong (ei + sizeof_apfs_extent_item)) <? APFS_MAX_LEVEL))
      else
        (type key =? APFS_EXTENT_ITEM_KEY)
        && IS_ALIGNED (offset key) (sectorsize fi)
        && (Z.land flags APFS_BLOCK_FLAG_FULL_BACKREF =? 0)).

(** The layout the headers give the item: both item macros name the start
    of the payload, an offset in the block; the structures have a size; the
    two counts are 32-bit fields. *)
Definition extent_layout_ok (leaf : extent_buffer) (slot : Z) : Prop :=
  apfs_item_ptr leaf slot = apfs_item_ptr_offset leaf slot /\
  0 <= apfs_item_ptr_offset leaf slot < 2 ^ 32 /\
  0 <= sizeof_apfs_extent_item < 2 ^ 32 /\
  0 <= sizeof_apfs_tree_block_info < 2 ^ 32 /\
  0 <= sizeof_apfs_extent_inline_ref /\
  (forall p, 0 <= apfs_extent_data_ref_count leaf p < 2 ^ 32) /\
  (forall p, 0 <= apfs_shared_data_ref_count leaf p < 2 ^ 32).

(** *** Two file extents in a row *)

(** Slots [slot - 1] and [slot] hold file extents of one inode, and the
    end of the first, as [file_extent_end] computes it, lies beyond the file
    offset of the second. *)
Definition extents_overlap (leaf : extent_buffer) (slot : Z) : Prop :=
  let key := apfs_item_key_to_cpu leaf slot in
  let prev_key := apfs_item_key_to_cpu leaf (slot - 1) in
  0 < slot /\
  type key = APFS_EXTENT_DATA_KEY /\
  type prev_key = APFS_EXTENT_DATA_KEY /\
  objectid prev_key = objectid key /\
  offset key
  < file_extent_end leaf prev_key (apfs_item_ptr leaf (slot - 1)).

(** The validation of the item of [slot] fails with one report, and the
    report is for [at_slot]. *)
Definition rejected_at (leaf : extent_buffer) (slot at_slot : Z) : Prop :=
  exists e,
    check_leaf_item leaf (apfs_item_key_to_cpu leaf slot) slot
      (apfs_item_key_to_cpu leaf (slot - 1))
    = Returns (- EUCLEAN, [e]) /\
    log_slot e = at_slot.

(** The item of [slot] is a regular or preallocated extent whose own fields
    are valid: file offset and the five sizes and addresses are multiples of
    the sector size, the item has the size of the structure, the type and
    compression codes are known, there is no encryption, and the end does
    not overflow. *)
Definition regular_extent_ok (leaf : extent_buffer) (slot : Z) : Prop :=
  let key := apfs_item_key_to_cpu leaf slot in
  let fi := apfs_item_ptr leaf slot in
  let ss := u32 (sectorsize (fs_info leaf)) in
  IS_ALIGNED (offset key) ss = true /\
  u32 (apfs_item_size_nr leaf slot) = sizeof_apfs_file_extent_item /\
  APFS_FILE_EXTENT_INLINE_DATA_START <= sizeof_apfs_file_extent_item /\
  apfs_file_extent_type leaf fi < APFS_NR_FILE_EXTENT_TYPES /\
  apfs_file_extent_type leaf fi <> APFS_FILE_EXTENT_INLINE /\
  apfs_file_extent_compression leaf fi < APFS_NR_COMPRESS_TYPES /\
  apfs_file_extent_encryption leaf fi = 0 /\
  Forall (fun field => IS_ALIGNED (field leaf fi) ss = true)
    [apfs_file_extent_ram_bytes; apfs_file_extent_disk_bytenr;
     apfs_file_extent_disk_num_bytes; apfs_file_extent_offset;
     apfs_file_extent_num_bytes] /\
  0 <= apfs_file_extent_num_bytes leaf fi + offset key < 2 ^ 64.

(** *** Verdicts and layouts *)

(** What the C types of the accessors and the sizes of the structures
    give the item of [slot]: the item table holds 32-bit offsets and
    sizes, the item is shorter than 2^31 bytes, the structures the loops
    step over are not empty, and the two lengths of a directory entry are
    16-bit fields. *)
Definition item_layout_ok (leaf : extent_buffer) (slot : Z) : Prop :=
  0 <= apfs_item_ptr_offset leaf slot < 2 ^ 32 /\
  0 <= apfs_item_size_nr leaf slot < 2 ^ 31 /\
  0 < sizeof_apfs_dir_item < 2 ^ 16 /\
  0 < sizeof_apfs_inode_ref < 2 ^ 32 /\
  0 < sizeof_apfs_extent_data_ref < 2 ^ 32 /\
  Forall (fun ty => 0 < apfs_extent_inline_ref_size ty < 2 ^ 32)
    [APFS_TREE_BLOCK_REF_KEY; APFS_SHARED_BLOCK_REF_KEY;
     APFS_EXTENT_DATA_REF_KEY; APFS_SHARED_DATA_REF_KEY] /\
  (forall p, 0 <= apfs_dir_name_len leaf p < 2 ^ 16) /\
  (forall p, 0 <= apfs_dir_data_len leaf p < 2 ^ 16).

(** What a checker hands back: 0 and no line, or -EUCLEAN and the one
    line it logged, or -EUCLEAN and no line. *)
Definition accepted (v : verdict) : Prop := v = (0, []).
Definition reported (v : verdict) : Prop := exists e, v = (- EUCLEAN, [e]).
Definition silent (v : verdict) : Prop := v = (- EUCLEAN, []).

Definition simple (v : verdict) : Prop := accepted v \/ reported v.

(** [check_inode_key] is the one checker that returns -EUCLEAN without a
    line, for the location key of an XATTR item. *)
Definition simple_or_xattr (leaf : extent_buffer) (slot : Z) (v : verdict)
  : Prop :=
  simple v \/
  (silent v /\ type (apfs_item_key_to_cpu leaf slot) = APFS_XATTR_ITEM_KEY).


(** The messages of the lines a call logged. *)
Definition messages (r : run verdict) : list string :=
  match r with
  | Returns v => map log_fmt (snd v)
  | _ => []
  end.

(** *** Inode items *)

(** The file type bits a mode may hold. *)
Definition file_types : list Z :=
  [S_IFIFO; S_IFCHR; S_IFDIR; S_IFBLK; S_IFREG; S_IFLNK; S_IFSOCK].

(** The fields of the inode item of [slot] other than the file type and
    the link count are valid: the key, the two generations, no mode bit
    outside the type, the permission and the set-id and sticky bits, no
    unknown flag. *)
Definition inode_fields_valid (leaf : extent_buffer) (key : apfs_key)
  (slot : Z) : Prop :=
  let iitem := apfs_item_ptr leaf slot in
  let gen_max := u64 (u64 (apfs_super_generation (super_copy (fs_info leaf))) + 1) in
  check_inode_key leaf key slot = (0, []) /\
  apfs_inode_generation leaf iitem <= gen_max /\
  apfs_inode_transid leaf iitem <= gen_max /\
  Z.land (u32 (apfs_inode_mode leaf iitem))
    (Z.lnot (Z.lor (Z.lor (Z.lor (Z.lor S_IFMT S_ISUID) S_ISGID) S_ISVTX) 511))
  = 0 /\
  Z.land (apfs_inode_flags leaf iitem) (Z.lnot APFS_INODE_FLAG_MASK) = 0.

(** *** Inode references and extent data references *)

(** The inode references, (place, length of the name) each, that fill
    [ptr, end_) exactly: each is a header followed by its name, inside the
    item, and the next one follows it. At most [n] references are read. *)
Fixpoint inode_refs_at (n : nat) (leaf : extent_buffer) (end_ ptr : Z)
  : option (list (Z * Z)) :=
  if ptr =? end_ then Some []
  else
  match n with
  | O => None
  | S n' =>
    let namelen := u16 (apfs_inode_ref_name_len leaf ptr) in
    if (ptr <? end_) && (ptr + sizeof_apfs_inode_ref + namelen <=? end_) then
      match inode_refs_at n' leaf end_ (ptr + sizeof_apfs_inode_ref + namelen)
      with
      | Some rest => Some ((ptr, namelen) :: rest)
      | None => None
      end
    else None
  end.

(** The inode references of the item of [slot]. *)
Definition inode_refs_of (leaf : extent_buffer) (slot : Z)
  : option (list (Z * Z)) :=
  let ptr := apfs_item_ptr_offset leaf slot in
  let end_ := ptr + apfs_item_size_nr leaf slot in
  inode_refs_at (Z.to_nat (end_ - ptr)) leaf end_ ptr.


End Checker.

End TreeChecker.

(** ** Where the item table and the key pointers lie

    [apfs_item_nr_offset] and [apfs_node_key_ptr_offset] of ctree.h, which
    is not among the sources: the byte offset in the block of the item
    header [nr] of a leaf and of the key pointer [nr] of a node, with the
    sizes of the two structures. The checkers read the header or the
    pointer of every slot below [nritems] through the accessors of
    struct-funcs.c, which assert that the field lies inside the block;
    they never compare [nritems] with the size of the block. *)
Class block_tables := {
  apfs_item_nr_offset : Z -> Z;
  sizeof_apfs_item : Z;
  apfs_node_key_ptr_offset : Z -> Z;
  sizeof_apfs_key_ptr : Z
}.

Section Tables.

Context {C : ctree} {T : block_tables}.

(** The item count of the leaf fits the [int] slot, and the item header of
    every slot below it lies inside the block. *)
Definition item_table_in_block (leaf : extent_buffer) : Prop :=
  u32 (apfs_header_nritems leaf) < 2 ^ 31 /\
  forall i, 0 <= i < u32 (apfs_header_nritems leaf) ->
    0 <= apfs_item_nr_offset i /\
    apfs_item_nr_offset i + sizeof_apfs_item <= len leaf.

(** The pointer count of the node fits the [int] slot, and the key pointer
    of every slot below it lies inside the block. *)
Definition key_ptrs_in_block (node : extent_buffer) : Prop :=
  ulong (apfs_header_nritems node) < 2 ^ 31 /\
  forall i, 0 <= i < ulong (apfs_header_nritems node) ->
    0 <= apfs_node_key_ptr_offset i /\
    apfs_node_key_ptr_offset i + sizeof_apfs_key_ptr <= len node.

End Tables.


(** ** Sample format and sample blocks

    To evaluate the checkers on blocks of bytes: the constants and the packed
    little-endian layout of the upstream on-disk format, with the field
    accessors reading the block through [apfs_get_bits], pages of 4096 bytes.
    Only the examples and the instances of the theorems at concrete blocks
    use them. *)

Module Samples.

Definition sample_fs_info : apfs_fs_info :=
  {| sectorsize := 4096; nodesize := 16384; csum_size := 4;
     super_copy := {| apfs_super_generation := 100;
                      apfs_super_incompat_flags := 0 |};
     __super_copy := {| apfs_is_case_insensitive := false |} |}.

(** A block of three pages of eight bytes, for [PAGE_SHIFT = 3]. *)
Definition small_eb : extent_buffer :=
  {| start := 0; len := 24;
     pages := repeat (repeat Byte.x00 8) 3;
     fs_info := sample_fs_info |}.

(** A token that caches the last page of [small_eb]. *)
Definition small_token : apfs_map_token :=
  {| tok_eb := small_eb; tok_kaddr := Some 2; tok_offset := 16 |}.

(** Reads and writes of all widths, some across a page boundary. *)
Definition small_ops : list StructFuncs.op :=
  [ StructFuncs.OpSet U64 2 3 1311768467463790320;
    StructFuncs.OpGet U32 0 6;
    StructFuncs.OpSet U16 15 0 43981;
    StructFuncs.OpGet U64 0 13;
    StructFuncs.OpSet U8 0 23 255;
    StructFuncs.OpGet U16 20 2 ].

(** [small_eb] with its first byte set, and a token for it whose cached
    address is not the page of its cached offset. *)
Definition marked_eb : extent_buffer :=
  match StructFuncs.apfs_set_8 3 true small_eb 0 0 170 with
  | Done eb _ => eb
  | _ => small_eb
  end.

Definition stale_token : apfs_map_token :=
  {| tok_eb := marked_eb; tok_kaddr := Some 1; tok_offset := 0 |}.

(** *** Reading and writing fields of a block of 4096-byte pages *)

Definition rd (b : ubits) (eb : extent_buffer) (ptr off : Z) : Z :=
  match StructFuncs.apfs_get_bits 12 true b eb ptr off with
  | Done v _ => v
  | _ => 0
  end.

Definition wr (b : ubits) (ptr off val : Z) (eb : extent_buffer)
  : extent_buffer :=
  match StructFuncs.apfs_set_bits 12 true b eb ptr off val with
  | Done eb' _ => eb'
  | _ => eb
  end.

Definition rd_key (eb : extent_buffer) (ptr : Z) : apfs_key :=
  {| objectid := rd U64 eb ptr 0; type := rd U8 eb ptr 8;
     offset := rd U64 eb ptr 9 |}.

Definition wr_key (ptr : Z) (k : apfs_key) (eb : extent_buffer)
  : extent_buffer :=
  wr U64 ptr 9 (offset k) (wr U8 ptr 8 (type k) (wr U64 ptr 0 (objectid k) eb)).

(** A field of a structure copied out of the block. *)
Definition stack_rd (n : nat) (bytes : list byte) (off : nat) : Z :=
  le_combine (firstn n (skipn off bytes)).

Definition sizeof_header : Z := 101.
Definition sizeof_item : Z := 25.
Definition sizeof_key_ptr : Z := 33.

Definition item_nr (nr : Z) : Z := sizeof_header + sizeof_item * nr.
Definition key_ptr_nr (nr : Z) : Z := sizeof_header + sizeof_key_ptr * nr.

Definition sample_name_hash (name : list byte) (len : Z) (fold : bool) : Z :=
  fold_left (fun h c => (h * 31 + byte.unsigned c) mod 2 ^ 32)
    (firstn (Z.to_nat len) name) 5381.

Definition sample_ctree : ctree := {|
  CONFIG_APFS_ASSERT := true;
  APFS_INODE_ITEM_KEY := 1;
  APFS_INODE_REF_KEY := 12;
  APFS_XATTR_ITEM_KEY := 24;
  APFS_DIR_ITEM_KEY := 84;
  APFS_DIR_INDEX_KEY := 96;
  APFS_EXTENT_DATA_KEY := 108;
  APFS_EXTENT_CSUM_KEY := 128;
  APFS_ROOT_ITEM_KEY := 132;
  APFS_EXTENT_ITEM_KEY := 168;
  APFS_METADATA_ITEM_KEY := 169;
  APFS_TREE_BLOCK_REF_KEY := 176;
  APFS_EXTENT_DATA_REF_KEY := 178;
  APFS_SHARED_BLOCK_REF_KEY := 182;
  APFS_SHARED_DATA_REF_KEY := 184;
  APFS_BLOCK_GROUP_ITEM_KEY := 192;
  APFS_DEV_ITEM_KEY := 216;
  APFS_CHUNK_ITEM_KEY := 228;
  APFS_ROOT_TREE_OBJECTID := 1;
  APFS_EXTENT_TREE_OBJECTID := 2;
  APFS_CHUNK_TREE_OBJECTID := 3;
  APFS_DEV_TREE_OBJECTID := 4;
  APFS_FS_TREE_OBJECTID := 5;
  APFS_ROOT_TREE_DIR_OBJECTID := 6;
  APFS_DATA_RELOC_TREE_OBJECTID := 2 ^ 64 - 9;
  APFS_TREE_RELOC_OBJECTID := 2 ^ 64 - 8;
  APFS_EXTENT_CSUM_OBJECTID := 2 ^ 64 - 10;
  APFS_FREE_INO_OBJECTID := 2 ^ 64 - 12;
  APFS_FIRST_FREE_OBJECTID := 256;
  APFS_LAST_FREE_OBJECTID := 2 ^ 64 - 256;
  APFS_FIRST_CHUNK_TREE_OBJECTID := 256;
  APFS_DEV_ITEMS_OBJECTID := 1;
  APFS_MAX_LEVEL := 8;
  APFS_NAME_LEN := 255;
  APFS_FT_XATTR := 8;
  APFS_FT_MAX := 9;
  APFS_FILE_EXTENT_INLINE := 0;
  APFS_NR_FILE_EXTENT_TYPES := 3;
  APFS_COMPRESS_NONE := 0;
  APFS_NR_COMPRESS_TYPES := 4;
  APFS_FILE_EXTENT_INLINE_DATA_START := 21;
  APFS_STRIPE_LEN := 65536;
  APFS_SUPER_INFO_OFFSET := 65536;
  APFS_HEADER_FLAG_RELOC := 2;
  APFS_BLOCK_GROUP_DATA := 1;
  APFS_BLOCK_GROUP_SYSTEM := 2;
  APFS_BLOCK_GROUP_METADATA := 4;
  APFS_BLOCK_GROUP_RAID1 := 16;
  APFS_BLOCK_GROUP_DUP := 32;
  APFS_BLOCK_GROUP_RAID10 := 64;
  APFS_BLOCK_GROUP_RAID5 := 128;
  APFS_BLOCK_GROUP_RAID6 := 256;
  APFS_BLOCK_GROUP_TYPE_MASK := 7;
  APFS_BLOCK_GROUP_PROFILE_MASK := 2040;
  APFS_FEATURE_INCOMPAT_MIXED_GROUPS := 4;
  APFS_INODE_FLAG_MASK := 2147487743;
  APFS_ROOT_SUBVOL_RDONLY := 1;
  APFS_ROOT_SUBVOL_DEAD := 2 ^ 48;
  APFS_EXTENT_FLAG_DATA := 1;
  APFS_EXTENT_FLAG_TREE_BLOCK := 2;
  APFS_BLOCK_FLAG_FULL_BACKREF := 256;
  APFS_LEAF_DATA_SIZE := fun fi => nodesize fi - sizeof_header;
  APFS_MAX_XATTR_SIZE := fun fi => nodesize fi - sizeof_header - sizeof_item - 30;
  apfs_fs_incompat_SKINNY_METADATA := fun fi =>
    negb (Z.land (apfs_super_incompat_flags (super_copy fi)) 256 =? 0);
  is_fstree := fun id => (id =? 5) || ((256 <=? id) && (id <? 2 ^ 48));
  apfs_bg_flags_to_raid_index := fun flags =>
    if negb (Z.land flags 64 =? 0) then 0
    else if negb (Z.land flags 16 =? 0) then 1
    else if negb (Z.land flags 32 =? 0) then 2
    else if negb (Z.land flags 8 =? 0) then 3
    else if negb (Z.land flags 128 =? 0) then 5
    else if negb (Z.land flags 256 =? 0) then 6
    else 4;
  apfs_raid_array_ncopies := fun i =>
    if (i =? 0) || (i =? 1) || (i =? 2) then 2 else 1;
  apfs_raid_array_nparity := fun i =>
    if i =? 5 then 1 else if i =? 6 then 2 else 0;
  sizeof_apfs_file_extent_item := 53;
  sizeof_apfs_dir_item := 30;
  sizeof_apfs_block_group_item := 24;
  sizeof_apfs_chunk := 80;
  sizeof_apfs_root_item := 439;
  sizeof_apfs_extent_item := 24;
  sizeof_apfs_tree_block_info := 18;
  sizeof_apfs_extent_inline_ref := 9;
  offsetof_apfs_extent_inline_ref_offset := 1;
  sizeof_apfs_shared_data_ref := 4;
  sizeof_apfs_extent_data_ref := 28;
  sizeof_apfs_inode_ref := 10;
  sizeof_pointer := 8;
  apfs_chunk_item_size := fun n => 80 + 32 * (n - 1);
  apfs_legacy_root_item_size := 239;
  apfs_extent_inline_ref_size := fun ty =>
    if (ty =? 176) || (ty =? 182) then 9
    else if ty =? 184 then 13
    else if ty =? 178 then 29
    else 0;
  apfs_header_level := fun eb => rd U8 eb 0 100;
  apfs_header_nritems := fun eb => rd U32 eb 0 96;
  apfs_header_owner := fun eb => rd U64 eb 0 88;
  apfs_header_bytenr := fun eb => rd U64 eb 0 48;
  apfs_header_flag := fun eb flag => Z.land (rd U64 eb 0 56) flag =? flag;
  apfs_item_key_to_cpu := fun eb nr => rd_key eb (item_nr nr);
  apfs_item_size_nr := fun eb nr => rd U32 eb (item_nr nr) 21;
  apfs_item_offset_nr := fun eb nr => rd U32 eb (item_nr nr) 17;
  apfs_item_end_nr := fun eb nr =>
    u32 (rd U32 eb (item_nr nr) 17 + rd U32 eb (item_nr nr) 21);
  apfs_item_ptr_offset := fun eb nr =>
    sizeof_header + rd U32 eb (item_nr nr) 17;
  apfs_item_ptr := fun eb nr => sizeof_header + rd U32 eb (item_nr nr) 17;
  apfs_node_blockptr := fun eb nr => rd U64 eb (key_ptr_nr nr) 17;
  apfs_node_key_to_cpu := fun eb nr => rd_key eb (key_ptr_nr nr);
  read_extent_buffer := fun eb from n =>
    firstn (Z.to_nat n) (skipn (Z.to_nat from) (concat (pages eb)));
  apfs_file_extent_type := fun eb p => rd U8 eb p 20;
  apfs_file_extent_compression := fun eb p => rd U8 eb p 16;
  apfs_file_extent_encryption := fun eb p => rd U8 eb p 17;
  apfs_file_extent_ram_bytes := fun eb p => rd U64 eb p 8;
  apfs_file_extent_disk_bytenr := fun eb p => rd U64 eb p 21;
  apfs_file_extent_disk_num_bytes := fun eb p => rd U64 eb p 29;
  apfs_file_extent_offset := fun eb p => rd U64 eb p 37;
  apfs_file_extent_num_bytes := fun eb p => rd U64 eb p 45;
  apfs_dir_item_key_to_cpu := fun eb p => rd_key eb p;
  apfs_dir_type := fun eb p => rd U8 eb p 29;
  apfs_dir_name_len := fun eb p => rd U16 eb p 27;
  apfs_dir_data_len := fun eb p => rd U16 eb p 25;
  apfs_name_hash := sample_name_hash;
  apfs_stack_block_group_chunk_objectid := fun bs => stack_rd 8 bs 8;
  apfs_stack_block_group_used := fun bs => stack_rd 8 bs 0;
  apfs_stack_block_group_flags := fun bs => stack_rd 8 bs 16;
  apfs_chunk_length := fun eb p => rd U64 eb p 0;
  apfs_chunk_stripe_len := fun eb p => rd U64 eb p 16;
  apfs_chunk_num_stripes := fun eb p => rd U16 eb p 44;
  apfs_chunk_sub_stripes := fun eb p => rd U16 eb p 46;
  apfs_chunk_type := fun eb p => rd U64 eb p 24;
  apfs_chunk_sector_size := fun eb p => rd U32 eb p 40;
  apfs_device_id := fun eb p => rd U64 eb p 0;
  apfs_device_bytes_used := fun eb p => rd U64 eb p 16;
  apfs_device_total_bytes := fun eb p => rd U64 eb p 8;
  apfs_inode_generation := fun eb p => rd U64 eb p 0;
  apfs_inode_transid := fun eb p => rd U64 eb p 8;
  apfs_inode_mode := fun eb p => rd U32 eb p 52;
  apfs_inode_nlink := fun eb p => rd U32 eb p 40;
  apfs_inode_flags := fun eb p => rd U64 eb p 64;
  apfs_inode_ref_name_len := fun eb p => rd U16 eb p 8;
  apfs_root_generation := fun bs => stack_rd 8 bs 160;
  apfs_root_generation_v2 := fun bs => stack_rd 8 bs 239;
  apfs_root_last_snapshot := fun bs => stack_rd 8 bs 200;
  apfs_root_bytenr := fun bs => stack_rd 8 bs 176;
  apfs_root_level := fun bs => stack_rd 1 bs 238;
  apfs_root_drop_level := fun bs => stack_rd 1 bs 237;
  apfs_root_flags := fun bs => stack_rd 8 bs 208;
  apfs_extent_flags := fun eb p => rd U64 eb p 16;
  apfs_extent_refs := fun eb p => rd U64 eb p 0;
  apfs_extent_generation := fun eb p => rd U64 eb p 8;
  apfs_tree_block_level := fun eb p => rd U8 eb p 17;
  apfs_extent_inline_ref_type := fun eb p => rd U8 eb p 0;
  apfs_extent_inline_ref_offset := fun eb p => rd U64 eb p 1;
  apfs_extent_data_ref_offset := fun eb p => rd U64 eb p 16;
  apfs_extent_data_ref_count := fun eb p => rd U32 eb p 24;
  apfs_shared_data_ref_count := fun eb p => rd U32 eb p 0
|}.

(** *** Building blocks *)

(** A block of [nodesize] zero bytes at address [bytenr]. *)
Definition zero_block (bytenr : Z) : extent_buffer :=
  {| start := bytenr; len := 16384;
     pages := repeat (repeat Byte.x00 4096) 4;
     fs_info := sample_fs_info |}.

Definition wr_header (bytenr owner nritems level : Z) (eb : extent_buffer)
  : extent_buffer :=
  wr U8 0 100 level (wr U32 0 96 nritems
    (wr U64 0 88 owner (wr U64 0 48 bytenr eb))).

(** Item [nr] of a leaf: its key, and where its payload lies in the data
    area. *)
Definition wr_item (nr : Z) (k : apfs_key) (data_offset data_size : Z)
  (eb : extent_buffer) : extent_buffer :=
  wr U32 (item_nr nr) 21 data_size
    (wr U32 (item_nr nr) 17 data_offset (wr_key (item_nr nr) k eb)).

(** Pointer [nr] of a node. *)
Definition wr_key_ptr (nr : Z) (k : apfs_key) (blockptr : Z)
  (eb : extent_buffer) : extent_buffer :=
  wr U64 (key_ptr_nr nr) 17 blockptr (wr_key (key_ptr_nr nr) k eb).

Definition mk_key (o t f : Z) : apfs_key :=
  {| objectid := o; type := t; offset := f |}.

Definition LEAF_DATA : Z := 16384 - sizeof_header.

Definition wr_inode_item (ptr mode nlink : Z) (eb : extent_buffer)
  : extent_buffer :=
  wr U32 ptr 52 mode (wr U32 ptr 40 nlink
    (wr U64 ptr 8 7 (wr U64 ptr 0 7 eb))).

(** A leaf of the file tree with two inode items; [o0] and [o1] are the
    object ids of their keys. *)
Definition inode_leaf (o0 o1 : Z) : extent_buffer :=
  wr_inode_item (sizeof_header + (LEAF_DATA - 320)) 33188 1
    (wr_inode_item (sizeof_header + (LEAF_DATA - 160)) 33188 1
       (wr_item 1 (mk_key o1 1 0) (LEAF_DATA - 320) 160
          (wr_item 0 (mk_key o0 1 0) (LEAF_DATA - 160) 160
             (wr_header 1048576 5 2 0 (zero_block 1048576))))).

(** Keys in order, and the second key below the first. *)
Definition good_leaf : extent_buffer := inode_leaf 256 257.
Definition bad_order_leaf : extent_buffer := inode_leaf 257 256.

(** A node of level 1 with three pointers to aligned, non-null blocks. *)
Definition node_of (k0 k1 k2 : apfs_key) : extent_buffer :=
  wr_key_ptr 2 k2 4210688
    (wr_key_ptr 1 k1 4206592
       (wr_key_ptr 0 k0 4202496
          (wr_header 2097152 5 3 1 (zero_block 2097152)))).

Definition good_node : extent_buffer :=
  node_of (mk_key 256 1 0) (mk_key 300 1 0) (mk_key 400 1 0).
Definition bad_order_node : extent_buffer :=
  node_of (mk_key 300 1 0) (mk_key 256 1 0) (mk_key 400 1 0).

(** A leaf of the chunk tree with one chunk item: metadata, RAID1, with
    [num_stripes] stripes. *)
Definition chunk_logical : Z := 20971520.
Definition chunk_size (num_stripes : Z) : Z := 80 + 32 * (num_stripes - 1).
Definition chunk_ptr (num_stripes : Z) : Z :=
  sizeof_header + (LEAF_DATA - chunk_size num_stripes).

Definition wr_chunk (ptr length stripe_len type sector_size num_stripes
  sub_stripes : Z) (eb : extent_buffer) : extent_buffer :=
  wr U16 ptr 46 sub_stripes (wr U16 ptr 44 num_stripes
    (wr U32 ptr 40 sector_size (wr U64 ptr 24 type
       (wr U64 ptr 16 stripe_len (wr U64 ptr 0 length eb))))).

(** The leaf keeps the place and size of the item of two stripes, so that
    the two leaves differ in the stripe count only. *)
Definition chunk_leaf (num_stripes : Z) : extent_buffer :=
  wr_chunk (chunk_ptr 2) 8388608 65536 20 4096 num_stripes 1
    (wr_item 0 (mk_key 256 228 chunk_logical)
       (LEAF_DATA - chunk_size 2) (chunk_size 2)
       (wr_header 3145728 3 1 0 (zero_block 3145728))).

(** A leaf of the extent tree with one data extent item that declares
    [refs] references and holds two inline references: an extent data
    reference of count 3 and a shared data reference of count 2. *)
Definition extent_ptr : Z := sizeof_header + (LEAF_DATA - 66).

Definition extent_leaf (refs : Z) : extent_buffer :=
  wr U32 (extent_ptr + 24 + 29 + 9) 0 2
    (wr U64 (extent_ptr + 24 + 29) 1 8192
       (wr U8 (extent_ptr + 24 + 29) 0 184
          (wr U32 (extent_ptr + 24 + 1) 24 3
             (wr U64 (extent_ptr + 24 + 1) 16 4096
                (wr U8 (extent_ptr + 24) 0 178
                   (wr U64 extent_ptr 16 1
                      (wr U64 extent_ptr 8 50
                         (wr U64 extent_ptr 0 refs
                            (wr_item 0 (mk_key 1048576 168 8192)
                               (LEAF_DATA - 66) 66
                               (wr_header 4194304 2 1 0
                                  (zero_block 4194304))))))))))).

(** A leaf of the file tree with two regular file extents of inode 257, of
    8192 bytes each, at file offsets 0 and 4096; [ram_bytes] is the field
    of the second one. *)
Definition wr_file_extent (ptr ram_bytes disk_bytenr num_bytes : Z)
  (eb : extent_buffer) : extent_buffer :=
  wr U64 ptr 45 num_bytes (wr U64 ptr 37 0
    (wr U64 ptr 29 num_bytes (wr U64 ptr 21 disk_bytenr
       (wr U8 ptr 20 1 (wr U64 ptr 8 ram_bytes (wr U64 ptr 0 7 eb)))))).

Definition overlap_leaf (ram_bytes : Z) : extent_buffer :=
  wr_file_extent (sizeof_header + (LEAF_DATA - 106)) ram_bytes 12591104 8192
    (wr_file_extent (sizeof_header + (LEAF_DATA - 53)) 8192 12582912 8192
       (wr_item 1 (mk_key 257 108 4096) (LEAF_DATA - 106) 53
          (wr_item 0 (mk_key 257 108 0) (LEAF_DATA - 53) 53
             (wr_header 5242880 5 2 0 (zero_block 5242880))))).

(** The same first extent, followed by an uncompressed inline extent of
    ten bytes at file offset 0. *)
Definition inline_overlap_leaf : extent_buffer :=
  wr U8 (sizeof_header + (LEAF_DATA - 84)) 20 0
    (wr U64 (sizeof_header + (LEAF_DATA - 84)) 8 10
       (wr_file_extent (sizeof_header + (LEAF_DATA - 53)) 8192 12582912 8192
          (wr_item 1 (mk_key 257 108 0) (LEAF_DATA - 84) 31
             (wr_item 0 (mk_key 257 108 0) (LEAF_DATA - 53) 53
                (wr_header 5242880 5 2 0 (zero_block 5242880)))))).

(** A leaf of the extent tree with one item for a tree block, with an
    EXTENT_ITEM key and the size of the extent item alone: the tree block
    info that follows the extent item lies outside the item. *)
Definition short_extent_ptr : Z := sizeof_header + (LEAF_DATA - 100).

Definition short_extent_leaf : extent_buffer :=
  wr U64 short_extent_ptr 16 2
    (wr U64 short_extent_ptr 8 50
       (wr U64 short_extent_ptr 0 1
          (wr_item 0 (mk_key 1048576 168 16384) (LEAF_DATA - 100) 24
             (wr_header 4194304 2 1 0 (zero_block 4194304))))).

(** A leaf of the extent tree with one block group item: 8 MiB of
    metadata, RAID1, 4096 bytes used. *)
Definition block_group_ptr : Z := sizeof_header + (LEAF_DATA - 24).

Definition block_group_leaf : extent_buffer :=
  wr U64 block_group_ptr 16 20
    (wr U64 block_group_ptr 8 256
       (wr U64 block_group_ptr 0 4096
          (wr_item 0 (mk_key 20971520 192 8388608) (LEAF_DATA - 24) 24
             (wr_header 4194304 2 1 0 (zero_block 4194304))))).

(** A leaf of the file tree with the inode item of inode 257 and an
    INODE_REF item of two references, with names of two bytes and of one. *)
Definition inode_ref_ptr : Z := sizeof_header + (LEAF_DATA - 183).

Definition inode_ref_leaf : extent_buffer :=
  wr U16 (inode_ref_ptr + 12) 8 1
    (wr U16 inode_ref_ptr 8 2
       (wr_inode_item (sizeof_header + (LEAF_DATA - 160)) 33188 1
          (wr_item 1 (mk_key 257 12 256) (LEAF_DATA - 183) 23
             (wr_item 0 (mk_key 257 1 0) (LEAF_DATA - 160) 160
                (wr_header 1048576 5 2 0 (zero_block 1048576)))))).




(** A leaf of the checksum tree with two items: two checksums for the
    sectors at 0 and 4096, and one for the sector at 8192. *)
Definition csum_leaf : extent_buffer :=
  wr_item 1 (mk_key (2 ^ 64 - 10) 128 8192) (LEAF_DATA - 12) 4
    (wr_item 0 (mk_key (2 ^ 64 - 10) 128 0) (LEAF_DATA - 8) 8
       (wr_header 5242880 7 2 0 (zero_block 5242880))).

(** [small_eb] after a 64-bit value was written at its bytes 5 to 12,
    over the end of its first page. *)
Definition written_eb : extent_buffer :=
  match StructFuncs.apfs_set_bits 3 true U64 small_eb 2 3 1311768467463790320
  with
  | Done eb _ => eb
  | _ => small_eb
  end.

Definition written_token : apfs_map_token :=
  {| tok_eb := written_eb; tok_kaddr := Some 0; tok_offset := 0 |}.


(** The item table and the key pointers of the sample format. *)
Definition sample_tables : block_tables :=
  {| apfs_item_nr_offset := item_nr;
     sizeof_apfs_item := sizeof_item;
     apfs_node_key_ptr_offset := key_ptr_nr;
     sizeof_apfs_key_ptr := sizeof_key_ptr |}.

(** A block of three pages whose length says two. *)
Definition short_len_eb : extent_buffer :=
  {| start := 0; len := 16;
     pages := pages written_eb;
     fs_info := sample_fs_info |}.

End Samples.

(** * Properties *)

(** Goals about the sample blocks are closed by evaluation. *)
Ltac split_all := repeat match goal with |- _ /\ _ => split end.
Ltac by_eval := vm_compute; first [reflexivity | discriminate].

Import StructFuncs.

(** ** Values inside their C type *)

Lemma ulong_small (x : Z) : 0 <= x < 2 ^ 64 -> ulong x = x.
Proof. intros H. unfold ulong. apply Z.mod_small. exact H. Qed.

Lemma u64_small (x : Z) : 0 <= x < 2 ^ 64 -> u64 x = x.
Proof. intros H. unfold u64. apply Z.mod_small. exact H. Qed.

Lemma uint_le (x : Z) : 0 <= x -> 0 <= uint x <= x.
Proof.
  intros H. unfold uint. split.
  - apply Z.mod_pos_bound. lia.
  - apply Z.mod_le; lia.
Qed.

Lemma negb_eqb_0 (x : Z) : x <> 0 -> negb (x =? 0) = true.
Proof. intros H. apply Z.eqb_neq in H. rewrite H. reflexivity. Qed.

(** ** Lists updated in place *)

Section ListUpdate.
Context {A : Type}.

Lemma length_upd (k : nat) (x : A) (l : list A) :
  (k < length l)%nat -> length (upd k x l) = length l.
Proof.
  intros H. unfold upd.
  rewrite length_app, length_firstn. cbn [length]. rewrite length_skipn. lia.
Qed.

Lemma nth_error_upd_same (k : nat) (x : A) (l : list A) :
  (k < length l)%nat -> nth_error (upd k x l) k = Some x.
Proof.
  intros H. unfold upd.
  rewrite nth_error_app2; rewrite length_firstn; [|lia].
  replace (k - Nat.min k (length l))%nat with 0%nat by lia. reflexivity.
Qed.

Lemma nth_error_upd_other (k j : nat) (x : A) (l : list A) :
  (k < length l)%nat -> j <> k -> nth_error (upd k x l) j = nth_error l j.
Proof.
  intros H Hj. unfold upd.
  destruct (Nat.lt_ge_cases j k) as [Hlt|Hge].
  - rewrite nth_error_app1 by (rewrite length_firstn; lia).
    rewrite nth_error_firstn.
    destruct (Nat.ltb_spec j k); [reflexivity|lia].
  - rewrite nth_error_app2 by (rewrite length_firstn; lia).
    rewrite length_firstn.
    replace (j - Nat.min k (length l))%nat with (S (j - S k)) by lia.
    cbn [nth_error]. rewrite nth_error_skipn. f_equal. lia.
Qed.

Lemma length_splice (o : nat) (bs p : list A) :
  (o + length bs <= length p)%nat -> length (splice o bs p) = length p.
Proof.
  intros H. unfold splice.
  rewrite !length_app, length_firstn, length_skipn. lia.
Qed.

Lemma read_splice (o : nat) (bs p : list A) :
  (o + length bs <= length p)%nat ->
  firstn (length bs) (skipn o (splice o bs p)) = bs.
Proof.
  intros H. unfold splice.
  rewrite List.skipn_app_r by (rewrite length_firstn; lia).
  apply List.firstn_app_l. reflexivity.
Qed.

End ListUpdate.

(** ** Pages and offsets *)

Section PagedFacts.

Variable PAGE_SHIFT : Z.
Variable assert_enabled : bool.
Hypothesis PAGE_SHIFT_min : 3 <= PAGE_SHIFT.

Local Notation "'PS'" := (PAGE_SIZE PAGE_SHIFT).
Local Notation "'wf_eb'" := (StructFuncs.wf_eb PAGE_SHIFT).
Local Notation "'token_ok'" := (StructFuncs.token_ok PAGE_SHIFT).

Lemma PAGE_SIZE_pow2 : PS = 2 ^ PAGE_SHIFT.
Proof. unfold PAGE_SIZE. apply Z.shiftl_1_l. Qed.

Lemma PAGE_SIZE_ge_8 : 8 <= PS.
Proof.
  rewrite PAGE_SIZE_pow2. change 8 with (2 ^ 3).
  apply Z.pow_le_mono_r; lia.
Qed.

Lemma sizeof_u_range (b : ubits) : 1 <= sizeof_u b <= 8.
Proof. destruct b; cbn; lia. Qed.

Lemma page_index_div (m : Z) : get_eb_page_index PAGE_SHIFT m = m / PS.
Proof.
  unfold get_eb_page_index. rewrite PAGE_SIZE_pow2.
  apply Z.shiftr_div_pow2. lia.
Qed.

Lemma offset_in_page_mod (eb : extent_buffer) (m : Z) :
  get_eb_offset_in_page PAGE_SHIFT eb m = m mod PS.
Proof.
  unfold get_eb_offset_in_page. rewrite PAGE_SIZE_pow2.
  replace (2 ^ PAGE_SHIFT - 1) with (Z.ones PAGE_SHIFT)
    by (rewrite Z.ones_equiv; lia).
  apply Z.land_ones. lia.
Qed.

(** Where a valid access lands. *)
Lemma resolve (eb : extent_buffer) (ptr off size : Z) :
  wf_eb eb -> valid_access eb ptr off size -> 0 < size ->
  let m := ptr + off in
  ulong m = m /\ 0 <= m / PS < Z.of_nat (length (pages eb)) /\
  0 <= m mod PS < PS /\ m = (m / PS) * PS + m mod PS /\
  m + size < 2 ^ 64.
Proof.
  intros (Hp & Hl & Hm) (H0 & H1 & H2) Hs m.
  pose proof PAGE_SIZE_ge_8 as H8.
  assert (0 <= m) by (unfold m; lia).
  assert (Hmod : 0 <= m mod PS < PS) by (apply Z.mod_pos_bound; lia).
  assert (Hdm : m = (m / PS) * PS + m mod PS)
    by (rewrite Z.mul_comm; apply Z.div_mod; lia).
  repeat split; try lia.
  - apply ulong_small. unfold m. lia.
  - apply Z.div_pos; lia.
  - apply Z.div_lt_upper_bound; lia.
Qed.

Lemma check_setget_bounds_ok (eb : extent_buffer) (ptr off size : Z) :
  wf_eb eb -> valid_access eb ptr off size -> 0 <= size ->
  check_setget_bounds eb ptr off size = true.
Proof.
  intros (Hp & Hl & Hm) (H0 & H1 & H2) Hs.
  pose proof (uint_le off H1) as Hu.
  unfold check_setget_bounds.
  rewrite (ulong_small (ptr + uint off)) by lia.
  rewrite (ulong_small (ptr + uint off + size)) by lia.
  destruct (Z.ltb_spec (len eb) (ptr + uint off)); [lia|].
  destruct (Z.ltb_spec (len eb) (ptr + uint off + size)); [lia|].
  reflexivity.
Qed.

(** *** Reads and writes inside one page *)

Lemma wf_page (eb : extent_buffer) (k : Z) :
  wf_eb eb -> 0 <= k < Z.of_nat (length (pages eb)) ->
  exists p, nth_error (pages eb) (Z.to_nat k) = Some p /\
            Z.of_nat (length p) = PS.
Proof.
  intros (Hp & _) Hk.
  destruct (nth_error (pages eb) (Z.to_nat k)) as [p|] eqn:E.
  - exists p. split; [reflexivity|].
    rewrite Forall_forall in Hp. apply Hp. eapply nth_error_In; eauto.
  - apply nth_error_None in E. lia.
Qed.

Lemma read_bytes_ok (eb : extent_buffer) (k o n : Z) (p : page) :
  nth_error (pages eb) (Z.to_nat k) = Some p ->
  0 <= k -> 0 <= o -> 0 <= n -> o + n <= Z.of_nat (length p) ->
  read_bytes eb (Some k) o n
  = Done (firstn (Z.to_nat n) (skipn (Z.to_nat o) p)) [Rd k o n].
Proof.
  intros E Hk Ho Hn Hl. unfold read_bytes. rewrite E.
  destruct (Z.leb_spec 0 k); [|lia].
  destruct (Z.leb_spec 0 o); [|lia].
  destruct (Z.leb_spec 0 n); [|lia].
  destruct (Z.leb_spec (o + n) (Z.of_nat (length p))); [|lia].
  reflexivity.
Qed.

Lemma write_bytes_ok (eb : extent_buffer) (k o : Z) (bs : list byte) (p : page) :
  nth_error (pages eb) (Z.to_nat k) = Some p ->
  0 <= k -> 0 <= o -> o + Z.of_nat (length bs) <= Z.of_nat (length p) ->
  write_bytes eb (Some k) o bs
  = Done (set_pages eb (upd (Z.to_nat k) (splice (Z.to_nat o) bs p) (pages eb)))
      [Wr k o (Z.of_nat (length bs))].
Proof.
  intros E Hk Ho Hl. unfold write_bytes. rewrite E.
  destruct (Z.leb_spec 0 k); [|lia].
  destruct (Z.leb_spec 0 o); [|lia].
  destruct (Z.leb_spec (o + Z.of_nat (length bs)) (Z.of_nat (length p))); [|lia].
  reflexivity.
Qed.

(** Writing inside a page keeps the block well formed. *)
Lemma wf_eb_write (eb : extent_buffer) (k o : nat) (bs : list byte) (p : page) :
  wf_eb eb -> nth_error (pages eb) k = Some p ->
  (o + length bs <= length p)%nat ->
  wf_eb (set_pages eb (upd k (splice o bs p) (pages eb)))
  /\ length (upd k (splice o bs p) (pages eb)) = length (pages eb).
Proof.
  intros (Hp & Hl & Hm) E Hb.
  assert (Hk : (k < length (pages eb))%nat)
    by (apply nth_error_Some; congruence).
  pose proof (length_upd k (splice o bs p) (pages eb) Hk) as Hlen.
  split; [|exact Hlen].
  unfold StructFuncs.wf_eb, set_pages; cbn [pages len].
  unfold page in *. rewrite Hlen. repeat split; try lia.
  rewrite Forall_forall in Hp |- *. intros q Hq.
  apply In_nth_error in Hq. destruct Hq as [j Hj].
  destruct (Nat.eq_dec j k) as [->|Hne].
  - rewrite nth_error_upd_same in Hj by exact Hk.
    injection Hj as <-. rewrite length_splice by exact Hb.
    apply Hp. eapply nth_error_In; eauto.
  - rewrite nth_error_upd_other in Hj by assumption.
    apply Hp. eapply nth_error_In; eauto.
Qed.

(** *** The four accessors at a valid offset *)

Lemma ASSERT_true : ASSERT assert_enabled true = ret tt.
Proof. unfold ASSERT. rewrite andb_false_r. reflexivity. Qed.

Lemma bind_ret_l {A B} (a : A) (f : A -> outcome B) : bind (ret a) f = f a.
Proof. unfold bind, ret. destruct (f a); reflexivity. Qed.

Lemma bind_Done {A B} (a : A) (tr : list access) (f : A -> outcome B) b tr' :
  f a = Done b tr' -> bind (Done a tr) f = Done b (tr ++ tr').
Proof. intros E. unfold bind. rewrite E. reflexivity. Qed.

Section OneAccess.

Variable b : ubits.
Variable eb : extent_buffer.
Variables ptr off : Z.
Hypothesis Hwf : wf_eb eb.
Hypothesis Hva : valid_access eb ptr off (sizeof_u b).

Local Notation "'m'" := (ptr + off).
Local Notation "'idx'" := ((ptr + off) / PS).
Local Notation "'oip'" := ((ptr + off) mod PS).
Local Notation "'size'" := (sizeof_u b).
Local Notation "'part'" := (PS - (ptr + off) mod PS).

Lemma second_page : PS < oip + size ->
  0 <= idx + 1 < Z.of_nat (length (pages eb)).
Proof.
  intros Hs. pose proof (sizeof_u_range b) as Hb.
  destruct (resolve eb ptr off size Hwf Hva ltac:(lia))
    as (_ & Hi & Ho & Hdm & _).
  destruct Hwf as (_ & Hl & _). destruct Hva as (H0 & H1 & H2).
  split; [lia|]. nia.
Qed.

Lemma apfs_get_bits_single (p : page) :
  nth_error (pages eb) (Z.to_nat idx) = Some p ->
  oip + size <= PS ->
  apfs_get_bits PAGE_SHIFT assert_enabled b eb ptr off
  = Done (le_combine (firstn (Z.to_nat size) (skipn (Z.to_nat oip) p)))
      [Rd idx oip size].
Proof.
  intros Ep Hs. pose proof (sizeof_u_range b) as Hb.
  destruct (resolve eb ptr off size Hwf Hva ltac:(lia))
    as (Hu & Hi & Ho & Hdm & _).
  destruct (wf_page eb idx Hwf Hi) as (p' & Ep' & Hlen).
  rewrite Ep in Ep'. injection Ep' as <-.
  unfold apfs_get_bits.
  rewrite Hu, page_index_div, offset_in_page_mod.
  rewrite check_setget_bounds_ok by (assumption || lia).
  rewrite ASSERT_true, bind_ret_l.
  destruct (Z.leb_spec (oip + size) PS); [|lia].
  unfold get_unaligned_le, page_address.
  rewrite (read_bytes_ok eb idx oip size p) by (assumption || lia).
  reflexivity.
Qed.

Lemma apfs_get_bits_split (p q : page) :
  nth_error (pages eb) (Z.to_nat idx) = Some p ->
  nth_error (pages eb) (Z.to_nat (idx + 1)) = Some q ->
  PS < oip + size ->
  apfs_get_bits PAGE_SHIFT assert_enabled b eb ptr off
  = Done (le_combine (firstn (Z.to_nat part) (skipn (Z.to_nat oip) p)
                      ++ firstn (Z.to_nat (size - part)) q))
      [Rd idx oip part; Rd (idx + 1) 0 (size - part)].
Proof.
  intros Ep Eq Hs. pose proof (sizeof_u_range b) as Hb.
  pose proof PAGE_SIZE_ge_8 as H8.
  destruct (resolve eb ptr off size Hwf Hva ltac:(lia))
    as (Hu & Hi & Ho & Hdm & _).
  destruct (wf_page eb idx Hwf Hi) as (p' & Ep' & Hlen).
  rewrite Ep in Ep'. injection Ep' as <-.
  destruct (wf_page eb (idx + 1) Hwf (second_page Hs)) as (q' & Eq' & Hlenq).
  rewrite Eq in Eq'. injection Eq' as <-.
  unfold apfs_get_bits.
  rewrite Hu, page_index_div, offset_in_page_mod.
  rewrite check_setget_bounds_ok by (assumption || lia).
  rewrite ASSERT_true, bind_ret_l.
  destruct (Z.leb_spec (oip + size) PS); [lia|].
  unfold page_address.
  rewrite (read_bytes_ok eb idx oip part p) by (assumption || lia).
  rewrite (read_bytes_ok eb (idx + 1) 0 (size - part) q) by (assumption || lia).
  reflexivity.
Qed.

Lemma length_le_split_Z (v : Z) :
  Z.of_nat (length (le_split (Z.to_nat size) v)) = size.
Proof. pose proof (sizeof_u_range b). rewrite length_le_split. lia. Qed.

Lemma apfs_set_bits_single (p : page) (val : Z) :
  nth_error (pages eb) (Z.to_nat idx) = Some p ->
  oip + size <= PS ->
  apfs_set_bits PAGE_SHIFT assert_enabled b eb ptr off val
  = Done (set_pages eb
            (upd (Z.to_nat idx)
               (splice (Z.to_nat oip) (le_split (Z.to_nat size) val) p)
               (pages eb)))
      [Wr idx oip size].
Proof.
  intros Ep Hs. pose proof (sizeof_u_range b) as Hb.
  destruct (resolve eb ptr off size Hwf Hva ltac:(lia))
    as (Hu & Hi & Ho & Hdm & _).
  destruct (wf_page eb idx Hwf Hi) as (p' & Ep' & Hlen).
  rewrite Ep in Ep'. injection Ep' as <-.
  unfold apfs_set_bits.
  rewrite Hu, page_index_div, offset_in_page_mod.
  rewrite check_setget_bounds_ok by (assumption || lia).
  rewrite ASSERT_true, bind_ret_l.
  destruct (Z.leb_spec (oip + size) PS); [|lia].
  unfold put_unaligned_le, page_address.
  rewrite (write_bytes_ok eb idx oip _ p)
    by (rewrite ?length_le_split_Z; assumption || lia).
  rewrite length_le_split_Z. reflexivity.
Qed.

Lemma length_lebytes_lo (val : Z) : PS < oip + size ->
  length (firstn (Z.to_nat part) (le_split (Z.to_nat size) val))
  = Z.to_nat part.
Proof.
  intros Hs. pose proof (sizeof_u_range b) as Hb.
  destruct (resolve eb ptr off size Hwf Hva ltac:(lia)) as (_ & _ & Ho & _).
  rewrite length_firstn, length_le_split. lia.
Qed.

Lemma length_lebytes_hi (val : Z) : PS < oip + size ->
  length (firstn (Z.to_nat (size - part))
            (skipn (Z.to_nat part) (le_split (Z.to_nat size) val)))
  = Z.to_nat (size - part).
Proof.
  intros Hs. pose proof (sizeof_u_range b) as Hb.
  destruct (resolve eb ptr off size Hwf Hva ltac:(lia)) as (_ & _ & Ho & _).
  rewrite length_firstn, length_skipn, length_le_split. lia.
Qed.

Lemma apfs_set_bits_split (p q : page) (val : Z) :
  nth_error (pages eb) (Z.to_nat idx) = Some p ->
  nth_error (pages eb) (Z.to_nat (idx + 1)) = Some q ->
  PS < oip + size ->
  let lebytes := le_split (Z.to_nat size) val in
  apfs_set_bits PAGE_SHIFT assert_enabled b eb ptr off val
  = Done (set_pages eb
            (upd (Z.to_nat (idx + 1))
               (splice 0 (firstn (Z.to_nat (size - part))
                            (skipn (Z.to_nat part) lebytes)) q)
               (upd (Z.to_nat idx)
                  (splice (Z.to_nat oip) (firstn (Z.to_nat part) lebytes) p)
                  (pages eb))))
      [Wr idx oip part; Wr (idx + 1) 0 (size - part)].
Proof.
  intros Ep Eq Hs lebytes. pose proof (sizeof_u_range b) as Hb.
  pose proof PAGE_SIZE_ge_8 as H8.
  destruct (resolve eb ptr off size Hwf Hva ltac:(lia))
    as (Hu & Hi & Ho & Hdm & _).
  destruct (wf_page eb idx Hwf Hi) as (p' & Ep' & Hlen).
  rewrite Ep in Ep'. injection Ep' as <-.
  destruct (wf_page eb (idx + 1) Hwf (second_page Hs)) as (q' & Eq' & Hlenq).
  rewrite Eq in Eq'. injection Eq' as <-.
  pose proof (length_lebytes_lo val Hs) as Llo.
  pose proof (length_lebytes_hi val Hs) as Lhi.
  fold lebytes in Llo, Lhi.
  unfold apfs_set_bits.
  rewrite Hu, page_index_div, offset_in_page_mod.
  rewrite check_setget_bounds_ok by (assumption || lia).
  rewrite ASSERT_true, bind_ret_l.
  destruct (Z.leb_spec (oip + size) PS); [lia|].
  unfold page_address. fold lebytes.
  rewrite (write_bytes_ok eb idx oip _ p) by (rewrite ?Llo; assumption || lia).
  erewrite bind_Done; cycle 1.
  { apply (write_bytes_ok _ (idx + 1) 0 _ q); rewrite ?Lhi; try lia.
    unfold set_pages; cbn [pages].
    rewrite nth_error_upd_other; [exact Eq| |lia].
    apply nth_error_Some. congruence. }
  rewrite Llo, Lhi. unfold set_pages; cbn [pages start len fs_info].
  rewrite !Z2Nat.id by lia. reflexivity.
Qed.

(** *** The token accessors do what the plain ones do *)

Lemma shift_page (k : Z) :
  0 <= k < Z.of_nat (length (pages eb)) ->
  ulong (Z.shiftl k PAGE_SHIFT) = k * PS.
Proof.
  intros Hk. destruct Hwf as (_ & _ & Hm). pose proof PAGE_SIZE_ge_8.
  rewrite Z.shiftl_mul_pow2 by lia. rewrite <- PAGE_SIZE_pow2.
  apply ulong_small. nia.
Qed.

Lemma fast_path (k : Z) :
  0 <= k < Z.of_nat (length (pages eb)) ->
  (k * PS <=? ulong m) && (ulong (ulong m + size) <=? ulong (k * PS + PS))
  = true ->
  k = idx /\ oip + size <= PS.
Proof.
  intros Hk Hc. pose proof (sizeof_u_range b) as Hb.
  pose proof PAGE_SIZE_ge_8 as H8.
  destruct (resolve eb ptr off size Hwf Hva ltac:(lia))
    as (Hu & Hi & Ho & Hdm & Hlt).
  destruct Hwf as (_ & _ & Hm).
  rewrite Hu in Hc.
  rewrite (ulong_small (m + size)) in Hc by lia.
  rewrite (ulong_small (k * PS + PS)) in Hc by nia.
  apply andb_prop in Hc. destruct Hc as [H1 H2].
  apply Z.leb_le in H1, H2.
  assert (k = idx) by nia. subst k. split; [reflexivity|lia].
Qed.

Lemma token_ok_at (t : apfs_map_token) (k : Z) :
  tok_eb t = eb -> 0 <= k < Z.of_nat (length (pages eb)) ->
  token_ok (with_kaddr t (page_address (tok_eb t) k)
              (ulong (Z.shiftl k PAGE_SHIFT))).
Proof.
  intros Et Hk. exists k. cbn. rewrite Et. rewrite shift_page by exact Hk.
  repeat split; lia.
Qed.

Lemma apfs_get_token_bits_plain (t : apfs_map_token) :
  tok_eb t = eb -> token_ok t ->
  exists t', tok_eb t' = eb /\ token_ok t' /\
    forall v tr,
      apfs_get_bits PAGE_SHIFT assert_enabled b eb ptr off = Done v tr ->
      apfs_get_token_bits PAGE_SHIFT assert_enabled b t ptr off
      = Done (v, t') tr.
Proof.
  intros Et Htok. pose proof Htok as (k & Ek & Eo & Hk). rewrite Et in Hk.
  pose proof (sizeof_u_range b) as Hb. pose proof PAGE_SIZE_ge_8 as H8.
  destruct (resolve eb ptr off size Hwf Hva ltac:(lia))
    as (Hu & Hi & Ho & Hdm & Hlt).
  destruct (wf_page eb idx Hwf Hi) as (p & Ep & Hlen).
  unfold apfs_get_token_bits. cbv zeta.
  rewrite Ek, Eo, Et. cbn [is_null negb].
  rewrite check_setget_bounds_ok by (assumption || lia).
  rewrite !ASSERT_true, !bind_ret_l.
  destruct ((k * PS <=? ulong m)
            && (ulong (ulong m + size) <=? ulong (k * PS + PS))) eqn:Hc.
  - destruct (fast_path k Hk Hc) as [-> Hs].
    exists t. repeat split; try assumption.
    intros v tr Hp. rewrite (apfs_get_bits_single p Ep Hs) in Hp.
    injection Hp as <- <-.
    rewrite Hu, offset_in_page_mod. unfold get_unaligned_le.
    rewrite (read_bytes_ok eb idx oip size p) by (assumption || lia).
    reflexivity.
  - rewrite Hu, page_index_div, offset_in_page_mod.
    cbn [tok_eb tok_kaddr with_kaddr]. rewrite Et.
    destruct (Z.leb_spec (oip + size) PS) as [Hs|Hs].
    + eexists. split; [|split; [apply (token_ok_at t idx Et Hi)|]].
      { cbn. exact Et. }
      intros v tr Hp. rewrite (apfs_get_bits_single p Ep Hs) in Hp.
      injection Hp as <- <-.
      unfold get_unaligned_le, page_address.
      rewrite (read_bytes_ok eb idx oip size p) by (assumption || lia).
      cbn. rewrite ?Et. reflexivity.
    + pose proof (second_page Hs) as Hi2.
      destruct (wf_page eb (idx + 1) Hwf Hi2) as (q & Eq & Hlenq).
      eexists. split; [|split; [apply (token_ok_at t (idx + 1) Et Hi2)|]].
      { cbn. exact Et. }
      intros v tr Hp. rewrite (apfs_get_bits_split p q Ep Eq Hs) in Hp.
      injection Hp as <- <-.
      unfold page_address.
      rewrite (read_bytes_ok eb idx oip part p) by (assumption || lia).
      rewrite (read_bytes_ok eb (idx + 1) 0 (size - part) q)
        by (assumption || lia).
      cbn. rewrite ?Et. reflexivity.
Qed.

Lemma token_ok_mk (eb' : extent_buffer) (k : Z) :
  0 <= k < Z.of_nat (length (pages eb')) ->
  token_ok {| tok_eb := eb'; tok_kaddr := Some k; tok_offset := k * PS |}.
Proof. intros Hk. exists k. cbn. repeat split; lia. Qed.

Lemma apfs_set_token_bits_plain (t : apfs_map_token) (val : Z) :
  tok_eb t = eb -> token_ok t ->
  forall eb' tr,
    apfs_set_bits PAGE_SHIFT assert_enabled b eb ptr off val = Done eb' tr ->
    exists t',
      apfs_set_token_bits PAGE_SHIFT assert_enabled b t ptr off val
      = Done t' tr /\ tok_eb t' = eb' /\ token_ok t'.
Proof.
  intros Et Htok eb' tr Hp.
  pose proof Htok as (k & Ek & Eo & Hk). rewrite Et in Hk.
  pose proof (sizeof_u_range b) as Hb. pose proof PAGE_SIZE_ge_8 as H8.
  destruct (resolve eb ptr off size Hwf Hva ltac:(lia))
    as (Hu & Hi & Ho & Hdm & Hlt).
  destruct (wf_page eb idx Hwf Hi) as (p & Ep & Hlen).
  assert (Hidx : (Z.to_nat idx < length (pages eb))%nat) by lia.
  unfold apfs_set_token_bits. cbv zeta.
  rewrite Ek, Eo, Et. cbn [is_null negb].
  rewrite check_setget_bounds_ok by (assumption || lia).
  rewrite !ASSERT_true, !bind_ret_l.
  destruct ((k * PS <=? ulong m)
            && (ulong (ulong m + size) <=? ulong (k * PS + PS))) eqn:Hc.
  - destruct (fast_path k Hk Hc) as [-> Hs].
    rewrite (apfs_set_bits_single p val Ep Hs) in Hp.
    injection Hp as <- <-.
    rewrite Hu, offset_in_page_mod. unfold put_unaligned_le.
    rewrite (write_bytes_ok eb idx oip _ p)
      by (rewrite ?length_le_split_Z; assumption || lia).
    rewrite length_le_split_Z.
    eexists. split; [reflexivity|]. split; [reflexivity|].
    unfold with_eb. rewrite Ek, Eo. apply token_ok_mk.
    cbn [pages set_pages]. rewrite length_upd by exact Hidx. exact Hi.
  - rewrite Hu, page_index_div, offset_in_page_mod.
    cbn [tok_eb tok_kaddr with_kaddr]. rewrite Et.
    destruct (Z.leb_spec (oip + size) PS) as [Hs|Hs].
    + rewrite (apfs_set_bits_single p val Ep Hs) in Hp.
      injection Hp as <- <-.
      unfold put_unaligned_le, page_address.
      rewrite (write_bytes_ok eb idx oip _ p)
        by (rewrite ?length_le_split_Z; assumption || lia).
      rewrite length_le_split_Z.
      eexists. split; [reflexivity|]. split; [reflexivity|].
      unfold with_eb; cbn [tok_kaddr tok_offset].
      rewrite (shift_page idx Hi). apply token_ok_mk.
      cbn [pages set_pages]. rewrite length_upd by exact Hidx. exact Hi.
    + pose proof (second_page Hs) as Hi2.
      destruct (wf_page eb (idx + 1) Hwf Hi2) as (q & Eq & Hlenq).
      rewrite (apfs_set_bits_split p q val Ep Eq Hs) in Hp.
      injection Hp as <- <-.
      pose proof (length_lebytes_lo val Hs) as Llo.
      pose proof (length_lebytes_hi val Hs) as Lhi.
      unfold page_address.
      rewrite (write_bytes_ok eb idx oip _ p)
        by (rewrite ?Llo; assumption || lia).
      erewrite bind_Done; cycle 1.
      { cbn [tok_eb tok_kaddr with_kaddr with_eb].
        rewrite (write_bytes_ok _ (idx + 1) 0 _ q);
          [reflexivity| |lia|lia|rewrite Lhi; lia].
        unfold set_pages; cbn [pages].
        rewrite nth_error_upd_other; [exact Eq|exact Hidx|lia]. }
      rewrite Llo, Lhi, !Z2Nat.id by lia.
      eexists. split; [reflexivity|]. split; [reflexivity|].
      unfold with_eb; cbn [tok_kaddr tok_offset].
      rewrite (shift_page (idx + 1) Hi2). apply token_ok_mk.
      cbn [pages set_pages].
      rewrite !length_upd; rewrite ?length_upd; try lia.
Qed.

End OneAccess.

(** *** What the plain accessors return *)

Lemma apfs_get_bits_done b eb ptr off :
  wf_eb eb -> valid_access eb ptr off (sizeof_u b) ->
  exists v tr,
    apfs_get_bits PAGE_SHIFT assert_enabled b eb ptr off = Done v tr /\
    trace_in_bounds PAGE_SHIFT eb ((ptr + off) / PS) tr.
Proof.
  intros Hwf Hva. pose proof (sizeof_u_range b) as Hb.
  pose proof PAGE_SIZE_ge_8 as H8.
  destruct (resolve eb ptr off _ Hwf Hva ltac:(lia))
    as (Hu & Hi & Ho & Hdm & Hlt).
  destruct (wf_page eb _ Hwf Hi) as (p & Ep & Hlen).
  pose proof Hva as (H0 & H1 & H2).
  destruct (Z.le_gt_cases ((ptr + off) mod PS + sizeof_u b) PS) as [Hs|Hs].
  - do 2 eexists. split; [apply (apfs_get_bits_single b eb ptr off Hwf Hva p Ep Hs)|].
    repeat constructor; cbn; lia.
  - pose proof (second_page b eb ptr off Hwf Hva Hs) as Hi2.
    destruct (wf_page eb _ Hwf Hi2) as (q & Eq & Hlenq).
    do 2 eexists.
    split; [apply (apfs_get_bits_split b eb ptr off Hwf Hva p q Ep Eq Hs)|].
    repeat constructor; cbn; lia.
Qed.

Lemma apfs_set_bits_done b eb ptr off val :
  wf_eb eb -> valid_access eb ptr off (sizeof_u b) ->
  exists eb' tr,
    apfs_set_bits PAGE_SHIFT assert_enabled b eb ptr off val = Done eb' tr /\
    wf_eb eb' /\ len eb' = len eb /\
    length (pages eb') = length (pages eb) /\
    trace_in_bounds PAGE_SHIFT eb ((ptr + off) / PS) tr.
Proof.
  intros Hwf Hva. pose proof (sizeof_u_range b) as Hb.
  pose proof PAGE_SIZE_ge_8 as H8.
  destruct (resolve eb ptr off _ Hwf Hva ltac:(lia))
    as (Hu & Hi & Ho & Hdm & Hlt).
  destruct (wf_page eb _ Hwf Hi) as (p & Ep & Hlen).
  pose proof Hva as (H0 & H1 & H2).
  destruct (Z.le_gt_cases ((ptr + off) mod PS + sizeof_u b) PS) as [Hs|Hs].
  - do 2 eexists.
    split; [apply (apfs_set_bits_single b eb ptr off Hwf Hva p val Ep Hs)|].
    destruct (wf_eb_write eb (Z.to_nat ((ptr + off) / PS))
                (Z.to_nat ((ptr + off) mod PS))
                (le_split (Z.to_nat (sizeof_u b)) val) p Hwf Ep) as [W L].
    { rewrite length_le_split. lia. }
    split; [exact W|]. split; [reflexivity|]. split; [exact L|].
    repeat constructor; cbn; lia.
  - pose proof (second_page b eb ptr off Hwf Hva Hs) as Hi2.
    destruct (wf_page eb _ Hwf Hi2) as (q & Eq & Hlenq).
    pose proof (length_lebytes_lo b eb ptr off Hwf Hva val Hs) as Llo.
    pose proof (length_lebytes_hi b eb ptr off Hwf Hva val Hs) as Lhi.
    do 2 eexists.
    split; [apply (apfs_set_bits_split b eb ptr off Hwf Hva p q val Ep Eq Hs)|].
    destruct (wf_eb_write eb (Z.to_nat ((ptr + off) / PS))
                (Z.to_nat ((ptr + off) mod PS))
                (firstn (Z.to_nat (PS - (ptr + off) mod PS))
                   (le_split (Z.to_nat (sizeof_u b)) val))
                p Hwf Ep) as [W1 L1].
    { rewrite Llo. lia. }
    match type of W1 with wf_eb ?e =>
      destruct (wf_eb_write e (Z.to_nat ((ptr + off) / PS + 1)) 0%nat
                  (firstn (Z.to_nat (sizeof_u b - (PS - (ptr + off) mod PS)))
                     (skipn (Z.to_nat (PS - (ptr + off) mod PS))
                        (le_split (Z.to_nat (sizeof_u b)) val)))
                  q W1) as [W2 L2]
    end.
    { cbn [pages set_pages]. rewrite nth_error_upd_other; [exact Eq| |lia].
      apply nth_error_Some. congruence. }
    { rewrite Lhi. lia. }
    cbn [pages set_pages] in W2, L2.
    split; [exact W2|]. split; [reflexivity|].
    split; [cbn [pages set_pages]; etransitivity; [exact L2|exact L1]|].
    repeat constructor; cbn; lia.
Qed.

(** *** Reading back what was written *)

Lemma le_combine_split_small (b : ubits) (v : Z) :
  0 <= v < 2 ^ nbits b ->
  le_combine (le_split (Z.to_nat (sizeof_u b)) v) = v.
Proof.
  intros Hv. rewrite le_combine_split.
  replace (Z.of_nat (Z.to_nat (sizeof_u b)) * 8) with (nbits b)
    by (destruct b; reflexivity).
  apply Z.mod_small. exact Hv.
Qed.

Lemma read_splice_Z (o n : Z) (bs p : list byte) :
  0 <= o -> 0 <= n -> length bs = Z.to_nat n ->
  o + n <= Z.of_nat (length p) ->
  firstn (Z.to_nat n) (skipn (Z.to_nat o) (splice (Z.to_nat o) bs p)) = bs.
Proof.
  intros Ho Hn0 Hn Hl. rewrite <- Hn. apply read_splice. lia.
Qed.

Lemma set_get_bits (b : ubits) (eb : extent_buffer) (ptr off v : Z) :
  wf_eb eb -> valid_access eb ptr off (sizeof_u b) ->
  exists eb' tr tr',
    apfs_set_bits PAGE_SHIFT assert_enabled b eb ptr off v = Done eb' tr /\
    apfs_get_bits PAGE_SHIFT assert_enabled b eb' ptr off
    = Done (le_combine (le_split (Z.to_nat (sizeof_u b)) v)) tr'.
Proof.
  intros Hwf Hva. pose proof (sizeof_u_range b) as Hb.
  pose proof PAGE_SIZE_ge_8 as H8.
  destruct (resolve eb ptr off _ Hwf Hva ltac:(lia))
    as (Hu & Hi & Ho & Hdm & Hlt).
  destruct (wf_page eb _ Hwf Hi) as (p & Ep & Hlen).
  assert (Hidx : (Z.to_nat ((ptr + off) / PS) < length (pages eb))%nat) by lia.
  set (lebytes := le_split (Z.to_nat (sizeof_u b)) v).
  assert (Ll : length lebytes = Z.to_nat (sizeof_u b))
    by apply length_le_split.
  destruct (Z.le_gt_cases ((ptr + off) mod PS + sizeof_u b) PS) as [Hs|Hs].
  - destruct (wf_eb_write eb (Z.to_nat ((ptr + off) / PS))
                (Z.to_nat ((ptr + off) mod PS)) lebytes p Hwf Ep) as [W L];
      [lia|].
    do 3 eexists.
    split; [apply (apfs_set_bits_single b eb ptr off Hwf Hva p v Ep Hs)|].
    fold lebytes.
    erewrite (apfs_get_bits_single b _ ptr off W); [| exact Hva | | exact Hs].
    2:{ cbn [pages set_pages]. apply nth_error_upd_same. exact Hidx. }
    rewrite read_splice_Z by lia. reflexivity.
  - pose proof (second_page b eb ptr off Hwf Hva Hs) as Hi2.
    destruct (wf_page eb _ Hwf Hi2) as (q & Eq & Hlenq).
    pose proof (length_lebytes_lo b eb ptr off Hwf Hva v Hs) as Llo.
    pose proof (length_lebytes_hi b eb ptr off Hwf Hva v Hs) as Lhi.
    fold lebytes in Llo, Lhi.
    set (lo := firstn (Z.to_nat (PS - (ptr + off) mod PS)) lebytes) in *.
    set (hi := firstn (Z.to_nat (sizeof_u b - (PS - (ptr + off) mod PS)))
                 (skipn (Z.to_nat (PS - (ptr + off) mod PS)) lebytes)) in *.
    destruct (wf_eb_write eb (Z.to_nat ((ptr + off) / PS))
                (Z.to_nat ((ptr + off) mod PS)) lo p Hwf Ep) as [W1 L1];
      [lia|].
    match type of W1 with wf_eb ?e =>
      destruct (wf_eb_write e (Z.to_nat ((ptr + off) / PS + 1)) 0%nat hi q W1)
        as [W2 L2]
    end.
    { cbn [pages set_pages]. rewrite nth_error_upd_other; [exact Eq| |lia].
      exact Hidx. }
    { lia. }
    cbn [pages set_pages] in W2, L2.
    do 3 eexists.
    split; [apply (apfs_set_bits_split b eb ptr off Hwf Hva p q v Ep Eq Hs)|].
    cbv zeta. fold lebytes. fold lo. fold hi.
    match goal with |- apfs_get_bits _ _ _ ?e _ _ = _ =>
      change e with (set_pages eb (pages e)) in W2 |- *
    end.
    erewrite (apfs_get_bits_split b _ ptr off); [| | exact Hva | | | exact Hs].
    3:{ cbn [pages set_pages].
        rewrite nth_error_upd_other; [apply nth_error_upd_same; exact Hidx| |lia].
        unfold page in *. rewrite L1. lia. }
    3:{ cbn [pages set_pages]. apply nth_error_upd_same.
        unfold page in *. rewrite L1. lia. }
    2:{ exact W2. }
    rewrite read_splice_Z by lia.
    change (firstn (Z.to_nat (sizeof_u b - (PS - (ptr + off) mod PS)))
              (splice 0 hi q))
      with (firstn (Z.to_nat (sizeof_u b - (PS - (ptr + off) mod PS)))
              (skipn (Z.to_nat 0) (splice (Z.to_nat 0) hi q))).
    rewrite read_splice_Z by lia.
    f_equal. f_equal. unfold lo, hi.
    rewrite (@firstn_all2 _ _ (skipn _ lebytes))
      by (rewrite length_skipn; lia).
    apply firstn_skipn.
Qed.

(** *** Runs of accesses *)

Lemma op_valid_len (eb eb' : extent_buffer) (o : op) :
  len eb' = len eb -> op_valid eb o -> op_valid eb' o.
Proof.
  intros Hl. destruct o; cbn; unfold valid_access; rewrite Hl; exact id.
Qed.

Lemma run_token_plain (ops : list op) : forall t,
  wf_eb (tok_eb t) -> token_ok t -> Forall (op_valid (tok_eb t)) ops ->
  exists vs t' tr,
    run_token PAGE_SHIFT assert_enabled t ops = Done (vs, t') tr /\
    run_plain PAGE_SHIFT assert_enabled (tok_eb t) ops
    = Done (vs, tok_eb t') tr.
Proof.
  induction ops as [|o rest IH]; intros t Hwf Htok Hops.
  - exists [], t, []. split; reflexivity.
  - inversion Hops as [|? ? Ho Hrest]; subst.
    destruct o as [b ptr off|b ptr off val]; cbn [op_valid] in Ho.
    + destruct (apfs_get_bits_done b _ ptr off Hwf Ho) as (v & tr & Hg & _).
      destruct (apfs_get_token_bits_plain b _ ptr off Hwf Ho t eq_refl Htok)
        as (t1 & Et1 & Htok1 & Hgt).
      specialize (Hgt v tr Hg).
      destruct (IH t1) as (vs & t' & tr' & Hrt & Hrp);
        [rewrite ?Et1; assumption..|].
      exists (v :: vs), t', (tr ++ tr' ++ []).
      cbn [run_token run_plain]. rewrite Hg, Hgt. cbn [bind snd fst].
      rewrite Hrt. rewrite Et1 in Hrp. rewrite Hrp. split; reflexivity.
    + destruct (apfs_set_bits_done b _ ptr off val Hwf Ho)
        as (eb' & tr & Hs & Hwf' & Hlen & _).
      destruct (apfs_set_token_bits_plain b _ ptr off Hwf Ho t val eq_refl
                  Htok eb' tr Hs) as (t1 & Hst & Et1 & Htok1).
      destruct (IH t1) as (vs & t' & tr' & Hrt & Hrp).
      { rewrite Et1. exact Hwf'. }
      { exact Htok1. }
      { rewrite Et1. eapply Forall_impl; [|exact Hrest].
        intros o. apply op_valid_len. exact Hlen. }
      exists vs, t', (tr ++ tr').
      cbn [run_token run_plain]. rewrite Hs, Hst. cbn [bind].
      rewrite Hrt. rewrite Et1 in Hrp. rewrite Hrp. split; reflexivity.
Qed.

(** *** The accessor properties *)

(** C2. For each width ([apfs_set_8] / [apfs_get_8] up to [apfs_set_64] /
    [apfs_get_64], the instances of the macro at [b]), each well-formed block
    and each offset with [ptr + off + sizeof <= len], also one whose bytes lie
    on two pages: the set returns, and the get that follows at the same
    offset returns the value written, for every value of the width. *)
Theorem apfs_set_get_roundtrip (b : ubits) (eb : extent_buffer)
  (ptr off v : Z) :
  wf_eb eb -> valid_access eb ptr off (sizeof_u b) -> 0 <= v < 2 ^ nbits b ->
  exists eb' tr tr',
    apfs_set_bits PAGE_SHIFT assert_enabled b eb ptr off v = Done eb' tr /\
    apfs_get_bits PAGE_SHIFT assert_enabled b eb' ptr off = Done v tr'.
Proof.
  intros Hwf Hva Hv.
  destruct (set_get_bits b eb ptr off v Hwf Hva) as (eb' & tr & tr' & Hs & Hg).
  rewrite le_combine_split_small in Hg by exact Hv.
  exists eb', tr, tr'. split; assumption.
Qed.


(** C4, amended. A sequence of gets and sets at valid offsets, run through
    the token accessors from a token that caches a page of the block
    together with the offset of that page, whichever page it is, returns the
    values, makes the accesses and leaves the block that the plain accessors
    return, make and leave. *)
Theorem token_accessors_equivalent (t : apfs_map_token) (ops : list op) :
  wf_eb (tok_eb t) -> token_ok t -> Forall (op_valid (tok_eb t)) ops ->
  exists vs t' tr,
    run_token PAGE_SHIFT assert_enabled t ops = Done (vs, t') tr /\
    run_plain PAGE_SHIFT assert_enabled (tok_eb t) ops
    = Done (vs, tok_eb t') tr.
Proof. intros Hwf Htok Hops. apply run_token_plain; assumption. Qed.

End PagedFacts.

(** *** The properties at the sample block *)

Lemma small_eb_wf : wf_eb 3 Samples.small_eb.
Proof.
  unfold wf_eb. split; [repeat constructor|].
  change (PAGE_SIZE 3) with 8. cbn. lia.
Qed.

Lemma small_token_ok : token_ok 3 Samples.small_token.
Proof. exists 2. cbn. change (PAGE_SIZE 3) with 8. repeat split; lia. Qed.

Lemma apfs_set_get_roundtrip_witness :
  exists eb' tr tr',
    apfs_set_bits 3 true U64 Samples.small_eb 2 3 1311768467463790320
    = Done eb' tr /\
    apfs_get_bits 3 true U64 eb' 2 3 = Done 1311768467463790320 tr'.
Proof.
  apply (apfs_set_get_roundtrip 3 true ltac:(lia) U64 Samples.small_eb 2 3).
  - exact small_eb_wf.
  - unfold valid_access. cbn. lia.
  - cbn. lia.
Defined.


(** C4 as stated, for any initial token state, fails at a token whose
    cached address is page 1 while its cached offset is 0: the token get of
    the first byte takes the fast path and reads page 1, the plain get reads
    page 0. *)
Lemma stale_token_reads_elsewhere :
  wf_eb 3 (tok_eb Samples.stale_token) /\
  Forall (op_valid (tok_eb Samples.stale_token)) [OpGet U8 0 0] /\
  run_token 3 true Samples.stale_token [OpGet U8 0 0]
  = Done ([0], Samples.stale_token) [Rd 1 0 1] /\
  run_plain 3 true (tok_eb Samples.stale_token) [OpGet U8 0 0]
  = Done ([170], tok_eb Samples.stale_token) [Rd 0 0 1] /\
  ~ (exists vs t' tr tr',
        run_token 3 true Samples.stale_token [OpGet U8 0 0]
        = Done (vs, t') tr /\
        run_plain 3 true (tok_eb Samples.stale_token) [OpGet U8 0 0]
        = Done (vs, tok_eb t') tr').
Proof.
  split; [|split; [|split; [|split]]].
  - unfold wf_eb. split; [vm_compute; repeat constructor|].
    split_all; by_eval.
  - apply Forall_cons; [|apply Forall_nil].
    unfold op_valid, valid_access. split_all; by_eval.
  - vm_compute. reflexivity.
  - vm_compute. reflexivity.
  - intros (vs & t' & tr & tr' & Ht & Hp).
    vm_compute in Ht, Hp. congruence.
Qed.


(** The sample run: the values read and the bytes left. *)
Example small_ops_run :
  exists tr,
    run_plain 3 true Samples.small_eb Samples.small_ops
    = Done ([2023406814; 2882338816; 65280],
            set_pages Samples.small_eb
              (map (map byte.of_Z)
                 [[0; 0; 0; 0; 0; 240; 222; 188];
                  [154; 120; 86; 52; 18; 0; 0; 205];
                  [171; 0; 0; 0; 0; 0; 0; 255]])) tr.
Proof. eexists. vm_compute. reflexivity. Qed.

Lemma token_accessors_equivalent_witness :
  exists vs t' tr,
    run_token 3 true Samples.small_token Samples.small_ops
    = Done (vs, t') tr /\
    run_plain 3 true (tok_eb Samples.small_token) Samples.small_ops
    = Done (vs, tok_eb t') tr.
Proof.
  apply (token_accessors_equivalent 3 true ltac:(lia)).
  - exact small_eb_wf.
  - exact small_token_ok.
  - unfold Samples.small_ops.
    repeat (apply Forall_cons; [unfold op_valid, valid_access; cbn; lia|]).
    apply Forall_nil.
Defined.

(** ** The width of a value read *)

Section GetRange.

Variable PAGE_SHIFT : Z.
Variable assert_enabled : bool.

Lemma read_bytes_length eb k o n bs tr :
  read_bytes eb k o n = Done bs tr -> (length bs <= Z.to_nat n)%nat /\ 0 <= n.
Proof.
  unfold read_bytes. destruct k as [k|]; [|discriminate].
  destruct (nth_error (pages eb) (Z.to_nat k)) as [p|]; [|discriminate].
  destruct (0 <=? k); [|discriminate].
  destruct (0 <=? o); [|discriminate].
  destruct (Z.leb_spec 0 n); [|discriminate].
  destruct (o + n <=? Z.of_nat (length p)); [|discriminate].
  cbn. intros E. injection E as <- _. split; [|assumption].
  rewrite length_firstn. lia.
Qed.

Lemma le_combine_lt (bs : list byte) (n : Z) :
  Z.of_nat (length bs) <= n -> 0 <= le_combine bs < 2 ^ (8 * n).
Proof.
  intros H. pose proof (le_combine_bound bs) as Hb.
  split; [lia|]. eapply Z.lt_le_trans; [apply Hb|].
  apply Z.pow_le_mono_r; lia.
Qed.

(** A get that returns, returns a value of its width. *)
Lemma apfs_get_bits_range b eb ptr off v tr :
  apfs_get_bits PAGE_SHIFT assert_enabled b eb ptr off = Done v tr ->
  0 <= v < 2 ^ nbits b.
Proof.
  assert (Hn : nbits b = 8 * sizeof_u b) by (destruct b; reflexivity).
  rewrite Hn. unfold apfs_get_bits. cbv zeta.
  destruct (ASSERT assert_enabled _); cbn [bind]; try discriminate.
  destruct (_ <=? _).
  - unfold get_unaligned_le.
    destruct (read_bytes _ _ _ _) as [bs tr1| |] eqn:E; cbn; try discriminate.
    intros Ev. injection Ev as <- _.
    apply read_bytes_length in E. apply le_combine_lt. lia.
  - destruct (read_bytes _ _ _ _) as [bs1 tr1| |] eqn:E1; cbn [bind];
      try discriminate.
    destruct (read_bytes _ _ 0 _) as [bs2 tr2| |] eqn:E2; cbn; try discriminate.
    intros Ev. injection Ev as <- _.
    apply read_bytes_length in E1, E2. apply le_combine_lt.
    rewrite length_app. lia.
Qed.
End GetRange.

(** ** The entry points *)

Import TreeChecker.


Section CheckerFacts.

Context {C : ctree}.

(** C1. Whatever the block, [apfs_check_leaf_full],
    [apfs_check_leaf_relaxed] and [apfs_check_node] return 0 and log
    nothing: [check_leaf] and [apfs_check_node] return before any of
    their checks. *)
Theorem entry_points_always_return_0 (eb : extent_buffer) :
  apfs_check_leaf_full eb = Returns (0, []) /\
  apfs_check_leaf_relaxed eb = Returns (0, []) /\
  apfs_check_node eb = (0, []).
Proof. repeat split; reflexivity. Qed.

End CheckerFacts.
(** ** What the unreached statements of the leaf and node checkers do *)

Section UnreachedFacts.

Context {C : ctree}.

Lemma prev_key_of_succ (leaf : extent_buffer) (slot : Z) :
  0 <= slot -> prev_key_of leaf (slot + 1) = apfs_item_key_to_cpu leaf slot.
Proof.
  intros H. unfold prev_key_of.
  destruct (Z.eqb_spec (slot + 1) 0); [lia|]. f_equal. lia.
Qed.

(** A key out of order: the loop over the slots does not return 0, with or
    without the item checks. *)
Lemma check_leaf_loop_disorder (leaf : extent_buffer) (cid : bool) (n : nat) :
  forall s i v, 0 <= s -> s <= i < s + Z.of_nat n ->
    key_in_order leaf i = false ->
    check_leaf_loop n leaf cid s (prev_key_of leaf s) = Returns v ->
    fst v < 0.
Proof.
  induction n as [|n IH]; intros s i v Hs Hi Hord Hr; [lia|].
  cbn [check_leaf_loop] in Hr.
  destruct (Z.leb_spec 0 (apfs_comp_cpu_keys leaf (prev_key_of leaf s)
                            (apfs_item_key_to_cpu leaf s))) as [Hc|Hc].
  { injection Hr as <-. cbn. lia. }
  destruct (negb _); [injection Hr as <-; cbn; lia|].
  destruct (_ <? _); [injection Hr as <-; cbn; lia|].
  destruct (Z.eq_dec i s) as [->|Hne].
  { unfold key_in_order in Hord. apply Z.ltb_ge in Hord. lia. }
  destruct (if cid then _ else _) as [ret| |]; cbn [run_bind] in Hr;
    try discriminate.
  destruct (Z.ltb_spec (fst ret) 0).
  - injection Hr as <-. assumption.
  - rewrite <- (prev_key_of_succ leaf s Hs) in Hr.
    apply (IH (s + 1) i v); (assumption || lia).
Qed.

(** Keys in order and payloads in place: the loop without the item checks
    returns 0. *)
Lemma check_leaf_loop_relaxed_ok (leaf : extent_buffer) (n : nat) :
  forall s, 0 <= s ->
    (forall i, s <= i < s + Z.of_nat n ->
               key_in_order leaf i = true /\ payload_in_place leaf i = true) ->
    check_leaf_loop n leaf false s (prev_key_of leaf s) = Returns (0, []).
Proof.
  induction n as [|n IH]; intros s Hs Hall; [reflexivity|].
  cbn [check_leaf_loop].
  destruct (Hall s ltac:(lia)) as [Hk Hp].
  unfold key_in_order in Hk. apply Z.ltb_lt in Hk.
  destruct (Z.leb_spec 0 (apfs_comp_cpu_keys leaf (prev_key_of leaf s)
                            (apfs_item_key_to_cpu leaf s))); [lia|].
  unfold payload_in_place in Hp. apply andb_prop in Hp. destruct Hp as [He Hw].
  rewrite He. cbn [negb]. rewrite Z.ltb_antisym, Hw. cbn [negb run_bind fst].
  change (0 <? 0) with false. cbv iota.
  rewrite <- (prev_key_of_succ leaf s Hs).
  apply IH; [lia|]. intros i Hi. apply Hall. lia.
Qed.

(** The statements after the [return 0;] of [check_leaf] never return 0
    for a leaf with a key out of order, in either mode, and in relaxed mode
    they return 0 for a leaf of level 0 whose keys increase and whose
    payloads lie back to back in the data area. *)
Theorem check_leaf_unreached_order (leaf : extent_buffer) (cid : bool)
  (i : Z) (v : verdict) :
  0 <= i < u32 (apfs_header_nritems leaf) ->
  key_in_order leaf i = false ->
  check_leaf_unreached leaf cid = Returns v -> fst v < 0.
Proof.
  intros Hi Hord. unfold check_leaf_unreached. cbv zeta.
  destruct (negb _); [intros E; injection E as <-; cbn; lia|].
  destruct (Z.eqb_spec (u32 (apfs_header_nritems leaf)) 0); [lia|].
  cbn [andb]. intros Hr.
  apply (check_leaf_loop_disorder leaf cid
           (Z.to_nat (u32 (apfs_header_nritems leaf))) 0 i v);
    try lia; assumption.
Qed.

Theorem check_leaf_unreached_relaxed_accepts (leaf : extent_buffer) :
  apfs_header_level leaf = 0 ->
  (forall i, 0 <= i < u32 (apfs_header_nritems leaf) ->
             key_in_order leaf i = true /\ payload_in_place leaf i = true) ->
  0 < u32 (apfs_header_nritems leaf) ->
  check_leaf_unreached leaf false = Returns (0, []).
Proof.
  intros Hl Hall Hn. unfold check_leaf_unreached. cbv zeta.
  rewrite Hl. cbn [Z.eqb negb].
  destruct (Z.eqb_spec (u32 (apfs_header_nritems leaf)) 0); [lia|].
  cbn [andb].
  apply (check_leaf_loop_relaxed_ok leaf
           (Z.to_nat (u32 (apfs_header_nritems leaf))) 0); [lia|].
  intros i Hi. apply Hall. lia.
Qed.

(** The loop of [apfs_check_node]: it returns 0 when every pointer it
    visits is valid and in order, and reports the first slot that is not. *)
Lemma apfs_check_node_loop_ok (node : extent_buffer) (n : nat) :
  forall s,
    (forall i, s <= i < s + Z.of_nat n ->
               pointer_valid node i = true /\ pointer_in_order node i = true) ->
    apfs_check_node_loop n node s = (0, []).
Proof.
  induction n as [|n IH]; intros s Hall; [reflexivity|].
  cbn [apfs_check_node_loop].
  destruct (Hall s ltac:(lia)) as [Hv Ho].
  unfold pointer_valid in Hv. apply andb_prop in Hv. destruct Hv as [Hnz Hal].
  apply negb_true_iff in Hnz. rewrite Hnz, Hal. cbn [negb].
  unfold pointer_in_order in Ho. rewrite Z.leb_antisym, Ho. cbn [negb].
  apply IH. intros i Hi. apply Hall. lia.
Qed.

Lemma apfs_check_node_loop_first_disorder (node : extent_buffer) (n : nat) :
  forall s i, s <= i < s + Z.of_nat n ->
    (forall j, s <= j < i ->
               pointer_valid node j = true /\ pointer_in_order node j = true) ->
    pointer_valid node i = true -> pointer_in_order node i = false ->
    apfs_check_node_loop n node s
    = corrupt (generic_err node i
        "bad key order, current (%llu %u %llu) next (%llu %u %llu)").
Proof.
  induction n as [|n IH]; intros s i Hi Hbefore Hv Ho; [lia|].
  cbn [apfs_check_node_loop].
  destruct (Z.eq_dec i s) as [->|Hne].
  - unfold pointer_valid in Hv. apply andb_prop in Hv. destruct Hv as [Hnz Hal].
    apply negb_true_iff in Hnz. rewrite Hnz, Hal. cbn [negb].
    unfold pointer_in_order in Ho. rewrite Z.leb_antisym, Ho. reflexivity.
  - destruct (Hbefore s ltac:(lia)) as [Hv' Ho'].
    unfold pointer_valid in Hv'. apply andb_prop in Hv'.
    destruct Hv' as [Hnz Hal].
    apply negb_true_iff in Hnz. rewrite Hnz, Hal. cbn [negb].
    unfold pointer_in_order in Ho'. rewrite Z.leb_antisym, Ho'. cbn [negb].
    apply IH; try assumption; [lia|]. intros j Hj. apply Hbefore. lia.
Qed.

(** The statements after the [return 0;] of [apfs_check_node]: a node of a
    level in [1, MAX_LEVEL - 1] with three pointers [k0, k1, k2], the first
    to a valid address and [k1] not above [k0], is rejected at slot 0; with
    valid addresses and increasing keys a node is accepted. *)
Theorem apfs_check_node_unreached_order (node : extent_buffer) :
  0 < apfs_header_level node < APFS_MAX_LEVEL ->
  ulong (apfs_header_nritems node) = 3 ->
  pointer_valid node 0 = true -> pointer_in_order node 0 = false ->
  apfs_check_node_unreached node
  = corrupt (generic_err node 0
      "bad key order, current (%llu %u %llu) next (%llu %u %llu)").
Proof.
  intros Hl Hn Hv Ho. unfold apfs_check_node_unreached. cbv zeta.
  destruct (Z.leb_spec (apfs_header_level node) 0); [lia|].
  destruct (Z.leb_spec APFS_MAX_LEVEL (apfs_header_level node)); [lia|].
  cbn [orb]. rewrite Hn. cbn [Z.eqb].
  apply apfs_check_node_loop_first_disorder; try assumption.
  - cbn. lia.
  - intros j Hj. lia.
Qed.

Theorem apfs_check_node_unreached_accepts (node : extent_buffer) :
  0 < apfs_header_level node < APFS_MAX_LEVEL ->
  1 <= ulong (apfs_header_nritems node) ->
  (forall i, 0 <= i < ulong (apfs_header_nritems node) - 1 ->
             pointer_valid node i = true /\ pointer_in_order node i = true) ->
  apfs_check_node_unreached node = (0, []).
Proof.
  intros Hl Hn Hall. unfold apfs_check_node_unreached. cbv zeta.
  destruct (Z.leb_spec (apfs_header_level node) 0); [lia|].
  destruct (Z.leb_spec APFS_MAX_LEVEL (apfs_header_level node)); [lia|].
  cbn [orb].
  destruct (Z.eqb_spec (ulong (apfs_header_nritems node)) 0); [lia|].
  apply apfs_check_node_loop_ok. intros i Hi. apply Hall. lia.
Qed.

End UnreachedFacts.

(** ** Chunks *)




Section ChunkFacts.

Context {C : ctree}.

Local Notation "'R1'" := APFS_BLOCK_GROUP_RAID1.
Local Notation "'TM'" := APFS_BLOCK_GROUP_TYPE_MASK.
Local Notation "'PM'" := APFS_BLOCK_GROUP_PROFILE_MASK.




(** Three stripes under the RAID1 bit are rejected whatever the other
    fields hold. *)
Lemma raid1_three_stripes_rejected (leaf : extent_buffer) (chunk logical : Z) :
  Z.land (u64 (apfs_chunk_type leaf chunk)) R1 <> 0 ->
  apfs_chunk_num_stripes leaf chunk = 3 ->
  fst (apfs_check_chunk_valid leaf chunk logical) = - EUCLEAN.
Proof.
  intros Hr H3. unfold apfs_check_chunk_valid. cbv zeta. rewrite H3.
  change (u16 3) with 3.
  repeat match goal with
         | |- fst (if ?c then _ else _) = _ =>
             destruct c eqn:?; [reflexivity|]
         end.
  exfalso.
  match goal with H : _ || _ = false |- _ => revert H end.
  rewrite (negb_eqb_0 _ Hr). cbn. rewrite ?orb_true_r. discriminate.
Qed.

End ChunkFacts.

(** ** Items *)

Section ItemFacts.

Context {C : ctree}.

(** C10. An item whose key type is none of those [check_leaf_item] has a
    case for passes the full validation: [check_leaf_item] returns 0 and
    logs nothing. *)
Theorem unhandled_key_type_accepted (leaf : extent_buffer) (key : apfs_key)
  (slot : Z) (prev_key : apfs_key) :
  ~ In (type key) handled_key_types ->
  check_leaf_item leaf key slot prev_key = Returns (0, []).
Proof.
  intros H. unfold handled_key_types in H. cbn [In] in H.
  unfold check_leaf_item.
  repeat match goal with
         | |- context [type key =? ?k] =>
             destruct (Z.eqb_spec (type key) k) as [E|_];
             [exfalso; apply H; rewrite <- E; tauto|]
         end.
  reflexivity.
Qed.

(** *** File extents *)

Lemma check_prev_ino_same_inode (leaf : extent_buffer) (key prev_key : apfs_key)
  (slot : Z) :
  type key = APFS_EXTENT_DATA_KEY -> objectid prev_key = objectid key ->
  check_prev_ino leaf key slot prev_key = Returns (true, []).
Proof.
  intros Ht Ho. unfold check_prev_ino.
  destruct (slot =? 0); [reflexivity|].
  unfold ASSERT. rewrite Ht, Z.eqb_refl, !orb_true_r. cbn.
  rewrite andb_false_r. cbn.
  destruct (is_fstree (apfs_header_owner leaf)); cbn; [|reflexivity].
  rewrite Ho, Z.eqb_refl. reflexivity.
Qed.

Lemma CHECK_FE_ALIGNED_ok (leaf : extent_buffer) (slot fi : Z) field name a :
  IS_ALIGNED (field leaf fi) a = true ->
  CHECK_FE_ALIGNED leaf slot fi field name a = (false, []).
Proof. intros H. unfold CHECK_FE_ALIGNED. rewrite H. reflexivity. Qed.

(** C9, amended. Two file extents of one inode in a row, the end of the
    first beyond the file offset of the second, the second a regular or
    preallocated extent with valid fields of its own: the validation of the
    second item returns -EUCLEAN with one report, made for the slot of the
    first. *)
Theorem overlap_reported_at_first_slot (leaf : extent_buffer) (slot : Z) :
  extents_overlap leaf slot -> regular_extent_ok leaf slot ->
  rejected_at leaf slot (slot - 1).
Proof.
  intros (Hs & Ht & Hpt & Ho & Hend)
         (Hal & Hsz & Hst & Hty & Hni & Hco & Hen & Hfa & Hov).
  unfold rejected_at. eexists. split.
  {
    unfold check_leaf_item. rewrite Ht, Z.eqb_refl.
    unfold check_extent_data_item. cbv zeta.
    rewrite Hal. cbn [negb].
    rewrite (check_prev_ino_same_inode leaf _ _ slot Ht Ho). cbn [run_bind fst snd negb].
    rewrite Hsz.
    destruct (Z.ltb_spec sizeof_apfs_file_extent_item
                APFS_FILE_EXTENT_INLINE_DATA_START); [lia|].
    destruct (Z.leb_spec APFS_NR_FILE_EXTENT_TYPES
                (apfs_file_extent_type leaf (apfs_item_ptr leaf slot))); [lia|].
    destruct (Z.leb_spec APFS_NR_COMPRESS_TYPES
                (apfs_file_extent_compression leaf (apfs_item_ptr leaf slot)));
      [lia|].
    rewrite Hen. cbn [Z.eqb negb].
    destruct (Z.eqb_spec (apfs_file_extent_type leaf (apfs_item_ptr leaf slot))
                APFS_FILE_EXTENT_INLINE); [contradiction|].
    rewrite Z.eqb_refl. cbn [negb].
    inversion Hfa as [|? ? A1 Hfa1]; subst.
    inversion Hfa1 as [|? ? A2 Hfa2]; subst.
    inversion Hfa2 as [|? ? A3 Hfa3]; subst.
    inversion Hfa3 as [|? ? A4 Hfa4]; subst.
    inversion Hfa4 as [|? ? A5 _]; subst.
    rewrite !CHECK_FE_ALIGNED_ok by assumption. cbn [or_else fst snd app].
    unfold check_add_overflow.
    rewrite (u64_small _ Hov), Z.eqb_refl. cbn [negb].
    destruct (Z.ltb_spec 0 slot); [|lia].
    rewrite Ho, Hpt, !Z.eqb_refl. cbn [andb].
    destruct (Z.ltb_spec (offset (apfs_item_key_to_cpu leaf slot))
                (file_extent_end leaf (apfs_item_key_to_cpu leaf (slot - 1))
                   (apfs_item_ptr leaf (slot - 1)))); [|lia].
  reflexivity. }
  reflexivity.
Qed.

(** *** Extent items *)

(** The loop of [check_extent_item] over a list of valid inline references
    that fills the item: it ends at [end_] with the sum of their counts
    added. *)
Lemma check_inline_refs_total (leaf : extent_buffer) (slot end_ : Z) :
  0 <= sizeof_apfs_extent_inline_ref ->
  (forall p, 0 <= apfs_extent_data_ref_count leaf p < 2 ^ 32) ->
  (forall p, 0 <= apfs_shared_data_ref_count leaf p < 2 ^ 32) ->
  end_ < 2 ^ 64 ->
  forall n refs ptr acc fuel,
    inline_refs_at n leaf end_ ptr = Some refs ->
    0 <= ptr -> 0 <= acc ->
    acc + (end_ - ptr) * (2 ^ 32 - 1) < 2 ^ 64 ->
    (Z.to_nat (end_ - ptr) <= fuel)%nat ->
    check_inline_refs fuel leaf slot end_ ptr acc
    = Returns (inr (end_, acc + inline_refs_total leaf refs)).
Proof.
  intros Hsz Hdc Hsc Hend.
  induction n as [|n IH]; intros refs ptr acc fuel Hp Hptr Hacc Hb Hfuel;
    cbn [inline_refs_at] in Hp.
  - destruct (Z.eqb_spec ptr end_) as [->|]; [|discriminate].
    injection Hp as <-. cbn [inline_refs_total fold_right].
    rewrite Z.add_0_r.
    destruct fuel; cbn [check_inline_refs]; rewrite Z.ltb_irrefl; reflexivity.
  - destruct (Z.eqb_spec ptr end_) as [->|Hne].
    { injection Hp as <-. cbn [inline_refs_total fold_right].
      rewrite Z.add_0_r.
      destruct fuel; cbn [check_inline_refs]; rewrite Z.ltb_irrefl;
        reflexivity. }
    set (ty := u8 (apfs_extent_inline_ref_type leaf ptr)) in *.
    set (size := apfs_extent_inline_ref_size ty) in *.
    destruct ((ptr <? end_) && (ptr + sizeof_apfs_extent_inline_ref <=? end_)
              && (0 <? size) && (ptr + size <=? end_)
              && inline_ref_ok leaf ty ptr) eqn:Hc; [|discriminate].
    apply andb_prop in Hc. destruct Hc as [Hc Hok].
    apply andb_prop in Hc. destruct Hc as [Hc Hfit].
    apply andb_prop in Hc. destruct Hc as [Hc Hpos].
    apply andb_prop in Hc. destruct Hc as [Hlt Hhdr].
    apply Z.ltb_lt in Hlt, Hpos. apply Z.leb_le in Hhdr, Hfit.
    destruct (inline_refs_at n leaf end_ (ptr + size)) as [rest|] eqn:Hrest;
      [|discriminate].
    injection Hp as <-.
    destruct fuel as [|fuel]; [lia|].
    cbn [check_inline_refs].
    destruct (Z.ltb_spec ptr end_); [|lia]. cbn [negb].
    rewrite (ulong_small (ptr + sizeof_apfs_extent_inline_ref)) by lia.
    destruct (Z.ltb_spec end_ (ptr + sizeof_apfs_extent_inline_ref)); [lia|].
    fold ty. fold size.
    rewrite (ulong_small (ptr + size)) by lia.
    destruct (Z.ltb_spec end_ (ptr + size)); [lia|].
    assert (Hnext : forall c, 0 <= c < 2 ^ 32 ->
              check_inline_refs fuel leaf slot end_ (ptr + size) (u64 (acc + c))
              = Returns (inr (end_, acc + (c + inline_refs_total leaf rest)))).
    { intros c Hcr. rewrite u64_small by nia.
      rewrite (IH rest (ptr + size) (acc + c) fuel Hrest); try lia; try nia.
      f_equal. f_equal. f_equal. lia. }
    unfold inline_ref_ok in Hok. cbn [inline_refs_total fold_right].
    unfold inline_ref_count at 1.
    destruct (ty =? APFS_TREE_BLOCK_REF_KEY).
    { apply Hnext. lia. }
    destruct (ty =? APFS_SHARED_BLOCK_REF_KEY).
    { rewrite Hok. cbn [negb]. apply Hnext. lia. }
    destruct (ty =? APFS_EXTENT_DATA_REF_KEY).
    { rewrite Hok. cbn [negb]. apply Hnext. apply Hdc. }
    destruct (ty =? APFS_SHARED_DATA_REF_KEY).
    { rewrite Hok. cbn [negb]. apply Hnext. apply Hsc. }
    discriminate Hok.
Qed.

(** C8. An extent item with a valid key and header whose inline references
    are valid and fill the item: [check_extent_item] returns; it returns
    -EUCLEAN when the counts of the inline references add up to more than
    the reference count of the header, and 0, with no report, when they add
    up to that count or to less. *)
Theorem extent_item_refs_against_total (leaf : extent_buffer) (key : apfs_key)
  (slot : Z) (refs : list (Z * Z)) :
  extent_layout_ok leaf slot ->
  extent_item_header_ok leaf key slot = true ->
  inline_refs_of leaf key slot = Some refs ->
  let total_refs := u64 (apfs_extent_refs leaf (apfs_item_ptr leaf slot)) in
  exists v,
    check_extent_item leaf key slot = Returns v /\
    (total_refs < inline_refs_total leaf refs -> fst v = - EUCLEAN) /\
    (inline_refs_total leaf refs <= total_refs -> v = (0, [])).
Proof.
  intros (Hpo & Hoff & Hse & Hsi & Hsr & Hdc & Hsc) Hh Hrefs total_refs.
  unfold inline_refs_of in Hrefs.
  assert (Hend : extent_item_end leaf slot
                 = u32 (apfs_item_size_nr leaf slot)
                   + apfs_item_ptr_offset leaf slot).
  { unfold extent_item_end. apply ulong_small.
    pose proof (Z.mod_pos_bound (apfs_item_size_nr leaf slot) (2 ^ 32)
                  ltac:(lia)) as Hm. unfold u32. lia. }
  assert (Hsize : 0 <= u32 (apfs_item_size_nr leaf slot) < 2 ^ 32)
    by (unfold u32; apply Z.mod_pos_bound; lia).
  assert (Hstart : apfs_item_ptr_offset leaf slot
                   <= inline_refs_start leaf key slot < 2 ^ 64).
  { unfold inline_refs_start. rewrite Hpo.
    rewrite (ulong_small (apfs_item_ptr_offset leaf slot
                       + sizeof_apfs_extent_item)) by lia.
    destruct (extent_is_tree_block leaf slot
              && negb (type key =? APFS_METADATA_ITEM_KEY)).
    - rewrite ulong_small by lia. lia.
    - lia. }
  assert (Hend64 : extent_item_end leaf slot < 2 ^ 64) by lia.
  assert (Hbound : 0 + (extent_item_end leaf slot
                        - inline_refs_start leaf key slot) * (2 ^ 32 - 1)
                   < 2 ^ 64) by nia.
  pose proof (check_inline_refs_total leaf slot (extent_item_end leaf slot)
                Hsr Hdc Hsc Hend64 _ refs
                (inline_refs_start leaf key slot) 0
                (Z.to_nat (extent_item_end leaf slot
                           - inline_refs_start leaf key slot))
                Hrefs ltac:(lia) ltac:(lia) Hbound ltac:(lia)) as Hloop.
  rewrite Z.add_0_l in Hloop.
  unfold extent_item_header_ok in Hh. cbv zeta in Hh.
  apply andb_prop in Hh. destruct Hh as [Hh Hflags].
  apply andb_prop in Hh. destruct Hh as [Hh Hsingle].
  apply andb_prop in Hh. destruct Hh as [Hh Hgen].
  apply andb_prop in Hh. destruct Hh as [Hh Hisz].
  apply andb_prop in Hh. destruct Hh as [Hmeta Hobj].
  exists (if total_refs <? inline_refs_total leaf refs
          then corrupt (extent_err leaf slot
                 "invalid extent refs, have %llu expect >= inline %llu")
          else OK).
  split.
  - unfold check_extent_item. cbv zeta.
    fold (extent_item_end leaf slot).
    rewrite Hobj, Hsingle. cbn [negb].
    rewrite (Z.ltb_antisym sizeof_apfs_extent_item), Hisz.
    rewrite (Z.ltb_antisym (u64 (apfs_extent_generation leaf
                                   (apfs_item_ptr leaf slot)))), Hgen.
    cbn [negb].
    assert (Em : (type key =? APFS_METADATA_ITEM_KEY)
                 && negb (apfs_fs_incompat_SKINNY_METADATA (fs_info leaf))
                 = false
                 /\ (type key =? APFS_METADATA_ITEM_KEY)
                    && (APFS_MAX_LEVEL <=? offset key) = false).
    { destruct (type key =? APFS_METADATA_ITEM_KEY); cbn in *; [|tauto].
      apply andb_prop in Hmeta. destruct Hmeta as [-> Hl].
      rewrite Z.leb_antisym, Hl. tauto. }
    destruct Em as [-> ->].
    fold (extent_is_tree_block leaf slot).
    unfold inline_refs_start in Hloop.
    destruct (extent_is_tree_block leaf slot) eqn:Htb; cbn [andb] in Hloop.
    + apply andb_prop in Hflags. destruct Hflags as [Hlen Hlvl].
      assert (El : (type key =? APFS_EXTENT_ITEM_KEY)
                   && negb (offset key =? nodesize (fs_info leaf)) = false).
      { destruct (type key =? APFS_EXTENT_ITEM_KEY); cbn in *; [|reflexivity].
        rewrite Hlen. reflexivity. }
      rewrite El.
      destruct (type key =? APFS_METADATA_ITEM_KEY) eqn:Hmk;
        cbn [negb andb orb] in *.
      * rewrite Hloop. cbn [run_bind]. rewrite Z.eqb_refl. cbn [negb].
        fold total_refs. destruct (total_refs <? _); reflexivity.
      * rewrite Z.leb_antisym, Hlvl. cbn [negb].
        rewrite Hloop. cbn [run_bind]. rewrite Z.eqb_refl. cbn [negb].
        fold total_refs. destruct (total_refs <? _); reflexivity.
    + apply andb_prop in Hflags. destruct Hflags as [Hflags Hfull].
      apply andb_prop in Hflags. destruct Hflags as [Hek Hoa].
      rewrite Hek, Hoa, Hfull. cbn [negb andb].
      rewrite Hloop. cbn [run_bind]. rewrite Z.eqb_refl. cbn [negb].
      fold total_refs. destruct (total_refs <? _); reflexivity.
  - split; intros Hcmp.
    + destruct (Z.ltb_spec total_refs (inline_refs_total leaf refs));
        [reflexivity|lia].
    + destruct (Z.ltb_spec total_refs (inline_refs_total leaf refs));
        [lia|reflexivity].
Qed.

End ItemFacts.

(** ** The properties at the sample blocks *)

Section AtSamples.

Local Existing Instance Samples.sample_ctree.

(** C5, at a leaf whose second key is below its first. The entry points
    return 0 for it; the statements [check_leaf] never reaches report the
    key order at slot 1. *)
Theorem bad_order_leaf_passes :
  let leaf := Samples.bad_order_leaf in
  apfs_comp_cpu_keys leaf (apfs_item_key_to_cpu leaf 0)
    (apfs_item_key_to_cpu leaf 1) = 1 /\
  apfs_check_leaf_full leaf = Returns (0, []) /\
  apfs_check_leaf_relaxed leaf = Returns (0, []) /\
  check_leaf_unreached leaf true
  = Returns (corrupt (generic_err leaf 1
      "bad key order, prev (%llu %u %llu) current (%llu %u %llu)")) /\
  check_leaf_unreached leaf false
  = Returns (corrupt (generic_err leaf 1
      "bad key order, prev (%llu %u %llu) current (%llu %u %llu)")).
Proof. vm_compute. repeat split; reflexivity. Qed.

(** C6, at a node with three pointers whose second key is below its first.
    [apfs_check_node] returns 0 for it; the statements it never reaches
    report the key order at slot 0. *)
Theorem bad_order_node_passes :
  let node := Samples.bad_order_node in
  apfs_comp_cpu_keys node (apfs_node_key_to_cpu node 0)
    (apfs_node_key_to_cpu node 1) = 1 /\
  apfs_check_node node = (0, []) /\
  apfs_check_node_unreached node
  = corrupt (generic_err node 0
      "bad key order, current (%llu %u %llu) next (%llu %u %llu)").
Proof. vm_compute. repeat split; reflexivity. Qed.

(** The same statements accept the leaf and the node with their keys in
    order. *)
Example good_leaf_and_node :
  check_leaf_unreached Samples.good_leaf true = Returns (0, []) /\
  check_leaf_unreached Samples.good_leaf false = Returns (0, []) /\
  apfs_check_node_unreached Samples.good_node = (0, []).
Proof. vm_compute. repeat split; reflexivity. Qed.


Lemma unhandled_key_type_accepted_witness :
  check_leaf_item Samples.good_leaf (Samples.mk_key 256 250 0) 0
    (Samples.mk_key 0 0 0) = Returns (0, []).
Proof.
  apply (unhandled_key_type_accepted Samples.good_leaf).
  cbn. intuition discriminate.
Defined.

Lemma overlap_reported_at_first_slot_witness :
  rejected_at (Samples.overlap_leaf 8192) 1 (1 - 1).
Proof.
  apply (overlap_reported_at_first_slot (Samples.overlap_leaf 8192) 1).
  - unfold extents_overlap. split_all; by_eval.
  - unfold regular_extent_ok. cbv zeta.
    split_all; repeat (apply Forall_cons || apply Forall_nil); by_eval.
Defined.

(** C9 as stated fails at a leaf with two overlapping extents of inode 257
    where a field of the second is not aligned: the validation of the second
    item fails, and the report is for the second slot. *)
Lemma overlap_not_reported_at_first_slot :
  extents_overlap (Samples.overlap_leaf 100) 1 /\
  ~ rejected_at (Samples.overlap_leaf 100) 1 (1 - 1).
Proof.
  split.
  - unfold extents_overlap. split_all; by_eval.
  - intros (e & He & Hs). vm_compute in He.
    injection He as <-. vm_compute in Hs. discriminate Hs.
Qed.

(** An inline extent returns from [check_extent_data_item] ahead of the
    overlap check: after an extent that reaches beyond its file offset it
    is accepted. *)
Example inline_extent_skips_overlap_check :
  extents_overlap Samples.inline_overlap_leaf 1 /\
  check_leaf_item Samples.inline_overlap_leaf
    (apfs_item_key_to_cpu Samples.inline_overlap_leaf 1) 1
    (apfs_item_key_to_cpu Samples.inline_overlap_leaf 0)
  = Returns (0, []).
Proof.
  split.
  - unfold extents_overlap. split_all; by_eval.
  - by_eval.
Qed.

Lemma rd_range (b : ubits) (eb : extent_buffer) (ptr off : Z) :
  0 <= Samples.rd b eb ptr off < 2 ^ nbits b.
Proof.
  unfold Samples.rd.
  destruct (apfs_get_bits 12 true b eb ptr off) as [v tr| |] eqn:E.
  - exact (apfs_get_bits_range 12 true b eb ptr off v tr E).
  - destruct b; cbn; lia.
  - destruct b; cbn; lia.
Qed.

Lemma extent_item_refs_against_total_witness :
  let leaf := Samples.extent_leaf 4 in
  let refs := [(178, 16342); (184, 16371)] in
  exists v,
    check_extent_item leaf (Samples.mk_key 1048576 168 8192) 0 = Returns v /\
    (u64 (apfs_extent_refs leaf (apfs_item_ptr leaf 0))
     < inline_refs_total leaf refs -> fst v = - EUCLEAN) /\
    (inline_refs_total leaf refs
     <= u64 (apfs_extent_refs leaf (apfs_item_ptr leaf 0)) -> v = (0, [])).
Proof.
  apply (extent_item_refs_against_total (Samples.extent_leaf 4)
           (Samples.mk_key 1048576 168 8192) 0 [(178, 16342); (184, 16371)]).
  - unfold extent_layout_ok.
    split; [by_eval|]. split; [split; by_eval|].
    split; [split; by_eval|]. split; [split; by_eval|].
    split; [by_eval|].
    split; intros p; apply (rd_range U32).
  - by_eval.
  - by_eval.
Defined.

(** The sums of the sample item: five references inline; four declared
    are too few, five and six are enough. *)
Example extent_leaf_verdicts :
  inline_refs_of (Samples.extent_leaf 4) (Samples.mk_key 1048576 168 8192) 0
  = Some [(178, 16342); (184, 16371)] /\
  inline_refs_total (Samples.extent_leaf 4) [(178, 16342); (184, 16371)] = 5 /\
  returned_code (check_extent_item (Samples.extent_leaf 4)
                (Samples.mk_key 1048576 168 8192) 0) = Some (- EUCLEAN) /\
  check_extent_item (Samples.extent_leaf 5)
    (Samples.mk_key 1048576 168 8192) 0 = Returns (0, []) /\
  check_extent_item (Samples.extent_leaf 6)
    (Samples.mk_key 1048576 168 8192) 0 = Returns (0, []).
Proof. vm_compute. split_all; reflexivity. Qed.

End AtSamples.

(** * Further properties of the accessors *)

(** ** The block as one range of bytes *)

Section ListRanges.
Context {A : Type}.

Lemma firstn_skipn_app_l (o n : nat) (l r : list A) :
  (o + n <= length l)%nat ->
  firstn n (skipn o (l ++ r)) = firstn n (skipn o l).
Proof.
  intros H. rewrite skipn_app.
  replace (o - length l)%nat with 0%nat by lia. cbn [skipn].
  rewrite firstn_app, length_skipn.
  replace (n - (length l - o))%nat with 0%nat by lia.
  cbn [firstn]. apply app_nil_r.
Qed.

Lemma firstn_plus (a b : nat) (l : list A) :
  firstn (a + b) l = firstn a l ++ firstn b (skipn a l).
Proof.
  revert l. induction a as [|a IH]; intros l; [reflexivity|].
  destruct l as [|x l]; cbn [Nat.add firstn skipn app].
  - rewrite firstn_nil. reflexivity.
  - rewrite IH. reflexivity.
Qed.

Lemma firstn_add_skipn (a b m : nat) (l : list A) :
  firstn a (skipn m l) ++ firstn b (skipn (m + a) l)
  = firstn (a + b) (skipn m l).
Proof.
  rewrite firstn_plus, skipn_skipn, (Nat.add_comm a m). reflexivity.
Qed.

(** Two pieces written one after the other are the whole written at once. *)
Lemma splice_splice (m : nat) (bs1 bs2 l : list A) :
  (m + length bs1 + length bs2 <= length l)%nat ->
  splice (m + length bs1) bs2 (splice m bs1 l) = splice m (bs1 ++ bs2) l.
Proof.
  intros H. unfold splice.
  assert (Lf : length (firstn m l) = m) by (rewrite length_firstn; lia).
  rewrite (app_assoc (firstn m l) bs1).
  rewrite (List.firstn_app_l (firstn m l ++ bs1))
    by (rewrite length_app; lia).
  replace (m + length bs1 + length bs2)%nat
    with (length (firstn m l ++ bs1) + length bs2)%nat
    by (rewrite length_app; lia).
  rewrite List.skipn_app_r2 by reflexivity.
  rewrite skipn_skipn, length_app, <- !app_assoc.
  do 4 f_equal. lia.
Qed.

(** Bytes away from the ones written read as before. *)
Lemma read_beside_splice (m o n : nat) (bs l : list A) :
  (m + length bs <= length l)%nat ->
  (o + n <= m \/ m + length bs <= o)%nat ->
  firstn n (skipn o (splice m bs l)) = firstn n (skipn o l).
Proof.
  intros Hl [Hb|Ha]; unfold splice.
  - rewrite <- (firstn_skipn m l) at 3.
    rewrite !firstn_skipn_app_l by (rewrite length_firstn; lia). reflexivity.
  - assert (Lf : length (firstn m l) = m) by (rewrite length_firstn; lia).
    rewrite (app_assoc (firstn m l) bs).
    replace o with (length (firstn m l ++ bs) + (o - (m + length bs)))%nat at 1
      by (rewrite length_app; lia).
    rewrite List.skipn_app_r2 by reflexivity.
    rewrite skipn_skipn. do 2 f_equal. lia.
Qed.

(** Byte [i] of the ones written reads as that byte. *)
Lemma nth_error_splice (m i : nat) (bs l : list A) :
  (m + length bs <= length l)%nat -> (i < length bs)%nat ->
  firstn 1 (skipn (m + i) (splice m bs l)) = firstn 1 (skipn i bs).
Proof.
  intros Hl Hi. unfold splice.
  assert (Lf : length (firstn m l) = m) by (rewrite length_firstn; lia).
  replace (m + i)%nat with (length (firstn m l) + i)%nat by lia.
  rewrite List.skipn_app_r2 by reflexivity.
  apply firstn_skipn_app_l. lia.
Qed.

Lemma concat_at (ps : list (list A)) (k : nat) (p : list A) :
  nth_error ps k = Some p ->
  concat ps = concat (firstn k ps) ++ p ++ concat (skipn (S k) ps).
Proof.
  intros E. rewrite (List.nth_error_expose k ps p E) at 1.
  rewrite concat_app. reflexivity.
Qed.

Lemma length_concat_uniform (ps : list (list A)) (n : nat) :
  Forall (fun p => length p = n) ps -> length (concat ps) = (length ps * n)%nat.
Proof.
  induction 1 as [|p ps Hp _ IH]; [reflexivity|].
  cbn [concat length]. rewrite length_app, IH, Hp. lia.
Qed.

Lemma length_concat_firstn (ps : list (list A)) (n k : nat) :
  Forall (fun p => length p = n) ps -> (k <= length ps)%nat ->
  length (concat (firstn k ps)) = (k * n)%nat.
Proof.
  intros Hu Hk. rewrite (length_concat_uniform _ n).
  - rewrite length_firstn, Nat.min_l by lia. reflexivity.
  - rewrite <- (firstn_skipn k ps) in Hu. apply Forall_app in Hu. apply Hu.
Qed.

(** The bytes of page [k] are the bytes from [k * n] on of the pages
    put one after the other. *)
Lemma page_bytes (ps : list (list A)) (n k o c : nat) (p : list A) :
  Forall (fun p => length p = n) ps -> nth_error ps k = Some p ->
  (o + c <= n)%nat ->
  firstn c (skipn o p) = firstn c (skipn (k * n + o) (concat ps)).
Proof.
  intros Hu E Hc.
  assert (Hk : (k < length ps)%nat) by (apply nth_error_Some; congruence).
  assert (Hp : length p = n).
  { rewrite Forall_forall in Hu. apply Hu. eapply nth_error_In; eauto. }
  rewrite (concat_at ps k p E).
  rewrite List.skipn_app_r2
    by (symmetry; apply length_concat_firstn; [assumption|lia]).
  symmetry. apply firstn_skipn_app_l. lia.
Qed.

Lemma page_splice (ps : list (list A)) (n k o : nat) (bs p : list A) :
  Forall (fun p => length p = n) ps -> nth_error ps k = Some p ->
  (o + length bs <= n)%nat ->
  concat (upd k (splice o bs p) ps) = splice (k * n + o) bs (concat ps).
Proof.
  intros Hu E Hc.
  assert (Hk : (k < length ps)%nat) by (apply nth_error_Some; congruence).
  assert (Hp : length p = n).
  { rewrite Forall_forall in Hu. apply Hu. eapply nth_error_In; eauto. }
  assert (Lf : (k * n)%nat = length (concat (firstn k ps)))
    by (symmetry; apply length_concat_firstn; [assumption|lia]).
  unfold upd. rewrite concat_app. cbn [concat].
  rewrite (concat_at ps k p E) at 1.
  unfold splice at 2.
  rewrite List.firstn_app_l2 by exact Lf.
  rewrite <- Nat.add_assoc.
  rewrite List.skipn_app_r2 by exact Lf.
  rewrite firstn_app, skipn_app.
  replace (o - length p)%nat with 0%nat by lia.
  replace (o + length bs - length p)%nat with 0%nat by lia.
  cbn [firstn skipn]. unfold splice.
  rewrite app_nil_r, <- !app_assoc. reflexivity.
Qed.

End ListRanges.

Section LinearView.

Variable PAGE_SHIFT : Z.
Variable assert_enabled : bool.
Hypothesis PAGE_SHIFT_min : 3 <= PAGE_SHIFT.

Local Notation "'PS'" := (PAGE_SIZE PAGE_SHIFT).
Local Notation "'wf_eb'" := (StructFuncs.wf_eb PAGE_SHIFT).

Lemma wf_uniform (eb : extent_buffer) :
  wf_eb eb ->
  Forall (fun p : list byte => length p = Z.to_nat PS) (pages eb).
Proof.
  intros (Hp & _). eapply Forall_impl; [|exact Hp].
  cbv beta. intros p Hl. lia.
Qed.

Lemma to_nat_offset (m : Z) :
  0 <= m ->
  Z.to_nat m = (Z.to_nat (m / PS) * Z.to_nat PS + Z.to_nat (m mod PS))%nat.
Proof.
  intros Hm. pose proof (PAGE_SIZE_ge_8 PAGE_SHIFT PAGE_SHIFT_min) as H8.
  assert (0 <= m / PS) by (apply Z.div_pos; lia).
  assert (0 <= m mod PS < PS) by (apply Z.mod_pos_bound; lia).
  rewrite <- Z2Nat.inj_mul, <- Z2Nat.inj_add by lia.
  f_equal. rewrite Z.mul_comm. apply Z.div_mod. lia.
Qed.

(** A get returns the little-endian value of the bytes at [ptr + off] of
    the block seen as one range, whether or not they lie on one page. *)
Lemma get_linear (b : ubits) (eb : extent_buffer) (ptr off : Z) :
  wf_eb eb -> valid_access eb ptr off (sizeof_u b) ->
  exists tr,
    apfs_get_bits PAGE_SHIFT assert_enabled b eb ptr off
    = Done (le_combine (firstn (Z.to_nat (sizeof_u b))
                          (skipn (Z.to_nat (ptr + off)) (contents eb)))) tr.
Proof.
  intros Hwf Hva. pose proof (sizeof_u_range b) as Hb.
  pose proof (PAGE_SIZE_ge_8 PAGE_SHIFT PAGE_SHIFT_min) as H8.
  destruct (resolve PAGE_SHIFT PAGE_SHIFT_min eb ptr off _ Hwf Hva ltac:(lia))
    as (Hu & Hi & Ho & Hdm & Hlt).
  destruct (wf_page PAGE_SHIFT eb _ Hwf Hi) as (p & Ep & Hlen).
  pose proof (wf_uniform eb Hwf) as Hun.
  assert (Hm : 0 <= ptr + off) by (destruct Hva; lia).
  unfold contents. rewrite (to_nat_offset _ Hm).
  destruct (Z.le_gt_cases ((ptr + off) mod PS + sizeof_u b) PS) as [Hs|Hs].
  - eexists.
    rewrite (apfs_get_bits_single PAGE_SHIFT assert_enabled PAGE_SHIFT_min
               b eb ptr off Hwf Hva p Ep Hs).
    rewrite (page_bytes (pages eb) (Z.to_nat PS) _ _ _ p Hun Ep) by lia.
    reflexivity.
  - pose proof (second_page PAGE_SHIFT PAGE_SHIFT_min b eb ptr off Hwf Hva Hs)
      as Hi2.
    destruct (wf_page PAGE_SHIFT eb _ Hwf Hi2) as (q & Eq & Hlenq).
    eexists.
    rewrite (apfs_get_bits_split PAGE_SHIFT assert_enabled PAGE_SHIFT_min
               b eb ptr off Hwf Hva p q Ep Eq Hs).
    rewrite (page_bytes (pages eb) (Z.to_nat PS) _ _ _ p Hun Ep) by lia.
    replace (firstn (Z.to_nat (sizeof_u b - (PS - (ptr + off) mod PS))) q)
      with (firstn (Z.to_nat (sizeof_u b - (PS - (ptr + off) mod PS)))
              (skipn 0 q)) by reflexivity.
    rewrite (page_bytes (pages eb) (Z.to_nat PS) _ _ _ q Hun Eq) by lia.
    replace (Z.to_nat ((ptr + off) / PS + 1) * Z.to_nat PS + 0)%nat
      with (Z.to_nat ((ptr + off) / PS) * Z.to_nat PS
            + Z.to_nat ((ptr + off) mod PS)
            + Z.to_nat (PS - (ptr + off) mod PS))%nat by nia.
    rewrite firstn_add_skipn. do 3 f_equal. lia.
Qed.

(** A set writes the little-endian bytes of the value at [ptr + off] of
    the block seen as one range, and changes nothing else of the block. *)
Lemma set_linear (b : ubits) (eb : extent_buffer) (ptr off val : Z) :
  wf_eb eb -> valid_access eb ptr off (sizeof_u b) ->
  exists eb' tr,
    apfs_set_bits PAGE_SHIFT assert_enabled b eb ptr off val = Done eb' tr /\
    contents eb'
    = splice (Z.to_nat (ptr + off)) (le_split (Z.to_nat (sizeof_u b)) val)
        (contents eb) /\
    wf_eb eb' /\ start eb' = start eb /\ len eb' = len eb /\
    fs_info eb' = fs_info eb /\ length (pages eb') = length (pages eb).
Proof.
  intros Hwf Hva. pose proof (sizeof_u_range b) as Hb.
  pose proof (PAGE_SIZE_ge_8 PAGE_SHIFT PAGE_SHIFT_min) as H8.
  destruct (resolve PAGE_SHIFT PAGE_SHIFT_min eb ptr off _ Hwf Hva ltac:(lia))
    as (Hu & Hi & Ho & Hdm & Hlt).
  destruct (wf_page PAGE_SHIFT eb _ Hwf Hi) as (p & Ep & Hlen).
  pose proof (wf_uniform eb Hwf) as Hun.
  assert (Hm : 0 <= ptr + off) by (destruct Hva; lia).
  destruct (apfs_set_bits_done PAGE_SHIFT assert_enabled PAGE_SHIFT_min
              b eb ptr off val Hwf Hva) as (eb' & tr & Hs' & Hwf' & Hl' & Hn' & _).
  exists eb', tr. split; [exact Hs'|].
  set (lebytes := le_split (Z.to_nat (sizeof_u b)) val).
  assert (Ll : length lebytes = Z.to_nat (sizeof_u b))
    by apply length_le_split.
  unfold contents. rewrite (to_nat_offset _ Hm).
  destruct (Z.le_gt_cases ((ptr + off) mod PS + sizeof_u b) PS) as [Hs|Hs].
  - rewrite (apfs_set_bits_single PAGE_SHIFT assert_enabled PAGE_SHIFT_min
               b eb ptr off Hwf Hva p val Ep Hs) in Hs'.
    injection Hs' as <- _. cbn [pages set_pages start len fs_info].
    fold lebytes.
    rewrite (page_splice (pages eb) (Z.to_nat PS) _ _ lebytes p Hun Ep) by lia.
    exact (conj eq_refl (conj Hwf' (conj eq_refl (conj eq_refl
             (conj eq_refl Hn'))))).
  - pose proof (second_page PAGE_SHIFT PAGE_SHIFT_min b eb ptr off Hwf Hva Hs)
      as Hi2.
    destruct (wf_page PAGE_SHIFT eb _ Hwf Hi2) as (q & Eq & Hlenq).
    pose proof (length_lebytes_lo PAGE_SHIFT PAGE_SHIFT_min b eb ptr off Hwf
                  Hva val Hs) as Llo.
    pose proof (length_lebytes_hi PAGE_SHIFT PAGE_SHIFT_min b eb ptr off Hwf
                  Hva val Hs) as Lhi.
    rewrite (apfs_set_bits_split PAGE_SHIFT assert_enabled PAGE_SHIFT_min
               b eb ptr off Hwf Hva p q val Ep Eq Hs) in Hs'.
    cbv zeta in Hs'. fold lebytes in Hs', Llo, Lhi.
    set (lo := firstn (Z.to_nat (PS - (ptr + off) mod PS)) lebytes) in *.
    set (hi := firstn (Z.to_nat (sizeof_u b - (PS - (ptr + off) mod PS)))
                 (skipn (Z.to_nat (PS - (ptr + off) mod PS)) lebytes)) in *.
    injection Hs' as <- _. cbn [pages set_pages start len fs_info].
    assert (Hidx : (Z.to_nat ((ptr + off) / PS) < length (pages eb))%nat) by lia.
    destruct (wf_eb_write PAGE_SHIFT eb (Z.to_nat ((ptr + off) / PS))
                (Z.to_nat ((ptr + off) mod PS)) lo p Hwf Ep) as [W1 L1];
      [lia|].
    pose proof (wf_uniform _ W1) as Hun1. cbn [pages set_pages] in Hun1.
    assert (Eq1 : nth_error
                    (upd (Z.to_nat ((ptr + off) / PS))
                       (splice (Z.to_nat ((ptr + off) mod PS)) lo p) (pages eb))
                    (Z.to_nat ((ptr + off) / PS + 1)) = Some q).
    { rewrite nth_error_upd_other; [exact Eq|exact Hidx|lia]. }
    rewrite (page_splice _ (Z.to_nat PS) _ 0 hi q Hun1 Eq1)
      by (rewrite Lhi; lia).
    rewrite (page_splice (pages eb) (Z.to_nat PS) _ _ lo p Hun Ep)
      by (rewrite Llo; lia).
    replace (Z.to_nat ((ptr + off) / PS + 1) * Z.to_nat PS + 0)%nat
      with (Z.to_nat ((ptr + off) / PS) * Z.to_nat PS
            + Z.to_nat ((ptr + off) mod PS) + length lo)%nat
      by (rewrite Llo; nia).
    rewrite splice_splice.
    + replace (lo ++ hi) with lebytes.
      { exact (conj eq_refl (conj Hwf' (conj eq_refl (conj eq_refl
                 (conj eq_refl Hn'))))). }
      unfold lo, hi.
      rewrite (@firstn_all2 _ _ (skipn _ lebytes))
        by (rewrite length_skipn; lia).
      symmetry. apply firstn_skipn.
    + rewrite (length_concat_uniform _ (Z.to_nat PS) Hun), Llo, Lhi.
      apply Nat.le_trans
        with ((Z.to_nat ((ptr + off) / PS) + 2) * Z.to_nat PS)%nat; [lia|].
      apply Nat.mul_le_mono_r. unfold page in *. lia.
Qed.

(** *** Properties of the block as one range *)

(** A get of any width returns the little-endian value of the bytes at
    [ptr + off] of the pages put one after the other. *)
Theorem apfs_get_bits_reads_linear (b : ubits) (eb : extent_buffer)
  (ptr off : Z) :
  wf_eb eb -> valid_access eb ptr off (sizeof_u b) ->
  exists tr,
    apfs_get_bits PAGE_SHIFT assert_enabled b eb ptr off
    = Done (le_combine (firstn (Z.to_nat (sizeof_u b))
                          (skipn (Z.to_nat (ptr + off)) (contents eb)))) tr.
Proof. apply get_linear. Qed.

(** A set of any width replaces the bytes at [ptr + off] of the pages put
    one after the other by the little-endian bytes of the value, and keeps
    the other bytes, the number and the size of the pages and the other
    fields of the block. *)
Theorem apfs_set_bits_writes_linear (b : ubits) (eb : extent_buffer)
  (ptr off val : Z) :
  wf_eb eb -> valid_access eb ptr off (sizeof_u b) ->
  exists eb' tr,
    apfs_set_bits PAGE_SHIFT assert_enabled b eb ptr off val = Done eb' tr /\
    contents eb'
    = splice (Z.to_nat (ptr + off)) (le_split (Z.to_nat (sizeof_u b)) val)
        (contents eb) /\
    wf_eb eb' /\ start eb' = start eb /\ len eb' = len eb /\
    fs_info eb' = fs_info eb /\ length (pages eb') = length (pages eb).
Proof. apply set_linear. Qed.

Lemma length_contents (eb : extent_buffer) :
  wf_eb eb -> Z.of_nat (length (contents eb)) = PS * Z.of_nat (length (pages eb)).
Proof.
  intros Hwf. unfold contents.
  rewrite (length_concat_uniform _ (Z.to_nat PS) (wf_uniform eb Hwf)).
  pose proof (PAGE_SIZE_ge_8 PAGE_SHIFT PAGE_SHIFT_min).
  rewrite Nat2Z.inj_mul, Z2Nat.id by lia. apply Z.mul_comm.
Qed.

(** A set leaves every field that shares no byte with the one written as
    it was: a get of it returns the same value before and after. *)
Theorem apfs_set_bits_frame (b1 b2 : ubits) (eb : extent_buffer)
  (ptr1 off1 val ptr2 off2 : Z) :
  wf_eb eb ->
  valid_access eb ptr1 off1 (sizeof_u b1) ->
  valid_access eb ptr2 off2 (sizeof_u b2) ->
  ptr2 + off2 + sizeof_u b2 <= ptr1 + off1 \/
  ptr1 + off1 + sizeof_u b1 <= ptr2 + off2 ->
  exists eb' tr v tr1 tr2,
    apfs_set_bits PAGE_SHIFT assert_enabled b1 eb ptr1 off1 val = Done eb' tr /\
    apfs_get_bits PAGE_SHIFT assert_enabled b2 eb ptr2 off2 = Done v tr1 /\
    apfs_get_bits PAGE_SHIFT assert_enabled b2 eb' ptr2 off2 = Done v tr2.
Proof.
  intros Hwf Hv1 Hv2 Hd.
  pose proof (sizeof_u_range b1) as Hb1. pose proof (sizeof_u_range b2) as Hb2.
  destruct (set_linear b1 eb ptr1 off1 val Hwf Hv1)
    as (eb' & tr & Hs & Hc & Hwf' & _ & Hl & _).
  destruct (get_linear b2 eb ptr2 off2 Hwf Hv2) as (tr1 & Hg).
  assert (Hv2' : valid_access eb' ptr2 off2 (sizeof_u b2))
    by (unfold valid_access in *; rewrite Hl; exact Hv2).
  destruct (get_linear b2 eb' ptr2 off2 Hwf' Hv2') as (tr2 & Hg').
  do 5 eexists. split; [exact Hs|]. split; [exact Hg|].
  rewrite Hg', Hc. do 2 f_equal.
  pose proof (length_contents eb Hwf) as Hlc.
  destruct Hwf as (_ & Hlen & _). destruct Hv1 as (? & ? & ?).
  destruct Hv2 as (? & ? & ?).
  apply read_beside_splice; rewrite length_le_split; lia.
Qed.

(** The bytes of a field are stored least significant first, also when
    the field lies on two pages: after a set of a value, the 8-bit get of
    byte [i] of the field returns bits [8 i .. 8 i + 7] of the value. *)
Theorem apfs_set_bits_little_endian (b : ubits) (eb : extent_buffer)
  (ptr off val i : Z) :
  wf_eb eb -> valid_access eb ptr off (sizeof_u b) -> 0 <= i < sizeof_u b ->
  exists eb' tr tr',
    apfs_set_bits PAGE_SHIFT assert_enabled b eb ptr off val = Done eb' tr /\
    apfs_get_bits PAGE_SHIFT assert_enabled U8 eb' ptr (off + i)
    = Done (Z.shiftr val (8 * i) mod 2 ^ 8) tr'.
Proof.
  intros Hwf Hva Hi. pose proof (sizeof_u_range b) as Hb.
  destruct (set_linear b eb ptr off val Hwf Hva)
    as (eb' & tr & Hs & Hc & Hwf' & _ & Hl & _).
  assert (Hv8 : valid_access eb' ptr (off + i) (sizeof_u U8)).
  { unfold valid_access in *. rewrite Hl. cbn [sizeof_u]. lia. }
  destruct (get_linear U8 eb' ptr (off + i) Hwf' Hv8) as (tr' & Hg).
  exists eb', tr, tr'. split; [exact Hs|]. rewrite Hg, Hc. do 2 f_equal.
  pose proof (length_contents eb Hwf) as Hlc.
  destruct Hwf as (_ & Hlen & _). destruct Hva as (? & ? & ?).
  replace (Z.to_nat (ptr + (off + i)))
    with (Z.to_nat (ptr + off) + Z.to_nat i)%nat by lia.
  change (Z.to_nat (sizeof_u U8)) with 1%nat.
  rewrite nth_error_splice by (rewrite length_le_split; lia).
  rewrite skipn_le_split by lia.
  replace (Z.to_nat (sizeof_u b) - Z.to_nat i)%nat
    with (S (Z.to_nat (sizeof_u b) - Z.to_nat i - 1)) by lia.
  match goal with
  | |- context [le_split (S ?n) ?w] =>
      change (le_split (S n) w) with (byte.of_Z w :: le_split n (Z.shiftr w 8))
  end.
  cbn [firstn].
  change (le_combine [?x]) with (Z.lor (byte.unsigned x) (Z.shiftl 0 8)).
  rewrite Z.shiftl_0_l, Z.lor_0_r, byte.unsigned_of_Z. unfold byte.wrap.
  rewrite Z2Nat.id by lia. reflexivity.
Qed.

End LinearView.

(** ** The bounds check *)

Section BoundsCheck.

Variable PAGE_SHIFT : Z.
Hypothesis PAGE_SHIFT_min : 3 <= PAGE_SHIFT.

Local Notation "'PS'" := (PAGE_SIZE PAGE_SHIFT).
Local Notation "'wf_eb'" := (StructFuncs.wf_eb PAGE_SHIFT).

Lemma check_setget_bounds_beyond (eb : extent_buffer) (ptr off size : Z) :
  0 <= ptr -> 0 <= off < 2 ^ 32 -> 0 <= size -> ptr + off + size < 2 ^ 64 ->
  len eb < ptr + off + size ->
  check_setget_bounds eb ptr off size = false.
Proof.
  intros Hp Ho Hs Hlt Hb. unfold check_setget_bounds.
  replace (uint off) with off by (unfold uint; rewrite Z.mod_small; lia).
  rewrite (ulong_small (ptr + off)) by lia.
  rewrite (ulong_small (ptr + off + size)) by lia.
  destruct (Z.ltb_spec (len eb) (ptr + off)); [reflexivity|].
  destruct (Z.ltb_spec (len eb) (ptr + off + size)); [reflexivity|lia].
Qed.

(** With [ASSERT] compiled in, an access that ends beyond [eb->len] stops
    at the assertion in each of the four accessors: no byte is read or
    written. *)
Theorem setget_beyond_len_asserts (b : ubits) (t : apfs_map_token)
  (ptr off val : Z) :
  0 <= ptr -> 0 <= off < 2 ^ 32 -> ptr + off + sizeof_u b < 2 ^ 64 ->
  len (tok_eb t) < ptr + off + sizeof_u b ->
  apfs_get_bits PAGE_SHIFT true b (tok_eb t) ptr off = AssertFailed /\
  apfs_set_bits PAGE_SHIFT true b (tok_eb t) ptr off val = AssertFailed /\
  apfs_get_token_bits PAGE_SHIFT true b t ptr off = AssertFailed /\
  apfs_set_token_bits PAGE_SHIFT true b t ptr off val = AssertFailed.
Proof.
  intros Hp Ho Hlt Hb. pose proof (sizeof_u_range b) as Hs.
  pose proof (check_setget_bounds_beyond (tok_eb t) ptr off (sizeof_u b)
                Hp Ho ltac:(lia) Hlt Hb) as Hc.
  unfold apfs_get_bits, apfs_set_bits, apfs_get_token_bits,
    apfs_set_token_bits. cbv zeta. rewrite Hc.
  repeat split; try reflexivity;
    destruct (tok_kaddr t); reflexivity.
Qed.

(** The block with its length replaced. *)
Lemma get_ignores_len (b : ubits) (eb : extent_buffer) (l : Z) (ptr off : Z) :
  apfs_get_bits PAGE_SHIFT false b
    {| start := start eb; len := l; pages := pages eb; fs_info := fs_info eb |}
    ptr off
  = apfs_get_bits PAGE_SHIFT false b eb ptr off.
Proof. reflexivity. Qed.


(** Where a failed [ASSERT] does not stop the run, the result of the
    bounds check guards nothing: for a get that ends beyond [eb->len] and
    inside the pages the block holds, [check_setget_bounds] is false, and
    the get goes on and returns the bytes it finds there. *)
Theorem get_beyond_len_unchecked (b : ubits) (eb : extent_buffer)
  (ptr off : Z) :
  wf_eb eb -> 0 <= ptr -> 0 <= off < 2 ^ 32 ->
  len eb < ptr + off + sizeof_u b ->
  ptr + off + sizeof_u b <= PS * Z.of_nat (length (pages eb)) ->
  check_setget_bounds eb ptr off (sizeof_u b) = false /\
  exists tr,
    apfs_get_bits PAGE_SHIFT false b eb ptr off
    = Done (le_combine (firstn (Z.to_nat (sizeof_u b))
                          (skipn (Z.to_nat (ptr + off)) (contents eb)))) tr.
Proof.
  intros (Hp & Hl & Hm) H0 H1 Hb Hin.
  pose proof (sizeof_u_range b) as Hs.
  split.
  { apply check_setget_bounds_beyond; unfold page in *; lia. }
  rewrite <- (get_ignores_len b eb (PS * Z.of_nat (length (pages eb)))).
  apply (get_linear PAGE_SHIFT false PAGE_SHIFT_min b
           {| start := start eb; len := PS * Z.of_nat (length (pages eb));
              pages := pages eb; fs_info := fs_info eb |}).
  - unfold StructFuncs.wf_eb. cbn [pages len]. repeat split; try assumption; lia.
  - unfold valid_access. cbn [len]. lia.
Qed.

Lemma read_bytes_no_page (eb : extent_buffer) (k o n : Z) :
  Z.of_nat (length (pages eb)) <= k -> read_bytes eb (Some k) o n = BadAccess.
Proof.
  intros Hk. unfold read_bytes.
  destruct (nth_error (pages eb) (Z.to_nat k)) eqn:E; [|reflexivity].
  assert (Z.to_nat k < length (pages eb))%nat
    by (apply nth_error_Some; congruence).
  lia.
Qed.

(** [check_setget_bounds] takes its offset as an [unsigned]: of an offset
    of 2^32 or more it sees the low 32 bits. When those bits name a place
    inside the block, the check holds for an access that lies beyond the
    block, and the get goes on to a page the block does not have. *)
Theorem check_setget_bounds_wraps_off (assert_enabled : bool) (b : ubits)
  (eb : extent_buffer) (ptr off k : Z) :
  wf_eb eb -> valid_access eb ptr off (sizeof_u b) -> off < 2 ^ 32 ->
  PS * Z.of_nat (length (pages eb)) <= 2 ^ 32 -> 0 < k ->
  ptr + off + k * 2 ^ 32 + sizeof_u b < 2 ^ 64 ->
  check_setget_bounds eb ptr (off + k * 2 ^ 32) (sizeof_u b) = true /\
  len eb < ptr + (off + k * 2 ^ 32) + sizeof_u b /\
  apfs_get_bits PAGE_SHIFT assert_enabled b eb ptr (off + k * 2 ^ 32)
  = BadAccess.
Proof.
  intros (Hp & Hl & Hm) (H0 & H1 & H2) Ho Hn Hk Hlt.
  pose proof (sizeof_u_range b) as Hs.
  pose proof (PAGE_SIZE_ge_8 PAGE_SHIFT PAGE_SHIFT_min) as H8.
  assert (Hc : check_setget_bounds eb ptr (off + k * 2 ^ 32) (sizeof_u b) = true).
  { unfold check_setget_bounds, uint.
    rewrite Z.mod_add by lia. rewrite (Z.mod_small off) by lia.
    rewrite (ulong_small (ptr + off)) by lia.
    rewrite (ulong_small (ptr + off + sizeof_u b)) by lia.
    destruct (Z.ltb_spec (len eb) (ptr + off)); [lia|].
    destruct (Z.ltb_spec (len eb) (ptr + off + sizeof_u b)); [lia|].
    reflexivity. }
  unfold page in *.
  split; [exact Hc|]. split; [lia|].
  unfold apfs_get_bits. cbv zeta. rewrite Hc.
  rewrite (ASSERT_true assert_enabled), bind_ret_l.
  rewrite (ulong_small (ptr + (off + k * 2 ^ 32))) by lia.
  rewrite (page_index_div PAGE_SHIFT PAGE_SHIFT_min).
  assert (Hidx : Z.of_nat (length (pages eb))
                 <= (ptr + (off + k * 2 ^ 32)) / PS).
  { apply Z.div_le_lower_bound; unfold page in *; lia. }
  unfold get_unaligned_le, page_address.
  rewrite !(read_bytes_no_page eb _ _ _ Hidx).
  destruct (_ <=? _); reflexivity.
Qed.

End BoundsCheck.

(** ** The page a token is left on *)

Section TokenPage.

Variable PAGE_SHIFT : Z.
Variable assert_enabled : bool.
Hypothesis PAGE_SHIFT_min : 3 <= PAGE_SHIFT.

Local Notation "'PS'" := (PAGE_SIZE PAGE_SHIFT).
Local Notation "'wf_eb'" := (StructFuncs.wf_eb PAGE_SHIFT).
Local Notation "'token_ok'" := (StructFuncs.token_ok PAGE_SHIFT).

(** The page of the last byte of a field. *)
Lemma last_byte_page (b : ubits) (eb : extent_buffer) (ptr off : Z) :
  wf_eb eb -> valid_access eb ptr off (sizeof_u b) ->
  let m := ptr + off in
  (m mod PS + sizeof_u b <= PS -> (m + sizeof_u b - 1) / PS = m / PS) /\
  (PS < m mod PS + sizeof_u b -> (m + sizeof_u b - 1) / PS = m / PS + 1).
Proof.
  intros Hwf Hva m. pose proof (sizeof_u_range b) as Hb.
  pose proof (PAGE_SIZE_ge_8 PAGE_SHIFT PAGE_SHIFT_min) as H8.
  destruct (resolve PAGE_SHIFT PAGE_SHIFT_min eb ptr off _ Hwf Hva ltac:(lia))
    as (_ & _ & Ho & Hdm & _).
  fold m in Ho, Hdm. split; intros Hs; symmetry.
  - apply Z.div_unique with (r := m mod PS + sizeof_u b - 1); lia.
  - apply Z.div_unique with (r := m mod PS + sizeof_u b - 1 - PS); lia.
Qed.

Lemma bind_ret_inv {A B} (m : outcome A) (f : A -> B) (r : B) tr :
  bind m (fun a => ret (f a)) = Done r tr -> exists a, r = f a.
Proof.
  destruct m as [a tr0| |]; cbn; try discriminate.
  intros E. injection E as <- _. exists a. reflexivity.
Qed.

Lemma token_after_get (b : ubits) (t t' : apfs_map_token) (ptr off v : Z) tr :
  wf_eb (tok_eb t) -> token_ok t ->
  valid_access (tok_eb t) ptr off (sizeof_u b) ->
  apfs_get_token_bits PAGE_SHIFT assert_enabled b t ptr off = Done (v, t') tr ->
  tok_eb t' = tok_eb t /\
  tok_kaddr t' = Some ((ptr + off + sizeof_u b - 1) / PS) /\
  tok_offset t' = (ptr + off + sizeof_u b - 1) / PS * PS.
Proof.
  intros Hwf (k & Ek & Eo & Hk) Hva. pose proof (sizeof_u_range b) as Hb.
  destruct (resolve PAGE_SHIFT PAGE_SHIFT_min _ ptr off _ Hwf Hva ltac:(lia))
    as (Hu & Hi & Ho & Hdm & Hlt).
  destruct (last_byte_page b _ ptr off Hwf Hva) as [L1 L2].
  unfold apfs_get_token_bits. cbv zeta.
  rewrite !(ASSERT_true assert_enabled), bind_ret_l.
  rewrite Ek. cbn [is_null negb].
  rewrite (check_setget_bounds_ok PAGE_SHIFT) by (assumption || lia).
  rewrite !(ASSERT_true assert_enabled), !bind_ret_l.
  rewrite Eo.
  destruct ((k * PS <=? ulong (ptr + off))
            && (ulong (ulong (ptr + off) + sizeof_u b)
                <=? ulong (k * PS + PS))) eqn:Hc.
  - destruct (fast_path PAGE_SHIFT PAGE_SHIFT_min b _ ptr off Hwf Hva k Hk Hc)
      as [-> Hs].
    intros E. apply (bind_ret_inv _ (fun v => (v, t))) in E.
    destruct E as (a & E). injection E as _ ->.
    rewrite (L1 Hs). auto.
  - rewrite Hu, (page_index_div PAGE_SHIFT PAGE_SHIFT_min),
      (offset_in_page_mod PAGE_SHIFT PAGE_SHIFT_min).
    destruct (Z.leb_spec ((ptr + off) mod PS + sizeof_u b) PS) as [Hs|Hs].
    + intros E. apply (bind_ret_inv _ (fun v => (v, _))) in E.
      destruct E as (a & E). injection E as _ ->.
      cbn [tok_eb tok_kaddr tok_offset with_kaddr page_address].
      rewrite (shift_page PAGE_SHIFT PAGE_SHIFT_min _ Hwf _ Hi), (L1 Hs). auto.
    + pose proof (second_page PAGE_SHIFT PAGE_SHIFT_min b _ ptr off Hwf Hva Hs)
        as Hi2.
      destruct (read_bytes _ _ _ _) as [bs1 tr1| |]; cbn [bind];
        try discriminate.
      destruct (read_bytes _ _ _ _) as [bs2 tr2| |]; cbn [bind ret];
        try discriminate.
      intros E. injection E as _ <- _.
      cbn [tok_eb tok_kaddr tok_offset with_kaddr page_address].
      rewrite (shift_page PAGE_SHIFT PAGE_SHIFT_min _ Hwf _ Hi2), (L2 Hs). auto.
Qed.

Lemma bind_with_eb_inv (m : outcome extent_buffer) (t t' : apfs_map_token) tr :
  bind m (fun eb' => ret (with_eb t eb')) = Done t' tr ->
  tok_kaddr t' = tok_kaddr t /\ tok_offset t' = tok_offset t.
Proof.
  destruct m as [a tr0| |]; cbn; try discriminate.
  intros E. injection E as <- _. split; reflexivity.
Qed.

Lemma token_after_set (b : ubits) (t t' : apfs_map_token) (ptr off val : Z) tr :
  wf_eb (tok_eb t) -> token_ok t ->
  valid_access (tok_eb t) ptr off (sizeof_u b) ->
  apfs_set_token_bits PAGE_SHIFT assert_enabled b t ptr off val = Done t' tr ->
  tok_kaddr t' = Some ((ptr + off + sizeof_u b - 1) / PS) /\
  tok_offset t' = (ptr + off + sizeof_u b - 1) / PS * PS.
Proof.
  intros Hwf (k & Ek & Eo & Hk) Hva. pose proof (sizeof_u_range b) as Hb.
  destruct (resolve PAGE_SHIFT PAGE_SHIFT_min _ ptr off _ Hwf Hva ltac:(lia))
    as (Hu & Hi & Ho & Hdm & Hlt).
  destruct (last_byte_page b _ ptr off Hwf Hva) as [L1 L2].
  unfold apfs_set_token_bits. cbv zeta.
  rewrite !(ASSERT_true assert_enabled), bind_ret_l.
  rewrite Ek. cbn [is_null negb].
  rewrite (check_setget_bounds_ok PAGE_SHIFT) by (assumption || lia).
  rewrite !(ASSERT_true assert_enabled), !bind_ret_l.
  rewrite Eo.
  destruct ((k * PS <=? ulong (ptr + off))
            && (ulong (ulong (ptr + off) + sizeof_u b)
                <=? ulong (k * PS + PS))) eqn:Hc.
  - destruct (fast_path PAGE_SHIFT PAGE_SHIFT_min b _ ptr off Hwf Hva k Hk Hc)
      as [-> Hs].
    intros E. apply bind_with_eb_inv in E. destruct E as [-> ->].
    rewrite Ek, Eo, (L1 Hs). auto.
  - rewrite Hu, (page_index_div PAGE_SHIFT PAGE_SHIFT_min),
      (offset_in_page_mod PAGE_SHIFT PAGE_SHIFT_min).
    destruct (Z.leb_spec ((ptr + off) mod PS + sizeof_u b) PS) as [Hs|Hs].
    + intros E. apply bind_with_eb_inv in E. destruct E as [-> ->].
      cbn [tok_eb tok_kaddr tok_offset with_kaddr page_address].
      rewrite (shift_page PAGE_SHIFT PAGE_SHIFT_min _ Hwf _ Hi), (L1 Hs). auto.
    + pose proof (second_page PAGE_SHIFT PAGE_SHIFT_min b _ ptr off Hwf Hva Hs)
        as Hi2.
      destruct (write_bytes _ _ _ _) as [eb1 tr1| |]; cbn [bind];
        try discriminate.
      destruct (write_bytes _ _ _ _) as [eb2 tr2| |]; cbn [bind ret];
        try discriminate.
      intros E. injection E as <- _.
      cbn [tok_eb tok_kaddr tok_offset with_kaddr with_eb page_address].
      rewrite (shift_page PAGE_SHIFT PAGE_SHIFT_min _ Hwf _ Hi2), (L2 Hs). auto.
Qed.

(** A token access leaves the token on the page of the last byte of the
    field it read or wrote: on the page of the field, and on the second of
    its two pages when the field lies on two. *)
Theorem token_left_on_last_page (b : ubits) (t : apfs_map_token)
  (ptr off val : Z) :
  wf_eb (tok_eb t) -> token_ok t ->
  valid_access (tok_eb t) ptr off (sizeof_u b) ->
  let last := (ptr + off + sizeof_u b - 1) / PS in
  (exists v t' tr,
      apfs_get_token_bits PAGE_SHIFT assert_enabled b t ptr off
      = Done (v, t') tr /\
      tok_eb t' = tok_eb t /\
      tok_kaddr t' = Some last /\ tok_offset t' = last * PS) /\
  (exists t' tr,
      apfs_set_token_bits PAGE_SHIFT assert_enabled b t ptr off val
      = Done t' tr /\
      tok_kaddr t' = Some last /\ tok_offset t' = last * PS).
Proof.
  intros Hwf Htok Hva last. split.
  - destruct (apfs_get_bits_done PAGE_SHIFT assert_enabled PAGE_SHIFT_min
                b _ ptr off Hwf Hva) as (v & tr & Hg & _).
    destruct (apfs_get_token_bits_plain PAGE_SHIFT assert_enabled
                PAGE_SHIFT_min b _ ptr off Hwf Hva t eq_refl Htok)
      as (t' & _ & _ & Hgt).
    specialize (Hgt v tr Hg). exists v, t', tr. split; [exact Hgt|].
    exact (token_after_get b t t' ptr off v tr Hwf Htok Hva Hgt).
  - destruct (apfs_set_bits_done PAGE_SHIFT assert_enabled PAGE_SHIFT_min
                b _ ptr off val Hwf Hva) as (eb' & tr & Hs & _).
    destruct (apfs_set_token_bits_plain PAGE_SHIFT assert_enabled
                PAGE_SHIFT_min b _ ptr off Hwf Hva t val eq_refl Htok eb' tr Hs)
      as (t' & Hst & _).
    exists t', tr. split; [exact Hst|].
    exact (token_after_set b t t' ptr off val tr Hwf Htok Hva Hst).
Qed.

End TokenPage.

(** * Further properties of the item checkers *)

Section Shapes.
Context {C : ctree}.

Lemma simple_OK : simple OK.
Proof. left. reflexivity. Qed.

Lemma simple_corrupt e : simple (corrupt e).
Proof. right. exists e. reflexivity. Qed.

Ltac chain :=
  repeat match goal with
         | |- simple (if ?c then _ else _) => destruct c
         | |- simple (corrupt _) => apply simple_corrupt
         | |- simple OK => apply simple_OK
         | |- simple (match ?x with _ => _ end) => destruct x
         end.










Lemma check_inode_key_shape leaf key slot :
  simple_or_xattr leaf slot (check_inode_key leaf key slot).
Proof.
  unfold check_inode_key. cbv zeta.
  destruct (Z.eqb_spec (type (apfs_item_key_to_cpu leaf slot))
              APFS_XATTR_ITEM_KEY) as [E|_].
  - destruct (_ || _).
    + right. split; [reflexivity|exact E].
    + left. apply simple_OK.
  - left. chain.
Qed.


(** *** The checkers that loop or assert *)







Lemma u32_small (x : Z) : 0 <= x < 2 ^ 32 -> u32 x = x.
Proof. intros H. unfold u32. apply Z.mod_small. exact H. Qed.

Lemma u16_range (x : Z) : 0 <= u16 x < 2 ^ 16.
Proof. unfold u16. apply Z.mod_pos_bound. lia. Qed.

Lemma u32_range (x : Z) : 0 <= u32 x < 2 ^ 32.
Proof. unfold u32. apply Z.mod_pos_bound. lia. Qed.







(** The loop over the inline references returns, with a report or at the
    end of the item: a round that passes has checked that the reference
    ends inside the item. *)
Lemma check_inline_refs_returns leaf slot end_ :
  Forall (fun ty => 0 < apfs_extent_inline_ref_size ty < 2 ^ 32)
    [APFS_TREE_BLOCK_REF_KEY; APFS_SHARED_BLOCK_REF_KEY;
     APFS_EXTENT_DATA_REF_KEY; APFS_SHARED_DATA_REF_KEY] ->
  end_ < 2 ^ 63 ->
  forall fuel ptr n,
    0 <= ptr -> (Z.to_nat (end_ - ptr) <= fuel)%nat ->
    exists r,
      check_inline_refs fuel leaf slot end_ ptr n = Returns r /\
      match r with
      | inl v => reported v
      | inr (p, _) => (ptr <= end_ -> p = end_) /\ (end_ < ptr -> p = ptr)
      end.
Proof.
  intros Hszs He.
  rewrite Forall_forall in Hszs.
  induction fuel as [|fuel IH]; intros ptr n Hp Hf; cbn [check_inline_refs];
    (destruct (Z.ltb_spec ptr end_) as [Hlt|Hge]; cbn [negb];
     [|eexists; split; [reflexivity|cbv beta iota; lia]]); [lia|].
  cbv zeta.
  destruct (_ <? _);
    [eexists; split; [reflexivity|eexists; reflexivity]|].
  set (ty := u8 (apfs_extent_inline_ref_type leaf ptr)).
  destruct (Z.ltb_spec end_ (ulong (ptr + apfs_extent_inline_ref_size ty)))
    as [|Hfit];
    [eexists; split; [reflexivity|eexists; reflexivity]|].
  assert (Hnext : In ty [APFS_TREE_BLOCK_REF_KEY; APFS_SHARED_BLOCK_REF_KEY;
                         APFS_EXTENT_DATA_REF_KEY; APFS_SHARED_DATA_REF_KEY] ->
            forall n',
            exists r,
              check_inline_refs fuel leaf slot end_
                (ulong (ptr + apfs_extent_inline_ref_size ty)) n' = Returns r /\
              match r with
              | inl v => reported v
              | inr (p, _) => (ptr <= end_ -> p = end_) /\ (end_ < ptr -> p = ptr)
              end).
  { intros Hin n'. specialize (Hszs ty Hin).
    rewrite ulong_small in Hfit |- * by lia.
    destruct (IH (ptr + apfs_extent_inline_ref_size ty) n') as (r & E & Hr);
      [lia|lia|].
    exists r. split; [exact E|]. destruct r as [v|[p m]]; [exact Hr|]. lia. }
  destruct (Z.eqb_spec ty APFS_TREE_BLOCK_REF_KEY) as [E1|_].
  { apply Hnext. rewrite E1. cbn. tauto. }
  destruct (Z.eqb_spec ty APFS_SHARED_BLOCK_REF_KEY) as [E2|_].
  { destruct (negb _);
      [eexists; split; [reflexivity|eexists; reflexivity]|].
    apply Hnext. rewrite E2. cbn. tauto. }
  destruct (Z.eqb_spec ty APFS_EXTENT_DATA_REF_KEY) as [E3|_].
  { destruct (negb _);
      [eexists; split; [reflexivity|eexists; reflexivity]|].
    apply Hnext. rewrite E3. cbn. tauto. }
  destruct (Z.eqb_spec ty APFS_SHARED_DATA_REF_KEY) as [E4|_].
  { destruct (negb _);
      [eexists; split; [reflexivity|eexists; reflexivity]|].
    apply Hnext. rewrite E4. cbn. tauto. }
  eexists; split; [reflexivity|eexists; reflexivity].
Qed.



Ltac other_message E :=
  apply (f_equal messages) in E;
  unfold messages, corrupt, extent_err, generic_err in E;
  cbn [map snd log_fmt] in E;
  discriminate E.

Lemma check_inline_refs_other_message leaf slot end_ e :
  log_fmt e = "invalid extent item size, padding bytes found"%string ->
  forall fuel ptr n,
    check_inline_refs fuel leaf slot end_ ptr n <> Returns (inl (corrupt e)).
Proof.
  intros He.
  assert (Hm : forall f, f <> log_fmt e ->
                 Returns (inl (corrupt (extent_err leaf slot f)))
                 <> Returns (A := verdict + Z * Z) (inl (corrupt e))).
  { intros f Hf E. injection E as E. subst e. apply Hf. reflexivity. }
  rewrite He in Hm.
  induction fuel as [|fuel IH]; intros ptr n; cbn [check_inline_refs];
    (destruct (negb (ptr <? end_)); [discriminate|]); [discriminate|].
  cbv zeta.
  destruct (_ <? _); [apply Hm; discriminate|].
  destruct (_ <? _); [apply Hm; discriminate|].
  repeat match goal with
         | |- match (if ?c then _ else _) with _ => _ end <> _ => destruct c
         | |- Returns (inl (corrupt (extent_err _ _ _))) <> _ =>
             apply Hm; discriminate
         | |- check_inline_refs _ _ _ _ _ _ <> _ => apply IH
         end.
Qed.

(** [check_extent_item] reports padding bytes only for an item that ends
    ahead of the place where its inline references start: a loop that
    starts inside the item ends at the end of the item. *)
Theorem padding_reported_for_short_item_only leaf key slot :
  item_layout_ok leaf slot ->
  check_extent_item leaf key slot
  = Returns (corrupt (extent_err leaf slot
      "invalid extent item size, padding bytes found")) ->
  extent_item_end leaf slot < inline_refs_start leaf key slot.
Proof.
  intros (Hoff & Hsz & _ & _ & _ & Hszs & _) E.
  unfold check_extent_item in E. cbv zeta in E.
  repeat match type of E with
         | (if ?c then Returns (corrupt _) else _) = _ =>
             destruct c; [exfalso; other_message E|]
         end.
  match type of E with
  | match ?x with _ => _ end = _ => destruct x as [v|] eqn:Ex
  end.
  { exfalso.
    repeat match type of Ex with
           | (if ?c then _ else _) = _ => destruct c
           end; try discriminate Ex; injection Ex as <-; other_message E. }
  match type of E with
  | match ?x with _ => _ end = _ => destruct x as [v|ptr] eqn:Ei
  end.
  { exfalso.
    repeat match type of Ei with
           | (if ?c then _ else _) = _ => destruct c
           end; try discriminate Ei; injection Ei as <-; other_message E. }
  assert (Hptr : ptr = inline_refs_start leaf key slot).
  { unfold inline_refs_start, extent_is_tree_block.
    match type of Ei with (if ?c then _ else _) = _ => destruct c end.
    - match type of Ei with
      | (if ?c then _ else _) = _ => destruct c; [discriminate Ei|]
      end.
      injection Ei as <-. reflexivity.
    - injection Ei as <-. reflexivity. }
  unfold extent_item_end. rewrite <- Hptr.
  pose proof (u32_range (apfs_item_size_nr leaf slot)) as Hs32.
  assert (Hp0 : 0 <= ptr).
  { rewrite Hptr. unfold inline_refs_start.
    destruct (extent_is_tree_block leaf slot
              && negb (type key =? APFS_METADATA_ITEM_KEY));
      unfold ulong; apply Z.mod_pos_bound; lia. }
  set (end_ := ulong (u32 (apfs_item_size_nr leaf slot)
                      + apfs_item_ptr_offset leaf slot)) in *.
  assert (Hend : end_ < 2 ^ 63).
  { unfold end_. rewrite ulong_small by lia. lia. }
  destruct (check_inline_refs_returns leaf slot end_ Hszs Hend
              (Z.to_nat (end_ - ptr)) ptr 0 Hp0 (Nat.le_refl _))
    as (r & Er & Hr).
  rewrite Er in E. cbn [run_bind] in E. destruct r as [v|[p m]].
  { exfalso. injection E as ->.
    revert Er. apply check_inline_refs_other_message. reflexivity. }
  destruct (Z.eqb_spec p end_) as [->|Hne]; cbn [negb] in E.
  - exfalso. destruct (_ <? _); other_message E.
  - destruct (Z.le_gt_cases ptr end_) as [Hle|Hgt]; [|lia].
    exfalso. apply Hne. apply Hr. exact Hle.
Qed.



End Shapes.

(** ** Masks and multiples *)

Lemma IS_ALIGNED_pow2 (x k : Z) :
  0 <= k -> IS_ALIGNED x (2 ^ k) = (x mod 2 ^ k =? 0).
Proof.
  intros Hk. unfold IS_ALIGNED.
  replace (2 ^ k - 1) with (Z.ones k) by (rewrite Z.ones_equiv; lia).
  rewrite Z.land_ones by exact Hk. reflexivity.
Qed.

Lemma ALIGN_pow2 (x k : Z) :
  0 <= k -> 0 <= x -> x + 2 ^ k <= 2 ^ 64 ->
  ALIGN x (2 ^ k) = (x + (2 ^ k - 1)) / 2 ^ k * 2 ^ k.
Proof.
  intros Hk Hx Hlt. unfold ALIGN.
  assert (0 < 2 ^ k) by (apply Z.pow_pos_nonneg; lia).
  rewrite u64_small by lia.
  replace (2 ^ k - 1) with (Z.ones k) by (rewrite Z.ones_equiv; lia).
  rewrite <- Z.ldiff_land, Z.ldiff_ones_r by exact Hk.
  rewrite Z.shiftr_div_pow2, Z.shiftl_mul_pow2 by exact Hk. reflexivity.
Qed.

(** [ALIGN] rounds up to the next multiple. *)
Lemma ALIGN_rounds_up (x k : Z) :
  0 <= k -> 0 <= x -> x + 2 ^ k <= 2 ^ 64 ->
  ALIGN x (2 ^ k) mod 2 ^ k = 0 /\ x <= ALIGN x (2 ^ k) < x + 2 ^ k.
Proof.
  intros Hk Hx Hlt. rewrite (ALIGN_pow2 x k Hk Hx Hlt).
  assert (Hp : 0 < 2 ^ k) by (apply Z.pow_pos_nonneg; lia).
  split; [apply Z.mod_mul; lia|].
  pose proof (Z.div_mod (x + (2 ^ k - 1)) (2 ^ k) ltac:(lia)) as Hd.
  pose proof (Z.mod_pos_bound (x + (2 ^ k - 1)) (2 ^ k) Hp) as Hm.
  lia.
Qed.

Section FileExtentEnd.
Context {C : ctree}.

(** The end of an inline extent is its file offset plus its size in
    memory, rounded up to the next multiple of the sector size; the end of
    another extent is its file offset plus its length. *)
Theorem file_extent_end_rounds_inline_up (leaf : extent_buffer)
  (key : apfs_key) (extent k : Z) :
  sectorsize (fs_info leaf) = 2 ^ k -> 0 <= k ->
  0 <= offset key ->
  0 <= apfs_file_extent_ram_bytes leaf extent ->
  offset key + apfs_file_extent_ram_bytes leaf extent + 2 ^ k <= 2 ^ 64 ->
  let end_ := file_extent_end leaf key extent in
  (apfs_file_extent_type leaf extent = APFS_FILE_EXTENT_INLINE ->
   end_ mod 2 ^ k = 0 /\
   offset key + apfs_file_extent_ram_bytes leaf extent <= end_
   < offset key + apfs_file_extent_ram_bytes leaf extent + 2 ^ k) /\
  (apfs_file_extent_type leaf extent <> APFS_FILE_EXTENT_INLINE ->
   end_ = (offset key + apfs_file_extent_num_bytes leaf extent) mod 2 ^ 64).
Proof.
  intros Hs Hk Ho Hr Hlt end_. unfold end_, file_extent_end.
  assert (Hp : 0 < 2 ^ k) by (apply Z.pow_pos_nonneg; lia).
  split; intros Ht.
  - rewrite Ht, Z.eqb_refl, Hs. rewrite u64_small by lia.
    apply ALIGN_rounds_up; lia.
  - destruct (Z.eqb_spec (apfs_file_extent_type leaf extent)
                APFS_FILE_EXTENT_INLINE); [contradiction|]. reflexivity.
Qed.

End FileExtentEnd.

(** ** One bit set *)

Lemma popcount_pos_ge_1 (p : positive) : 1 <= popcount_pos p.
Proof. induction p; cbn [popcount_pos]; lia. Qed.

Lemma popcount_pos_1 (p : positive) :
  popcount_pos p <= 1 -> exists k, 0 <= k /\ Z.pos p = 2 ^ k.
Proof.
  induction p as [q IH|q IH|]; cbn [popcount_pos]; intros H.
  - pose proof (popcount_pos_ge_1 q). lia.
  - destruct (IH H) as (k & Hk & E). exists (k + 1). split; [lia|].
    rewrite Z.pow_add_r, Z.pow_1_r by lia. lia.
  - exists 0. split; [lia|reflexivity].
Qed.

(** At most one bit counted by [hweight64]: the value is 0 or a power of
    two. *)
Lemma hweight64_le_1 (x : Z) :
  hweight64 x <= 1 -> u64 x = 0 \/ exists k, 0 <= k < 64 /\ u64 x = 2 ^ k.
Proof.
  unfold hweight64. pose proof (Z.mod_pos_bound x (2 ^ 64) ltac:(lia)) as Hb.
  fold (u64 x) in Hb.
  destruct (u64 x) as [|p|p] eqn:E; intros H; [left; reflexivity| |lia].
  right. destruct (popcount_pos_1 p H) as (k & Hk & Ek). exists k.
  split; [|exact Ek]. split; [lia|].
  apply (Z.pow_lt_mono_r_iff 2); lia.
Qed.

(** [has_single_bit_set] on the file type bits of a mode: one of FIFO, CHR,
    DIR, REG. *)
Lemma land_S_IFMT (m : Z) :
  exists y, 0 <= y < 16 /\ Z.land m S_IFMT = 4096 * y.
Proof.
  exists (Z.land (Z.shiftr m 12) 15). split.
  - change 15 with (Z.ones 4). rewrite Z.land_ones by lia.
    apply Z.mod_pos_bound. lia.
  - rewrite Z.mul_comm. change 4096 with (2 ^ 12).
    rewrite <- Z.shiftl_mul_pow2 by lia.
    apply Z.bits_inj'. intros n Hn.
    rewrite Z.land_spec.
    destruct (Z.lt_ge_cases n 12) as [Hlt|Hge].
    + rewrite Z.shiftl_spec_low by exact Hlt.
      unfold S_IFMT. change 61440 with (Z.shiftl 15 12).
      rewrite Z.shiftl_spec_low by exact Hlt. apply andb_false_r.
    + rewrite Z.shiftl_spec by lia. rewrite Z.land_spec, Z.shiftr_spec by lia.
      replace (n - 12 + 12) with n by lia.
      unfold S_IFMT. change 61440 with (Z.shiftl 15 12).
      rewrite (Z.shiftl_spec 15) by lia. reflexivity.
Qed.

Lemma mode_type_check (m : Z) :
  negb (has_single_bit_set (Z.land m S_IFMT))
  && (negb (S_ISLNK m) && negb (S_ISBLK m) && negb (S_ISSOCK m)) = false
  <-> In (Z.land m S_IFMT) file_types.
Proof.
  unfold S_ISLNK, S_ISBLK, S_ISSOCK.
  destruct (land_S_IFMT m) as (y & Hy & ->).
  assert (Hc : y = 0 \/ y = 1 \/ y = 2 \/ y = 3 \/ y = 4 \/ y = 5 \/ y = 6 \/
               y = 7 \/ y = 8 \/ y = 9 \/ y = 10 \/ y = 11 \/ y = 12 \/
               y = 13 \/ y = 14 \/ y = 15) by lia.
  unfold file_types.
  repeat (destruct Hc as [->|Hc]); try subst y;
    vm_compute; intuition (try discriminate; try lia).
Qed.

Section MoreItemFacts.
Context {C : ctree}.


Lemma fst_corrupt (e : log_entry) : fst (corrupt e) <> 0.
Proof. cbn. unfold EUCLEAN. lia. Qed.

(** What the return value 0 of [check_inode_item] stands for: a key that
    [check_inode_key] accepts, a generation and a transid not above the
    generation of the super block plus one, no mode bit outside the file
    type, the permission and the set-id and sticky bits, the file type bits
    of one of the seven file types, a link count of at most 1 for a
    directory, and no unknown flag. *)
Theorem inode_item_guarantees (leaf : extent_buffer) (key : apfs_key)
  (slot : Z) :
  fst (check_inode_item leaf key slot) = 0 ->
  let iitem := apfs_item_ptr leaf slot in
  let mode := u32 (apfs_inode_mode leaf iitem) in
  inode_fields_valid leaf key slot /\
  In (Z.land mode S_IFMT) file_types /\
  (Z.land mode S_IFMT = S_IFDIR -> apfs_inode_nlink leaf iitem <= 1).
Proof.
  intros H iitem mode.
  unfold check_inode_item in H. cbv zeta in H.
  fold iitem in H. fold mode in H.
  assert (Hk : check_inode_key leaf key slot = (0, [])).
  { destruct (Z.ltb_spec (fst (check_inode_key leaf key slot)) 0) as [Hn|Hn].
    - exfalso. lia.
    - destruct (check_inode_key_shape leaf key slot)
        as [[Hs|(e & Hs)]|[Hs _]];
        [exact Hs|rewrite Hs in Hn|rewrite Hs in Hn];
        cbn in Hn; unfold EUCLEAN in Hn; lia. }
  rewrite Hk in H. cbn [fst] in H. change (0 <? 0) with false in H.
  cbv iota in H.
  destruct (Z.ltb_spec
              (u64 (u64 (apfs_super_generation (super_copy (fs_info leaf))) + 1))
              (apfs_inode_generation leaf iitem)) as [|Hg];
    [destruct (fst_corrupt _ H)|].
  destruct (Z.ltb_spec
              (u64 (u64 (apfs_super_generation (super_copy (fs_info leaf))) + 1))
              (apfs_inode_transid leaf iitem)) as [|Ht];
    [destruct (fst_corrupt _ H)|].
  destruct (Z.eqb_spec
              (Z.land mode
                 (Z.lnot (Z.lor (Z.lor (Z.lor (Z.lor S_IFMT S_ISUID) S_ISGID)
                                   S_ISVTX) 511))) 0) as [Hm|];
    cbn [negb] in H; [|destruct (fst_corrupt _ H)].
  pose proof (mode_type_check mode) as Hty.
  destruct (negb (has_single_bit_set (Z.land mode S_IFMT))
            && (negb (S_ISLNK mode) && negb (S_ISBLK mode)
                && negb (S_ISSOCK mode)));
    [destruct (fst_corrupt _ H)|].
  assert (Hin : In (Z.land mode S_IFMT) file_types) by (apply Hty; reflexivity).
  unfold S_ISDIR in H.
  assert (Hdir : Z.land mode S_IFMT = S_IFDIR ->
                 apfs_inode_nlink leaf iitem <= 1).
  { intros Ed. rewrite Ed, Z.eqb_refl in H. cbn [andb] in H.
    destruct (Z.ltb_spec 1 (apfs_inode_nlink leaf iitem));
      [destruct (fst_corrupt _ H)|assumption]. }
  assert (Hf : Z.land (apfs_inode_flags leaf iitem)
                 (Z.lnot APFS_INODE_FLAG_MASK) = 0).
  { destruct (Z.eqb_spec (Z.land (apfs_inode_flags leaf iitem)
                            (Z.lnot APFS_INODE_FLAG_MASK)) 0) as [E|];
      [exact E|].
    cbn [negb] in H.
    destruct (_ && _); destruct (fst_corrupt _ H). }
  split; [|split; assumption].
  unfold inode_fields_valid. cbv zeta. fold iitem. fold mode.
  repeat split; assumption.
Qed.

(** What the return value 0 of [apfs_check_chunk_valid] stands for, with
    a sector size that is a power of two: at least one stripe and at least
    as many as the profile has copies, start and length multiples of the
    sector size, a length that is not zero, an end that does not overflow,
    the fixed stripe length, known type bits with one type bit at least,
    and the stripe count of the profile. *)
Theorem chunk_valid_guarantees (leaf : extent_buffer) (chunk logical k : Z) :
  sectorsize (fs_info leaf) = 2 ^ k -> 0 <= k -> 0 <= logical ->
  fst (apfs_check_chunk_valid leaf chunk logical) = 0 ->
  let length := u64 (apfs_chunk_length leaf chunk) in
  let n := u16 (apfs_chunk_num_stripes leaf chunk) in
  let sub := u16 (apfs_chunk_sub_stripes leaf chunk) in
  let ty := u64 (apfs_chunk_type leaf chunk) in
  let profile := Z.land ty APFS_BLOCK_GROUP_PROFILE_MASK in
  (1 <= n /\
   apfs_raid_array_ncopies (apfs_bg_flags_to_raid_index ty) <= n) /\
  (logical mod 2 ^ k = 0 /\ apfs_chunk_sector_size leaf chunk = 2 ^ k /\
   0 < length /\ length mod 2 ^ k = 0 /\ logical + length < 2 ^ 64) /\
  u64 (apfs_chunk_stripe_len leaf chunk) = APFS_STRIPE_LEN /\
  (Z.land ty (Z.lnot (Z.lor APFS_BLOCK_GROUP_TYPE_MASK
                        APFS_BLOCK_GROUP_PROFILE_MASK)) = 0 /\
   Z.land ty APFS_BLOCK_GROUP_TYPE_MASK <> 0) /\
  (profile = 0 -> n = 1) /\
  (Z.land ty APFS_BLOCK_GROUP_RAID1 <> 0 -> n = 2) /\
  (Z.land ty APFS_BLOCK_GROUP_DUP <> 0 -> n = 2) /\
  (Z.land ty APFS_BLOCK_GROUP_RAID10 <> 0 -> sub = 2) /\
  (Z.land ty APFS_BLOCK_GROUP_RAID5 <> 0 -> 2 <= n) /\
  (Z.land ty APFS_BLOCK_GROUP_RAID6 <> 0 -> 3 <= n).
Proof.
  intros Hs Hk Hlog H length n sub ty profile.
  unfold apfs_check_chunk_valid in H. cbv zeta in H.
  fold length n sub ty in H. fold profile in H.
  rewrite Hs in H. rewrite !IS_ALIGNED_pow2 in H by exact Hk.
  pose proof (u16_range (apfs_chunk_num_stripes leaf chunk)) as Hn.
  fold n in Hn.
  pose proof (Z.mod_pos_bound (apfs_chunk_length leaf chunk) (2 ^ 64)
                ltac:(lia)) as Hlen.
  fold (u64 (apfs_chunk_length leaf chunk)) in Hlen. fold length in Hlen.
  destruct (Z.eqb_spec n 0) as [|Hn0]; [destruct (fst_corrupt _ H)|].
  destruct (Z.ltb_spec n
              (apfs_raid_array_ncopies (apfs_bg_flags_to_raid_index ty)))
    as [|Hnc]; [destruct (fst_corrupt _ H)|].
  destruct (_ && _); [destruct (fst_corrupt _ H)|].
  destruct (Z.eqb_spec (logical mod 2 ^ k) 0) as [Hla|]; cbn [negb] in H;
    [|destruct (fst_corrupt _ H)].
  destruct (Z.eqb_spec (apfs_chunk_sector_size leaf chunk) (2 ^ k)) as [Hss|];
    cbn [negb] in H; [|destruct (fst_corrupt _ H)].
  destruct (Z.eqb_spec length 0) as [|Hl0]; cbn [orb] in H;
    [destruct (fst_corrupt _ H)|].
  destruct (Z.eqb_spec (length mod 2 ^ k) 0) as [Hlena|]; cbn [negb] in H;
    [|destruct (fst_corrupt _ H)].
  unfold check_add_overflow in H. cbn [fst] in H.
  destruct (Z.eqb_spec (logical + length) (u64 (logical + length)))
    as [Hov|]; cbn [negb] in H; [|destruct (fst_corrupt _ H)].
  destruct (is_power_of_2 _); cbn [negb orb] in H;
    [|destruct (fst_corrupt _ H)].
  destruct (Z.eqb_spec (u64 (apfs_chunk_stripe_len leaf chunk))
              APFS_STRIPE_LEN) as [Hsl|]; cbn [negb] in H;
    [|destruct (fst_corrupt _ H)].
  destruct (Z.eqb_spec
              (Z.land ty (Z.lnot (Z.lor APFS_BLOCK_GROUP_TYPE_MASK
                                    APFS_BLOCK_GROUP_PROFILE_MASK))) 0)
    as [Hunk|]; cbn [negb] in H; [|destruct (fst_corrupt _ H)].
  destruct (_ && _); [destruct (fst_corrupt _ H)|].
  destruct (Z.eqb_spec (Z.land ty APFS_BLOCK_GROUP_TYPE_MASK) 0) as [|Htm];
    [destruct (fst_corrupt _ H)|].
  destruct (_ && _); [destruct (fst_corrupt _ H)|].
  destruct (_ && _); [destruct (fst_corrupt _ H)|].
  match type of H with
  | fst (if ?c then _ else _) = 0 =>
      destruct c eqn:Et; [destruct (fst_corrupt _ H)|]
  end.
  repeat (apply orb_false_iff in Et; destruct Et as [Et ?]).
  repeat match goal with
         | E : _ && _ = false |- _ => apply andb_false_iff in E
         end.
  assert (Hu : logical + length < 2 ^ 64).
  { rewrite Hov. unfold u64. apply Z.mod_pos_bound. lia. }
  repeat split; try assumption; try lia;
    intros Hp;
    repeat match goal with
           | E : _ \/ _ |- _ => destruct E as [E|E]
           | E : negb (_ =? _) = false |- _ =>
               apply negb_false_iff, Z.eqb_eq in E
           | E : negb (_ =? _) = true |- _ =>
               apply negb_true_iff, Z.eqb_neq in E
           | E : (_ =? _) = false |- _ => apply Z.eqb_neq in E
           | E : (_ <? _) = false |- _ => apply Z.ltb_ge in E
           end; try contradiction; try lia.
Qed.

(** What the return value 0 of [check_block_group_item] stands for: a
    length that is not zero, the size of the structure, the chunk tree as
    owner, no more bytes used than the length, at most one profile bit, and
    one of the four type combinations. *)
Theorem block_group_item_guarantees (leaf : extent_buffer) (key : apfs_key)
  (slot : Z) :
  fst (check_block_group_item leaf key slot) = 0 ->
  let bgi := read_extent_buffer leaf (apfs_item_ptr_offset leaf slot)
               sizeof_apfs_block_group_item in
  let flags := u64 (apfs_stack_block_group_flags bgi) in
  let profile := u64 (Z.land flags APFS_BLOCK_GROUP_PROFILE_MASK) in
  offset key <> 0 /\
  u32 (apfs_item_size_nr leaf slot) = sizeof_apfs_block_group_item /\
  apfs_stack_block_group_chunk_objectid bgi = APFS_FIRST_CHUNK_TREE_OBJECTID /\
  apfs_stack_block_group_used bgi <= offset key /\
  (profile = 0 \/ exists k, 0 <= k < 64 /\ profile = 2 ^ k) /\
  In (Z.land flags APFS_BLOCK_GROUP_TYPE_MASK)
    [APFS_BLOCK_GROUP_DATA; APFS_BLOCK_GROUP_METADATA; APFS_BLOCK_GROUP_SYSTEM;
     Z.lor APFS_BLOCK_GROUP_METADATA APFS_BLOCK_GROUP_DATA].
Proof.
  intros H bgi flags profile.
  unfold check_block_group_item in H. cbv zeta in H.
  fold bgi in H. fold flags in H.
  destruct (Z.eqb_spec (offset key) 0) as [|Ho]; [destruct (fst_corrupt _ H)|].
  destruct (Z.eqb_spec (u32 (apfs_item_size_nr leaf slot))
              sizeof_apfs_block_group_item) as [Hsz|]; cbn [negb] in H;
    [|destruct (fst_corrupt _ H)].
  destruct (Z.eqb_spec (apfs_stack_block_group_chunk_objectid bgi)
              APFS_FIRST_CHUNK_TREE_OBJECTID) as [Hc|]; cbn [negb] in H;
    [|destruct (fst_corrupt _ H)].
  destruct (Z.ltb_spec (offset key) (apfs_stack_block_group_used bgi))
    as [|Hu]; [destruct (fst_corrupt _ H)|].
  destruct (Z.ltb_spec 1
              (hweight64 (Z.land flags APFS_BLOCK_GROUP_PROFILE_MASK)))
    as [|Hw]; [destruct (fst_corrupt _ H)|].
  match type of H with
  | fst (if ?c then _ else _) = 0 =>
      destruct c eqn:Et; [destruct (fst_corrupt _ H)|]
  end.
  repeat split; try assumption.
  - apply hweight64_le_1. exact Hw.
  - cbn [In].
    repeat (apply andb_false_iff in Et; destruct Et as [Et|Et]);
      apply negb_false_iff, Z.eqb_eq in Et; rewrite Et; tauto.
Qed.

(** The chunk item of a leaf is accepted only with the size its stripe
    count gives it, with a stripe count that is not zero, and when
    [apfs_check_chunk_valid] accepts the chunk. A chunk item with no
    stripe is rejected whatever its size. *)
Theorem leaf_chunk_item_guarantees (leaf : extent_buffer) (chunk : Z)
  (key : apfs_key) (slot : Z) :
  (fst (check_leaf_chunk_item leaf chunk key slot) = 0 ->
   sizeof_apfs_chunk <= apfs_item_size_nr leaf slot /\
   apfs_chunk_num_stripes leaf chunk <> 0 /\
   apfs_chunk_item_size (apfs_chunk_num_stripes leaf chunk)
   = apfs_item_size_nr leaf slot /\
   fst (apfs_check_chunk_valid leaf chunk (offset key)) = 0) /\
  (apfs_chunk_num_stripes leaf chunk = 0 ->
   fst (check_leaf_chunk_item leaf chunk key slot) = - EUCLEAN).
Proof.
  unfold check_leaf_chunk_item. cbv zeta.
  destruct (Z.ltb_spec (apfs_item_size_nr leaf slot) sizeof_apfs_chunk)
    as [|Hsz].
  { split; [intros Hz; destruct (fst_corrupt _ Hz)|reflexivity]. }
  destruct (Z.eqb_spec (apfs_chunk_num_stripes leaf chunk) 0) as [E0|Hn].
  { assert (Hr : fst (apfs_check_chunk_valid leaf chunk (offset key))
                 = - EUCLEAN).
    { unfold apfs_check_chunk_valid. cbv zeta. rewrite E0. reflexivity. }
    split; [|intros _; exact Hr].
    intros Hz. rewrite Hr in Hz. discriminate Hz. }
  split; [|intros E; contradiction].
  destruct (Z.eqb_spec (apfs_chunk_item_size (apfs_chunk_num_stripes leaf chunk))
              (apfs_item_size_nr leaf slot)) as [Hi|]; cbn [negb].
  - intros Hz. repeat split; assumption.
  - intros Hz. destruct (fst_corrupt _ Hz).
Qed.

End MoreItemFacts.

Section RefFacts.
Context {C : ctree}.

Lemma check_inode_ref_loop_decodes leaf slot end_ :
  0 < sizeof_apfs_inode_ref < 2 ^ 32 ->
  0 <= sizeof_pointer <= sizeof_apfs_inode_ref ->
  end_ < 2 ^ 63 ->
  forall fuel ptr,
    0 <= ptr <= end_ -> (Z.to_nat (end_ - ptr) <= fuel)%nat ->
    match inode_refs_at fuel leaf end_ ptr with
    | Some _ => check_inode_ref_loop fuel leaf slot end_ ptr = Returns (0, [])
    | None =>
        exists e,
          check_inode_ref_loop fuel leaf slot end_ ptr
          = Returns (- EUCLEAN, [e])
    end.
Proof.
  intros Hsz Hp He.
  induction fuel as [|fuel IH]; intros ptr Hptr Hf;
    cbn [check_inode_ref_loop inode_refs_at];
    (destruct (Z.eqb_spec ptr end_) as [->|Hne];
     [rewrite Z.ltb_irrefl; reflexivity|]); [lia|].
  destruct (Z.ltb_spec ptr end_) as [Hlt|]; [|lia]. cbn [negb andb]. cbv zeta.
  pose proof (u16_range (apfs_inode_ref_name_len leaf ptr)) as Hn.
  rewrite (ulong_small (ptr + sizeof_pointer)) by lia.
  rewrite (ulong_small (ptr + sizeof_apfs_inode_ref + _)) by lia.
  destruct (Z.leb_spec
              (ptr + sizeof_apfs_inode_ref
               + u16 (apfs_inode_ref_name_len leaf ptr)) end_) as [Hfit|Hno].
  - destruct (Z.ltb_spec end_ (ptr + sizeof_pointer)); [lia|].
    destruct (Z.ltb_spec end_ (ptr + sizeof_apfs_inode_ref
                               + u16 (apfs_inode_ref_name_len leaf ptr)));
      [lia|].
    assert (IH' := IH (ptr + sizeof_apfs_inode_ref
                       + u16 (apfs_inode_ref_name_len leaf ptr))).
    destruct (inode_refs_at fuel leaf end_ _); apply IH'; lia.
  - destruct (Z.ltb_spec end_ (ptr + sizeof_pointer));
      [eexists; reflexivity|].
    destruct (Z.ltb_spec end_ (ptr + sizeof_apfs_inode_ref
                               + u16 (apfs_inode_ref_name_len leaf ptr)));
      [eexists; reflexivity|lia].
Qed.

Lemma check_inode_ref_whole (leaf : extent_buffer)
  (key prev_key : apfs_key) (slot : Z) :
  0 <= apfs_item_ptr_offset leaf slot < 2 ^ 32 ->
  0 <= apfs_item_size_nr leaf slot < 2 ^ 32 ->
  0 < sizeof_apfs_inode_ref < 2 ^ 32 ->
  0 <= sizeof_pointer <= sizeof_apfs_inode_ref ->
  check_prev_ino leaf key slot prev_key = Returns (true, []) ->
  let whole :=
    sizeof_apfs_inode_ref < apfs_item_size_nr leaf slot /\
    inode_refs_of leaf slot <> None in
  (whole -> check_inode_ref leaf key prev_key slot = Returns (0, [])) /\
  (~ whole ->
   exists e, check_inode_ref leaf key prev_key slot = Returns (- EUCLEAN, [e])).
Proof.
  intros Hoff Hsize Hsz Hp Hprev whole. unfold whole.
  unfold check_inode_ref, inode_refs_of. cbv zeta.
  rewrite Hprev. cbn [run_bind fst snd negb].
  destruct (Z.leb_spec (apfs_item_size_nr leaf slot) sizeof_apfs_inode_ref)
    as [Hle|Hgt].
  { split; [intros [? _]; lia|]. intros _. eexists. reflexivity. }
  rewrite (ulong_small (apfs_item_ptr_offset leaf slot)) by lia.
  rewrite (ulong_small (_ + _)) by lia.
  assert (Hend : apfs_item_ptr_offset leaf slot + apfs_item_size_nr leaf slot
                 < 2 ^ 63) by lia.
  assert (Hin : 0 <= apfs_item_ptr_offset leaf slot
                <= apfs_item_ptr_offset leaf slot
                   + apfs_item_size_nr leaf slot) by lia.
  pose proof (check_inode_ref_loop_decodes leaf slot
                (apfs_item_ptr_offset leaf slot + apfs_item_size_nr leaf slot)
                Hsz Hp Hend
                (Z.to_nat (apfs_item_ptr_offset leaf slot
                           + apfs_item_size_nr leaf slot
                           - apfs_item_ptr_offset leaf slot))
                (apfs_item_ptr_offset leaf slot) Hin (Nat.le_refl _))
    as Hloop.
  destruct (inode_refs_at _ leaf _ _) as [refs|].
  - split; [intros _; exact Hloop|]. intros Hno. exfalso. apply Hno.
    split; [lia|discriminate].
  - split; [intros [_ Hd]; contradiction|]. intros _. exact Hloop.
Qed.

(** An INODE_REF item that lies inside the block and passes the check of
    the previous key: the check returns 0 exactly when the item is longer
    than one header and splits into whole references, each a header
    followed by its name, that fill it. The loop reads the length of a
    name once the size of a pointer, not of the header, fits in the item:
    when the bytes that follow the item in the block make up for the
    difference, an item that does not split so is rejected with one
    report. *)
Theorem inode_ref_accepted_iff_whole_refs (leaf : extent_buffer)
  (key prev_key : apfs_key) (slot : Z) :
  0 <= apfs_item_ptr_offset leaf slot < 2 ^ 32 ->
  0 <= apfs_item_size_nr leaf slot < 2 ^ 32 ->
  0 < sizeof_apfs_inode_ref < 2 ^ 32 ->
  0 <= sizeof_pointer <= sizeof_apfs_inode_ref ->
  check_prev_ino leaf key slot prev_key = Returns (true, []) ->
  apfs_item_ptr_offset leaf slot + apfs_item_size_nr leaf slot <= len leaf ->
  let whole :=
    sizeof_apfs_inode_ref < apfs_item_size_nr leaf slot /\
    inode_refs_of leaf slot <> None in
  (check_inode_ref leaf key prev_key slot = Returns (0, []) <-> whole) /\
  (apfs_item_ptr_offset leaf slot + apfs_item_size_nr leaf slot
   + (sizeof_apfs_inode_ref - sizeof_pointer) <= len leaf ->
   ~ whole ->
   exists e, check_inode_ref leaf key prev_key slot = Returns (- EUCLEAN, [e])).
Proof.
  intros Hoff Hsize Hsz Hp Hprev _ whole.
  destruct (check_inode_ref_whole leaf key prev_key slot Hoff Hsize Hsz Hp
              Hprev) as [Hyes Hno].
  fold whole in Hyes, Hno.
  split; [split|].
  - intros E.
    assert (Hdec : whole \/ ~ whole).
    { unfold whole.
      destruct (Z.lt_ge_cases sizeof_apfs_inode_ref
                  (apfs_item_size_nr leaf slot)) as [Hlt|Hge];
        [|right; intros [? _]; lia].
      destruct (inode_refs_of leaf slot) as [refs|];
        [left; split; [exact Hlt|discriminate]
        |right; intros [_ Hn]; apply Hn; reflexivity]. }
    destruct Hdec as [Hw|Hw]; [exact Hw|].
    destruct (Hno Hw) as (e & He). rewrite He in E.
    injection E as E. unfold EUCLEAN in E. lia.
  - exact Hyes.
  - intros _. exact Hno.
Qed.



End RefFacts.

Section CsumFacts.
Context {C : ctree}.

(** What the return value 0 of [check_csum_item] stands for, with a
    checksum size that is not zero: the key of the checksum tree, a file
    offset and a size for which [IS_ALIGNED] holds with the sector size and
    the checksum size, and, after another checksum item, a start at or
    after the end of the bytes the checksums of that item cover, one sector
    each. The number of bytes covered is computed in 32 bits. *)
Theorem csum_item_guarantees (leaf : extent_buffer) (key : apfs_key)
  (slot : Z) (prev_key : apfs_key) :
  0 < u32 (csum_size (fs_info leaf)) ->
  fst (check_csum_item leaf key slot prev_key) = 0 ->
  let sectorsize := u32 (sectorsize (fs_info leaf)) in
  let csumsize := u32 (csum_size (fs_info leaf)) in
  let covered := u32 (apfs_item_size_nr leaf (slot - 1)) / csumsize * sectorsize in
  objectid key = APFS_EXTENT_CSUM_OBJECTID /\
  IS_ALIGNED (offset key) sectorsize = true /\
  IS_ALIGNED (apfs_item_size_nr leaf slot) csumsize = true /\
  (0 < slot -> type prev_key = APFS_EXTENT_CSUM_KEY ->
   0 <= covered < 2 ^ 32 -> 0 <= offset prev_key ->
   offset prev_key + covered < 2 ^ 64 ->
   offset prev_key + covered <= offset key).
Proof.
  intros _ H sectorsize csumsize covered.
  unfold check_csum_item in H. cbv zeta in H.
  fold sectorsize csumsize in H.
  destruct (Z.eqb_spec (objectid key) APFS_EXTENT_CSUM_OBJECTID) as [Ho|];
    cbn [negb] in H; [|destruct (fst_corrupt _ H)].
  destruct (IS_ALIGNED (offset key) sectorsize); cbn [negb] in H;
    [|destruct (fst_corrupt _ H)].
  destruct (IS_ALIGNED (apfs_item_size_nr leaf slot) csumsize);
    cbn [negb] in H; [|destruct (fst_corrupt _ H)].
  repeat split; try assumption.
  intros Hs Ht Hc Hp Hlt.
  destruct (Z.ltb_spec 0 slot); [|lia].
  rewrite Ht, Z.eqb_refl in H. cbn [andb] in H.
  fold covered in H.
  rewrite (u32_small covered) in H by exact Hc.
  rewrite (u64_small (covered + offset prev_key)) in H by lia.
  destruct (Z.ltb_spec (offset key) (covered + offset prev_key));
    [destruct (fst_corrupt _ H)|lia].
Qed.

End CsumFacts.

(** ** The statements after the early return of the leaf and node checkers *)

Section BodyFacts.
Context {C : ctree} {T : block_tables}.

Lemma check_leaf_loop_inv (leaf : extent_buffer) (cid : bool) (n : nat) :
  forall s v, 0 <= s ->
    check_leaf_loop n leaf cid s (prev_key_of leaf s) = Returns v ->
    fst v = 0 ->
    forall i, s <= i < s + Z.of_nat n ->
      key_in_order leaf i = true /\ payload_in_place leaf i = true /\
      (cid = true ->
       exists w,
         check_leaf_item leaf (apfs_item_key_to_cpu leaf i) i
           (prev_key_of leaf i) = Returns w /\ 0 <= fst w).
Proof.
  induction n as [|n IH]; intros s v Hs Hr Hv i Hi; [lia|].
  cbn [check_leaf_loop] in Hr.
  destruct (Z.leb_spec 0 (apfs_comp_cpu_keys leaf (prev_key_of leaf s)
                            (apfs_item_key_to_cpu leaf s))) as [Hc|Hc].
  { injection Hr as <-. destruct (fst_corrupt _ Hv). }
  destruct (apfs_item_end_nr leaf s
            =? (if s =? 0 then u32 (APFS_LEAF_DATA_SIZE (fs_info leaf))
                else u32 (apfs_item_offset_nr leaf (s - 1)))) eqn:He;
    cbn [negb] in Hr; [|injection Hr as <-; destruct (fst_corrupt _ Hv)].
  destruct (Z.ltb_spec (APFS_LEAF_DATA_SIZE (fs_info leaf))
              (apfs_item_end_nr leaf s)) as [Hw|Hw];
    [injection Hr as <-; destruct (fst_corrupt _ Hv)|].
  destruct (if cid
            then check_leaf_item leaf (apfs_item_key_to_cpu leaf s) s
                   (prev_key_of leaf s)
            else Returns OK) as [ret| |] eqn:Er;
    cbn [run_bind] in Hr; try discriminate Hr.
  destruct (Z.ltb_spec (fst ret) 0) as [Hneg|Hpos].
  { injection Hr as <-. lia. }
  destruct (Z.eq_dec i s) as [->|Hne].
  - split; [unfold key_in_order; apply Z.ltb_lt; exact Hc|].
    split.
    + unfold payload_in_place. rewrite He. cbn [andb]. apply Z.leb_le. exact Hw.
    + intros ->. exists ret. split; [exact Er|exact Hpos].
  - rewrite <- (prev_key_of_succ leaf s Hs) in Hr.
    assert (Hs1 : 0 <= s + 1) by lia.
    assert (Hi1 : s + 1 <= i < s + 1 + Z.of_nat n) by lia.
    exact (IH (s + 1) v Hs1 Hr Hv i Hi1).
Qed.

(** What the return value 0 of the statements after the [return 0;] of
    [check_leaf] stands for, with the item checks or without: a leaf of
    level 0 in which each key is above the key of the slot before and the
    payloads lie back to back from the end of the data area down; with the
    item checks, [check_leaf_item] has also returned for every item, and
    not a negative value. A leaf with a key out of order is so never
    accepted. *)
Theorem leaf_body_guarantees (leaf : extent_buffer) (cid : bool)
  (v : verdict) :
  check_leaf_unreached leaf cid = Returns v -> fst v = 0 ->
  apfs_header_level leaf = 0 /\
  forall i, 0 <= i < u32 (apfs_header_nritems leaf) ->
    key_in_order leaf i = true /\ payload_in_place leaf i = true /\
    (cid = true ->
     exists w,
       check_leaf_item leaf (apfs_item_key_to_cpu leaf i) i
         (prev_key_of leaf i) = Returns w /\ 0 <= fst w).
Proof.
  unfold check_leaf_unreached. cbv zeta. intros Hr Hv.
  destruct (Z.eqb_spec (apfs_header_level leaf) 0) as [Hl|Hl];
    cbn [negb] in Hr;
    [|injection Hr as <-; destruct (fst_corrupt _ Hv)].
  split; [exact Hl|]. intros i Hi.
  destruct (Z.eqb_spec (u32 (apfs_header_nritems leaf)) 0) as [Hz|Hz];
    [exfalso; lia|].
  cbn [andb] in Hr.
  assert (H0 : 0 <= 0) by lia.
  assert (Hi' : 0 <= i
                < 0 + Z.of_nat (Z.to_nat (u32 (apfs_header_nritems leaf))))
    by lia.
  exact (check_leaf_loop_inv leaf cid _ 0 v H0 Hr Hv i Hi').
Qed.


Lemma check_leaf_loop_relaxed_inv (leaf : extent_buffer) (n : nat) :
  forall s, 0 <= s ->
    check_leaf_loop n leaf false s (prev_key_of leaf s) = Returns (0, []) ->
    forall i, s <= i < s + Z.of_nat n ->
              key_in_order leaf i = true /\ payload_in_place leaf i = true.
Proof.
  induction n as [|n IH]; intros s Hs Hr i Hi; [lia|].
  cbn [check_leaf_loop] in Hr.
  destruct (Z.leb_spec 0 (apfs_comp_cpu_keys leaf (prev_key_of leaf s)
                            (apfs_item_key_to_cpu leaf s))) as [Hc|Hc].
  { discriminate Hr. }
  destruct (apfs_item_end_nr leaf s
            =? (if s =? 0 then u32 (APFS_LEAF_DATA_SIZE (fs_info leaf))
                else u32 (apfs_item_offset_nr leaf (s - 1)))) eqn:He;
    cbn [negb] in Hr; [|discriminate Hr].
  destruct (Z.ltb_spec (APFS_LEAF_DATA_SIZE (fs_info leaf))
              (apfs_item_end_nr leaf s)) as [Hw|Hw]; [discriminate Hr|].
  cbn [run_bind fst] in Hr. change (0 <? 0) with false in Hr. cbv iota in Hr.
  destruct (Z.eq_dec i s) as [->|Hne].
  - split.
    + unfold key_in_order. apply Z.ltb_lt. exact Hc.
    + unfold payload_in_place. rewrite He. cbn [andb]. apply Z.leb_le. exact Hw.
  - rewrite <- (prev_key_of_succ leaf s Hs) in Hr.
    assert (Hs1 : 0 <= s + 1) by lia.
    assert (Hi1 : s + 1 <= i < s + 1 + Z.of_nat n) by lia.
    exact (IH (s + 1) Hs1 Hr i Hi1).
Qed.

(** The statements after the [return 0;] of [check_leaf], without the item
    checks, for a leaf that holds items and whose item table lies inside
    the block: they return 0 exactly when the level of the leaf is 0, each
    key is above the key of the slot before, and the payloads lie back to
    back from the end of the data area down. *)
Theorem leaf_body_relaxed_accepts_iff (leaf : extent_buffer) :
  item_table_in_block leaf ->
  0 < u32 (apfs_header_nritems leaf) ->
  check_leaf_unreached leaf false = Returns (0, []) <->
  apfs_header_level leaf = 0 /\
  forall i, 0 <= i < u32 (apfs_header_nritems leaf) ->
            key_in_order leaf i = true /\ payload_in_place leaf i = true.
Proof.
  intros _ Hn. split.
  - unfold check_leaf_unreached. cbv zeta.
    destruct (Z.eqb_spec (apfs_header_level leaf) 0) as [Hl|Hl];
      cbn [negb]; [|discriminate].
    destruct (Z.eqb_spec (u32 (apfs_header_nritems leaf)) 0); [lia|].
    cbn [andb]. intros Hr. split; [exact Hl|]. intros i Hi.
    assert (H0 : 0 <= 0) by lia.
    assert (Hi' : 0 <= i < 0 + Z.of_nat (Z.to_nat (u32 (apfs_header_nritems leaf))))
      by lia.
    exact (check_leaf_loop_relaxed_inv leaf _ 0 H0 Hr i Hi').
  - intros [Hl Hall].
    apply check_leaf_unreached_relaxed_accepts; assumption.
Qed.

Lemma apfs_check_node_loop_first_bad (node : extent_buffer) (n : nat) :
  forall s i, s <= i < s + Z.of_nat n ->
    (forall j, s <= j < i ->
               pointer_valid node j = true /\ pointer_in_order node j = true) ->
    pointer_valid node i && pointer_in_order node i = false ->
    exists e, apfs_check_node_loop n node s = (- EUCLEAN, [e]) /\
              log_slot e = i.
Proof.
  induction n as [|n IH]; intros s i Hi Hbefore Hbad; [lia|].
  cbn [apfs_check_node_loop].
  destruct (Z.eq_dec i s) as [->|Hne].
  - unfold pointer_valid, pointer_in_order in Hbad.
    destruct (u64 (apfs_node_blockptr node s) =? 0);
      [eexists; split; reflexivity|].
    destruct (IS_ALIGNED (u64 (apfs_node_blockptr node s))
                (sectorsize (fs_info node)));
      cbn [negb andb] in Hbad |- *; [|eexists; split; reflexivity].
    rewrite Z.leb_antisym, Hbad. cbn [negb]. eexists; split; reflexivity.
  - assert (Hs : s <= s < i) by lia.
    destruct (Hbefore s Hs) as [Hv' Ho'].
    unfold pointer_valid in Hv'. apply andb_prop in Hv'.
    destruct Hv' as [Hnz Hal].
    apply negb_true_iff in Hnz. rewrite Hnz, Hal. cbn [negb].
    unfold pointer_in_order in Ho'. rewrite Z.leb_antisym, Ho'. cbn [negb].
    apply IH; try assumption; [lia|]. intros j Hj. apply Hbefore. lia.
Qed.

(** The statements after the [return 0;] of [apfs_check_node], for a node
    of a level in [1, MAX_LEVEL - 1] with [nr >= 1] pointers that all lie
    inside the block: they look at the pointers 0 .. nr - 2 only; when
    each of these holds a non-null aligned address and a key below the next
    key they return 0, and otherwise they return -EUCLEAN with one report,
    for the first pointer that does not. The address of the last pointer
    is never looked at. *)
Theorem node_body_reports_first_bad_pointer (node : extent_buffer) :
  0 < apfs_header_level node < APFS_MAX_LEVEL ->
  1 <= ulong (apfs_header_nritems node) ->
  key_ptrs_in_block node ->
  let good i := pointer_valid node i && pointer_in_order node i in
  let nr := ulong (apfs_header_nritems node) in
  ((forall i, 0 <= i < nr - 1 -> good i = true) ->
   apfs_check_node_unreached node = (0, [])) /\
  (forall i, 0 <= i < nr - 1 ->
     (forall j, 0 <= j < i -> good j = true) -> good i = false ->
     exists e, apfs_check_node_unreached node = (- EUCLEAN, [e]) /\
               log_slot e = i).
Proof.
  intros Hl Hn _ good nr.
  assert (Hbody : apfs_check_node_unreached node
                  = apfs_check_node_loop (Z.to_nat (nr - 1)) node 0).
  { unfold apfs_check_node_unreached. cbv zeta.
    destruct (Z.leb_spec (apfs_header_level node) 0); [lia|].
    destruct (Z.leb_spec APFS_MAX_LEVEL (apfs_header_level node)); [lia|].
    cbn [orb].
    destruct (Z.eqb_spec (ulong (apfs_header_nritems node)) 0); [lia|].
    reflexivity. }
  rewrite Hbody. split.
  - intros Hall. apply apfs_check_node_loop_ok. intros i Hi.
    apply andb_prop. apply Hall. lia.
  - intros i Hi Hbefore Hbad.
    apply apfs_check_node_loop_first_bad.
    + lia.
    + intros j Hj. apply andb_prop. apply Hbefore. lia.
    + exact Hbad.
Qed.

End BodyFacts.

(** * The further properties at the sample blocks *)

Lemma written_eb_wf : wf_eb 3 Samples.written_eb.
Proof.
  unfold wf_eb. split; [vm_compute; repeat constructor|].
  split_all; by_eval.
Qed.

Lemma written_token_ok : token_ok 3 Samples.written_token.
Proof. exists 0. split_all; by_eval. Qed.

Lemma apfs_get_bits_reads_linear_witness :
  exists tr,
    apfs_get_bits 3 true U32 Samples.written_eb 0 6
    = Done (le_combine (firstn (Z.to_nat (sizeof_u U32))
                          (skipn (Z.to_nat (0 + 6))
                             (contents Samples.written_eb)))) tr.
Proof.
  apply (apfs_get_bits_reads_linear 3 true ltac:(lia) U32 Samples.written_eb
           0 6).
  - exact written_eb_wf.
  - unfold valid_access. split_all; by_eval.
Defined.

Lemma apfs_set_bits_writes_linear_witness :
  exists eb' tr,
    apfs_set_bits 3 true U32 Samples.written_eb 10 5 4277009102
    = Done eb' tr /\
    contents eb'
    = splice (Z.to_nat (10 + 5)) (le_split (Z.to_nat (sizeof_u U32)) 4277009102)
        (contents Samples.written_eb) /\
    wf_eb 3 eb' /\ start eb' = start Samples.written_eb /\
    len eb' = len Samples.written_eb /\
    fs_info eb' = fs_info Samples.written_eb /\
    length (pages eb') = length (pages Samples.written_eb).
Proof.
  apply (apfs_set_bits_writes_linear 3 true ltac:(lia) U32 Samples.written_eb
           10 5 4277009102).
  - exact written_eb_wf.
  - unfold valid_access. split_all; by_eval.
Defined.

Lemma apfs_set_bits_frame_witness :
  exists eb' tr v tr1 tr2,
    apfs_set_bits 3 true U16 Samples.written_eb 0 3 65535 = Done eb' tr /\
    apfs_get_bits 3 true U64 Samples.written_eb 2 3 = Done v tr1 /\
    apfs_get_bits 3 true U64 eb' 2 3 = Done v tr2.
Proof.
  apply (apfs_set_bits_frame 3 true ltac:(lia) U16 U64 Samples.written_eb
           0 3 65535 2 3).
  - exact written_eb_wf.
  - unfold valid_access. split_all; by_eval.
  - unfold valid_access. split_all; by_eval.
  - right. by_eval.
Defined.

Lemma apfs_set_bits_little_endian_witness :
  exists eb' tr tr',
    apfs_set_bits 3 true U32 Samples.small_eb 0 6 4277009102 = Done eb' tr /\
    apfs_get_bits 3 true U8 eb' 0 (6 + 2)
    = Done (Z.shiftr 4277009102 (8 * 2) mod 2 ^ 8) tr'.
Proof.
  apply (apfs_set_bits_little_endian 3 true ltac:(lia) U32 Samples.small_eb
           0 6 4277009102 2).
  - exact small_eb_wf.
  - unfold valid_access. split_all; by_eval.
  - split; by_eval.
Defined.

Lemma setget_beyond_len_asserts_witness :
  apfs_get_bits 3 true U32 (tok_eb Samples.small_token) 0 21 = AssertFailed /\
  apfs_set_bits 3 true U32 (tok_eb Samples.small_token) 0 21 7 = AssertFailed /\
  apfs_get_token_bits 3 true U32 Samples.small_token 0 21 = AssertFailed /\
  apfs_set_token_bits 3 true U32 Samples.small_token 0 21 7 = AssertFailed.
Proof.
  apply (setget_beyond_len_asserts 3 U32 Samples.small_token 0 21 7).
  - by_eval.
  - split; by_eval.
  - by_eval.
  - by_eval.
Defined.

Lemma get_beyond_len_unchecked_witness :
  check_setget_bounds Samples.short_len_eb 0 20 (sizeof_u U16) = false /\
  exists tr,
    apfs_get_bits 3 false U16 Samples.short_len_eb 0 20
    = Done (le_combine (firstn (Z.to_nat (sizeof_u U16))
                          (skipn (Z.to_nat (0 + 20))
                             (contents Samples.short_len_eb)))) tr.
Proof.
  apply (get_beyond_len_unchecked 3 ltac:(lia) U16 Samples.short_len_eb 0 20).
  - unfold wf_eb. split; [vm_compute; repeat constructor|].
    split_all; by_eval.
  - by_eval.
  - split; by_eval.
  - by_eval.
  - by_eval.
Defined.

Lemma check_setget_bounds_wraps_off_witness :
  check_setget_bounds Samples.small_eb 0 (4 + 1 * 2 ^ 32) (sizeof_u U32)
  = true /\
  len Samples.small_eb < 0 + (4 + 1 * 2 ^ 32) + sizeof_u U32 /\
  apfs_get_bits 3 true U32 Samples.small_eb 0 (4 + 1 * 2 ^ 32) = BadAccess.
Proof.
  apply (check_setget_bounds_wraps_off 3 ltac:(lia) true U32 Samples.small_eb
           0 4 1).
  - exact small_eb_wf.
  - unfold valid_access. split_all; by_eval.
  - by_eval.
  - by_eval.
  - by_eval.
  - by_eval.
Defined.

Lemma token_left_on_last_page_witness :
  (exists v t' tr,
      apfs_get_token_bits 3 true U32 Samples.written_token 0 6
      = Done (v, t') tr /\
      tok_eb t' = tok_eb Samples.written_token /\
      tok_kaddr t' = Some ((0 + 6 + sizeof_u U32 - 1) / PAGE_SIZE 3) /\
      tok_offset t' = (0 + 6 + sizeof_u U32 - 1) / PAGE_SIZE 3 * PAGE_SIZE 3) /\
  (exists t' tr,
      apfs_set_token_bits 3 true U32 Samples.written_token 0 6 7
      = Done t' tr /\
      tok_kaddr t' = Some ((0 + 6 + sizeof_u U32 - 1) / PAGE_SIZE 3) /\
      tok_offset t' = (0 + 6 + sizeof_u U32 - 1) / PAGE_SIZE 3 * PAGE_SIZE 3).
Proof.
  apply (token_left_on_last_page 3 true ltac:(lia) U32 Samples.written_token
           0 6 7).
  - exact written_eb_wf.
  - exact written_token_ok.
  - unfold valid_access. split_all; by_eval.
Defined.

Section MoreAtSamples.

Local Existing Instance Samples.sample_ctree.
Local Existing Instance Samples.sample_tables.

Lemma sample_item_layout_ok (leaf : extent_buffer) (slot : Z) :
  Samples.rd U32 leaf (Samples.item_nr slot) 17 < 2 ^ 31 ->
  Samples.rd U32 leaf (Samples.item_nr slot) 21 < 2 ^ 31 ->
  item_layout_ok leaf slot.
Proof.
  intros Ho Hs.
  pose proof (rd_range U32 leaf (Samples.item_nr slot) 17) as Ho'.
  pose proof (rd_range U32 leaf (Samples.item_nr slot) 21) as Hs'.
  cbn [nbits] in Ho', Hs'.
  unfold item_layout_ok.
  change (apfs_item_ptr_offset leaf slot)
    with (101 + Samples.rd U32 leaf (Samples.item_nr slot) 17).
  change (apfs_item_size_nr leaf slot)
    with (Samples.rd U32 leaf (Samples.item_nr slot) 21).
  split; [lia|]. split; [lia|].
  split; [split; by_eval|]. split; [split; by_eval|].
  split; [split; by_eval|].
  split; [repeat (apply Forall_cons; [split; by_eval|]); apply Forall_nil|].
  split; intros p; apply (rd_range U16).
Qed.


Lemma padding_reported_for_short_item_only_witness :
  extent_item_end Samples.short_extent_leaf 0
  < inline_refs_start Samples.short_extent_leaf
      (Samples.mk_key 1048576 168 16384) 0.
Proof.
  apply (padding_reported_for_short_item_only Samples.short_extent_leaf
           (Samples.mk_key 1048576 168 16384) 0).
  - apply sample_item_layout_ok; by_eval.
  - by_eval.
Defined.

Lemma file_extent_end_rounds_inline_up_witness :
  let leaf := Samples.inline_overlap_leaf in
  let key := Samples.mk_key 257 108 0 in
  let extent := apfs_item_ptr leaf 1 in
  (apfs_file_extent_type leaf extent = APFS_FILE_EXTENT_INLINE ->
   file_extent_end leaf key extent mod 2 ^ 12 = 0 /\
   offset key + apfs_file_extent_ram_bytes leaf extent
   <= file_extent_end leaf key extent
   < offset key + apfs_file_extent_ram_bytes leaf extent + 2 ^ 12) /\
  (apfs_file_extent_type leaf extent <> APFS_FILE_EXTENT_INLINE ->
   file_extent_end leaf key extent
   = (offset key + apfs_file_extent_num_bytes leaf extent) mod 2 ^ 64).
Proof.
  apply (file_extent_end_rounds_inline_up Samples.inline_overlap_leaf
           (Samples.mk_key 257 108 0)
           (apfs_item_ptr Samples.inline_overlap_leaf 1) 12); by_eval.
Defined.

Lemma inode_item_guarantees_witness :
  let leaf := Samples.good_leaf in
  let key := Samples.mk_key 256 1 0 in
  let iitem := apfs_item_ptr leaf 0 in
  let mode := u32 (apfs_inode_mode leaf iitem) in
  inode_fields_valid leaf key 0 /\
  In (Z.land mode S_IFMT) file_types /\
  (Z.land mode S_IFMT = S_IFDIR -> apfs_inode_nlink leaf iitem <= 1).
Proof.
  apply (inode_item_guarantees Samples.good_leaf (Samples.mk_key 256 1 0) 0).
  by_eval.
Defined.

Lemma chunk_valid_guarantees_witness :
  let leaf := Samples.chunk_leaf 2 in
  let chunk := Samples.chunk_ptr 2 in
  u16 (apfs_chunk_num_stripes leaf chunk) = 2 /\
  u64 (apfs_chunk_stripe_len leaf chunk) = APFS_STRIPE_LEN.
Proof.
  pose proof (chunk_valid_guarantees (Samples.chunk_leaf 2)
                (Samples.chunk_ptr 2) Samples.chunk_logical 12) as H.
  cbv zeta in H.
  assert (H1 : sectorsize (fs_info (Samples.chunk_leaf 2)) = 2 ^ 12)
    by by_eval.
  assert (H2 : 0 <= 12) by lia.
  assert (H3 : 0 <= Samples.chunk_logical) by by_eval.
  assert (H4 : fst (apfs_check_chunk_valid (Samples.chunk_leaf 2)
                      (Samples.chunk_ptr 2) Samples.chunk_logical) = 0)
    by by_eval.
  destruct (H H1 H2 H3 H4) as (_ & _ & Hlen & _ & _ & Hraid1 & _).
  split; [|exact Hlen].
  apply Hraid1. by_eval.
Defined.

Lemma block_group_item_guarantees_witness :
  let leaf := Samples.block_group_leaf in
  let key := Samples.mk_key 20971520 192 8388608 in
  let bgi := read_extent_buffer leaf (apfs_item_ptr_offset leaf 0)
               sizeof_apfs_block_group_item in
  let flags := u64 (apfs_stack_block_group_flags bgi) in
  let profile := u64 (Z.land flags APFS_BLOCK_GROUP_PROFILE_MASK) in
  offset key <> 0 /\
  u32 (apfs_item_size_nr leaf 0) = sizeof_apfs_block_group_item /\
  apfs_stack_block_group_chunk_objectid bgi = APFS_FIRST_CHUNK_TREE_OBJECTID /\
  apfs_stack_block_group_used bgi <= offset key /\
  (profile = 0 \/ exists k, 0 <= k < 64 /\ profile = 2 ^ k) /\
  In (Z.land flags APFS_BLOCK_GROUP_TYPE_MASK)
    [APFS_BLOCK_GROUP_DATA; APFS_BLOCK_GROUP_METADATA; APFS_BLOCK_GROUP_SYSTEM;
     Z.lor APFS_BLOCK_GROUP_METADATA APFS_BLOCK_GROUP_DATA].
Proof.
  apply (block_group_item_guarantees Samples.block_group_leaf
           (Samples.mk_key 20971520 192 8388608) 0).
  by_eval.
Defined.

Lemma leaf_chunk_item_guarantees_witness :
  let leaf := Samples.chunk_leaf 2 in
  let chunk := Samples.chunk_ptr 2 in
  let key := Samples.mk_key 256 228 Samples.chunk_logical in
  sizeof_apfs_chunk <= apfs_item_size_nr leaf 0 /\
  apfs_chunk_num_stripes leaf chunk <> 0 /\
  apfs_chunk_item_size (apfs_chunk_num_stripes leaf chunk)
  = apfs_item_size_nr leaf 0 /\
  fst (apfs_check_chunk_valid leaf chunk (offset key)) = 0.
Proof.
  apply (proj1 (leaf_chunk_item_guarantees (Samples.chunk_leaf 2)
                  (Samples.chunk_ptr 2)
                  (Samples.mk_key 256 228 Samples.chunk_logical) 0)).
  by_eval.
Defined.

Lemma inode_ref_accepted_iff_whole_refs_witness :
  let leaf := Samples.inode_ref_leaf in
  check_inode_ref leaf (Samples.mk_key 257 12 256) (Samples.mk_key 257 1 0) 1
  = Returns (0, []).
Proof.
  refine (proj2 (proj1 (inode_ref_accepted_iff_whole_refs
                          Samples.inode_ref_leaf
                          (Samples.mk_key 257 12 256) (Samples.mk_key 257 1 0)
                          1 _ _ _ _ _ _)) _).
  - split; by_eval.
  - split; by_eval.
  - split; by_eval.
  - split; by_eval.
  - by_eval.
  - by_eval.
  - split; by_eval.
Defined.


Lemma csum_item_guarantees_witness :
  let leaf := Samples.csum_leaf in
  let key := Samples.mk_key (2 ^ 64 - 10) 128 8192 in
  let prev_key := Samples.mk_key (2 ^ 64 - 10) 128 0 in
  let sectorsize := u32 (sectorsize (fs_info leaf)) in
  let csumsize := u32 (csum_size (fs_info leaf)) in
  let covered := u32 (apfs_item_size_nr leaf (1 - 1)) / csumsize * sectorsize in
  objectid key = APFS_EXTENT_CSUM_OBJECTID /\
  IS_ALIGNED (offset key) sectorsize = true /\
  IS_ALIGNED (apfs_item_size_nr leaf 1) csumsize = true /\
  (0 < 1 -> type prev_key = APFS_EXTENT_CSUM_KEY ->
   0 <= covered < 2 ^ 32 -> 0 <= offset prev_key ->
   offset prev_key + covered < 2 ^ 64 ->
   offset prev_key + covered <= offset key).
Proof.
  apply (csum_item_guarantees Samples.csum_leaf
           (Samples.mk_key (2 ^ 64 - 10) 128 8192) 1
           (Samples.mk_key (2 ^ 64 - 10) 128 0)); by_eval.
Defined.

Lemma leaf_body_guarantees_witness :
  apfs_header_level Samples.good_leaf = 0 /\
  forall i, 0 <= i < u32 (apfs_header_nritems Samples.good_leaf) ->
    key_in_order Samples.good_leaf i = true /\
    payload_in_place Samples.good_leaf i = true /\
    (true = true ->
     exists w,
       check_leaf_item Samples.good_leaf
         (apfs_item_key_to_cpu Samples.good_leaf i) i
         (prev_key_of Samples.good_leaf i) = Returns w /\ 0 <= fst w).
Proof.
  apply (leaf_body_guarantees Samples.good_leaf true (0, [])); by_eval.
Defined.

Lemma sample_item_table_in_block (leaf : extent_buffer) (n : Z) :
  u32 (apfs_header_nritems leaf) = n -> n < 2 ^ 31 ->
  Samples.item_nr n <= len leaf ->
  item_table_in_block leaf.
Proof.
  intros Hn Hlt Hle. unfold item_table_in_block. rewrite Hn.
  split; [exact Hlt|]. intros i Hi.
  change (apfs_item_nr_offset i) with (101 + 25 * i).
  change sizeof_apfs_item with 25.
  change (Samples.item_nr n) with (101 + 25 * n) in Hle. lia.
Qed.

Lemma sample_key_ptrs_in_block (node : extent_buffer) (n : Z) :
  ulong (apfs_header_nritems node) = n -> n < 2 ^ 31 ->
  Samples.key_ptr_nr n <= len node ->
  key_ptrs_in_block node.
Proof.
  intros Hn Hlt Hle. unfold key_ptrs_in_block. rewrite Hn.
  split; [exact Hlt|]. intros i Hi.
  change (apfs_node_key_ptr_offset i) with (101 + 33 * i).
  change sizeof_apfs_key_ptr with 33.
  change (Samples.key_ptr_nr n) with (101 + 33 * n) in Hle. lia.
Qed.

(** In the sample format the two hypotheses are what the accessors
    assert: every field of the item header, and of the key pointer, of a
    slot below the count is read without a failed assertion. *)
Lemma sample_field_readable (b : ubits) (eb : extent_buffer) (ptr off : Z) :
  wf_eb 12 eb -> 0 <= ptr -> 0 <= off -> ptr + off + sizeof_u b <= len eb ->
  exists v tr, apfs_get_bits 12 true b eb ptr off = Done v tr.
Proof.
  intros Hwf Hp Ho Hl.
  assert (H12 : 3 <= 12) by lia.
  assert (Hva : valid_access eb ptr off (sizeof_u b))
    by (unfold valid_access; lia).
  destruct (apfs_get_bits_done 12 true H12 b eb ptr off Hwf Hva)
    as (v & tr & E & _).
  exists v, tr. exact E.
Qed.

Lemma sample_item_header_readable (leaf : extent_buffer) (i : Z) :
  wf_eb 12 leaf -> item_table_in_block leaf ->
  0 <= i < u32 (apfs_header_nritems leaf) ->
  Forall (fun f : ubits * Z =>
            exists v tr,
              apfs_get_bits 12 true (fst f) leaf (Samples.item_nr i) (snd f)
              = Done v tr)
    [(U64, 0); (U8, 8); (U64, 9); (U32, 17); (U32, 21)].
Proof.
  intros Hwf [_ Hin] Hi. destruct (Hin i Hi) as [H0 H1].
  change (apfs_item_nr_offset i) with (Samples.item_nr i) in H0, H1.
  change sizeof_apfs_item with 25 in H1.
  repeat (apply Forall_cons;
          [cbn [fst snd]; apply sample_field_readable;
           [exact Hwf|exact H0|lia|cbn [sizeof_u]; lia]|]).
  apply Forall_nil.
Qed.

Lemma sample_key_ptr_readable (node : extent_buffer) (i : Z) :
  wf_eb 12 node -> key_ptrs_in_block node ->
  0 <= i < ulong (apfs_header_nritems node) ->
  Forall (fun f : ubits * Z =>
            exists v tr,
              apfs_get_bits 12 true (fst f) node (Samples.key_ptr_nr i) (snd f)
              = Done v tr)
    [(U64, 0); (U8, 8); (U64, 9); (U64, 17)].
Proof.
  intros Hwf [_ Hin] Hi. destruct (Hin i Hi) as [H0 H1].
  change (apfs_node_key_ptr_offset i) with (Samples.key_ptr_nr i) in H0, H1.
  change sizeof_apfs_key_ptr with 33 in H1.
  repeat (apply Forall_cons;
          [cbn [fst snd]; apply sample_field_readable;
           [exact Hwf|exact H0|lia|cbn [sizeof_u]; lia]|]).
  apply Forall_nil.
Qed.

Lemma leaf_body_relaxed_accepts_iff_witness :
  check_leaf_unreached Samples.good_leaf false = Returns (0, []) <->
  apfs_header_level Samples.good_leaf = 0 /\
  forall i, 0 <= i < u32 (apfs_header_nritems Samples.good_leaf) ->
            key_in_order Samples.good_leaf i = true /\
            payload_in_place Samples.good_leaf i = true.
Proof.
  apply (leaf_body_relaxed_accepts_iff Samples.good_leaf).
  - apply (sample_item_table_in_block Samples.good_leaf 2); by_eval.
  - by_eval.
Defined.

Lemma node_body_reports_first_bad_pointer_witness :
  let node := Samples.bad_order_node in
  let good i := pointer_valid node i && pointer_in_order node i in
  let nr := ulong (apfs_header_nritems node) in
  ((forall i, 0 <= i < nr - 1 -> good i = true) ->
   apfs_check_node_unreached node = (0, [])) /\
  (forall i, 0 <= i < nr - 1 ->
     (forall j, 0 <= j < i -> good j = true) -> good i = false ->
     exists e, apfs_check_node_unreached node = (- EUCLEAN, [e]) /\
               log_slot e = i).
Proof.
  apply (node_body_reports_first_bad_pointer Samples.bad_order_node).
  - split; by_eval.
  - by_eval.
  - apply (sample_key_ptrs_in_block Samples.bad_order_node 3); by_eval.
Defined.

End MoreAtSamples.
